(** * Direct-runner transform evaluators

    A shallow embedding of
    [apache_beam/runners/direct/transform_evaluator.py], of the
    splittable-DoFn invoker of [apache_beam/runners/sdf_common.py] and of
    the id map of [apache_beam/runners/pipeline_context.py], together with
    the properties the specification states about them.

    Python objects that are mutated in place (the per-step keyed state,
    the sink's writer) are threaded explicitly; a raised exception keeps
    the mutations made before it, as in Python. *)

From stdpp Require Import gmap strings pretty list fin_maps.

Set Default Proof Using "Type".

(** ** Exceptions and the evaluator monad *)

Inductive PyError : Type :=
  | AssertionError
  | TypeCheckError
  | TypeError
  | NotImplementedError
  | AttributeError
  | ValueError.

Inductive result (A : Type) : Type :=
  | Ok (a : A)
  | Raise (e : PyError).
Arguments Ok {A} a.
Arguments Raise {A} e.

(** A computation over a mutable store [S]: it returns a value or raises,
    and in both cases leaves a store behind. *)
Definition Py (S A : Type) : Type := S → result A * S.

Definition py_ret {S A} (a : A) : Py S A := λ s, (Ok a, s).

Definition py_bind {S A B} (m : Py S A) (k : A → Py S B) : Py S B :=
  λ s, match m s with
       | (Ok a, s') => k a s'
       | (Raise e, s') => (Raise e, s')
       end.

Definition py_raise {S A} (e : PyError) : Py S A := λ s, (Raise e, s).

(** [assert c] *)
Definition py_assert {S} (c : bool) : Py S unit :=
  if c then py_ret () else py_raise AssertionError.

(** An expression that returns or raises without touching the store. *)
Definition py_lift {S A} (r : result A) : Py S A := λ s, (r, s).

Definition py_get {S} : Py S S := λ s, (Ok s, s).
Definition py_modify {S} (f : S → S) : Py S unit := λ s, (Ok (), f s).

#[global] Instance py_mret {S} : MRet (Py S) := λ _, py_ret.
#[global] Instance py_mbind {S} : MBind (Py S) := λ _ _ k m, py_bind m k.

(** [for x in xs: body x] *)
Fixpoint py_for {S A} (xs : list A) (body : A → Py S unit) : Py S unit :=
  match xs with
  | [] => py_ret ()
  | x :: rest => py_bind (body x) (λ _, py_for rest body)
  end.

(** ** Timestamps and watermarks *)

(** Modelled from the spec: [WatermarkManager.WATERMARK_NEG_INF] and
    [WATERMARK_POS_INF] of [watermark_manager.py], which is not among the
    sources.  A watermark or hold is one of [−∞], a concrete timestamp,
    or [+∞]. *)
Inductive Timestamp : Type :=
  | WATERMARK_NEG_INF
  | micros (t : Z)
  | WATERMARK_POS_INF.

#[global] Instance Timestamp_eq_dec : EqDecision Timestamp.
Proof. solve_decision. Defined.

(** ** Windowed values and bundles *)

Inductive Window : Type :=
  | GlobalWindow
  | IntervalWindow (start stop : Z).

Record WindowedValue (A : Type) : Type := mkWindowedValue {
  value : A;
  timestamp : Timestamp;
  windows : list Window
}.
Arguments mkWindowedValue {A} _ _ _.
Arguments value {A} _.
Arguments timestamp {A} _.
Arguments windows {A} _.

(** Modelled from the spec: [GlobalWindows.windowed_value] of
    [transforms/window.py], not among the sources: a global-window
    timestamped value. *)
Definition windowed_value {A} (v : A) : WindowedValue A :=
  mkWindowedValue v WATERMARK_NEG_INF [GlobalWindow].

(** Modelled from the spec: the bundle factory of [bundle_factory.py],
    not among the sources.  An uncommitted bundle is an ordered sequence
    of elements attributed to one collection. *)
Record Bundle (P A : Type) : Type := mkBundle {
  pcollection : P;
  _elements : list A
}.
Arguments mkBundle {P A} _ _.
Arguments pcollection {P A} _.
Arguments _elements {P A} _.

Definition create_bundle {P A} (output_pcollection : P) : Bundle P A :=
  mkBundle output_pcollection [].

Definition output {P A} (bundle : Bundle P A) (element : A) : Bundle P A :=
  mkBundle (pcollection bundle) (_elements bundle ++ [element]).

(** [TransformResult(transform, bundles, unprocessed, counters, hold)] *)
Record TransformResult (T P A : Type) : Type := mkTransformResult {
  result_transform : T;
  output_bundles : list (Bundle P A);
  unprocessed_bundle : option (Bundle P A);
  counters : option (list nat);
  watermark_hold : option Timestamp
}.
Arguments mkTransformResult {T P A} _ _ _ _ _.
Arguments result_transform {T P A} _.
Arguments output_bundles {T P A} _.
Arguments unprocessed_bundle {T P A} _.
Arguments counters {T P A} _.
Arguments watermark_hold {T P A} _.

(** ** [_TransformEvaluator._split_list_into_bundles] *)

Section SplitList.
Context {P A : Type}.

(** [max_element_per_bundle and bundle_size >= max_element_per_bundle]:
    the cap is [None] or an integer; [None] and [0] are both falsy, and a
    negative cap is truthy and reached by every size.  Sizes are counts,
    as in both callers (the constant [1] and the length of a list of
    values). *)
Definition cap_reached (max_element_per_bundle : option Z)
    (bundle_size : nat) : bool :=
  match max_element_per_bundle with
  | None => false
  | Some n => negb (n =? 0)%Z && (n <=? Z.of_nat bundle_size)%Z
  end.

(** The loop of [_split_list_into_bundles].  [bundles] holds the bundles
    created before the current one; the Python list [bundles] is
    [bundles ++ [bundle]], whose last item is the bundle being filled. *)
Fixpoint split_loop (output_pcollection : P)
    (max_element_per_bundle : option Z) (element_size_fn : A → nat)
    (elts : list A) (bundles : list (Bundle P A)) (bundle : Bundle P A)
    (bundle_size : nat) : list (Bundle P A) :=
  match elts with
  | [] => bundles ++ [bundle]
  | element :: rest =>
      if cap_reached max_element_per_bundle bundle_size then
        split_loop output_pcollection max_element_per_bundle
          element_size_fn rest (bundles ++ [bundle])
          (output (create_bundle output_pcollection) element)
          (0 + element_size_fn element)
      else
        split_loop output_pcollection max_element_per_bundle
          element_size_fn rest bundles (output bundle element)
          (bundle_size + element_size_fn element)
  end.

Definition _split_list_into_bundles (output_pcollection : P)
    (elts : list A) (max_element_per_bundle : option Z)
    (element_size_fn : A → nat) : list (Bundle P A) :=
  split_loop output_pcollection max_element_per_bundle element_size_fn
    elts [] (create_bundle output_pcollection) 0.

(** The elements of all bundles, in bundle order. *)
Definition bundle_contents (bs : list (Bundle P A)) : list A :=
  concat (map _elements bs).

End SplitList.

(** ** Keyed state, step context and watermarks *)

(** Modelled from the spec: the per-step keyed state of
    [evaluation_context.py] and [transforms/trigger.py], not among the
    sources.  A state object holds, per tag, the values added so far: the
    list-state tag ['elements'] accumulates appended values in append
    order; the combining-value tag ['completed'] keeps the added booleans
    and reads them back through its combine function. *)
Record UnmergedState (X : Type) : Type := mkUnmergedState {
  list_values : list X;
  combining_values : list bool
}.
Arguments mkUnmergedState {X} _ _.
Arguments list_values {X} _.
Arguments combining_values {X} _.

Definition empty_state {X} : UnmergedState X := mkUnmergedState [] [].

(** The combine function of [_CombiningValueStateTag('completed', any)]. *)
Definition any (bs : list bool) : bool := existsb id bs.

(** [state.get_state(None, ELEMENTS_TAG)] *)
Definition get_state_ELEMENTS_TAG {X} (state : UnmergedState X) : list X :=
  list_values state.

(** [state.get_state(None, COMPLETION_TAG)] *)
Definition get_state_COMPLETION_TAG {X} (state : UnmergedState X) : bool :=
  any (combining_values state).

(** [state.add_state(None, ELEMENTS_TAG, v)] *)
Definition add_state_ELEMENTS_TAG {X} (v : X) (state : UnmergedState X)
    : UnmergedState X :=
  mkUnmergedState (list_values state ++ [v]) (combining_values state).

(** [state.add_state(None, COMPLETION_TAG, b)] *)
Definition add_state_COMPLETION_TAG {X} (b : bool) (state : UnmergedState X)
    : UnmergedState X :=
  mkUnmergedState (list_values state) (combining_values state ++ [b]).

Record Watermarks : Type := mkWatermarks {
  input_watermark : Timestamp;
  output_watermark : Timestamp
}.

(** The execution context of one step: its watermarks, which the scheduler
    advances between bundles, and the dictionary [keyed_existing_state] of
    the step context, keyed by encoded key or [None] for the step-global
    state. *)
Record ExecutionContext (EK X : Type) `{Countable EK} : Type :=
  mkExecutionContext {
    watermarks : Watermarks;
    keyed_existing_state : gmap (option EK) (UnmergedState X)
  }.
Arguments mkExecutionContext {EK X _ _} _ _.
Arguments watermarks {EK X _ _} _.
Arguments keyed_existing_state {EK X _ _} _.

Section StepContext.
Context {EK X : Type} `{Countable EK}.

(** Modelled from the spec: [step_context.get_keyed_state(key)]; a key's
    state is created lazily on first write, so reading an absent key
    sees the empty state. *)
Definition get_keyed_state (ctx : ExecutionContext EK X) (key : option EK)
    : UnmergedState X :=
  default empty_state (keyed_existing_state ctx !! key).

(** A write through the state object of [key]. *)
Definition update_keyed_state (key : option EK)
    (f : UnmergedState X → UnmergedState X) (ctx : ExecutionContext EK X)
    : ExecutionContext EK X :=
  mkExecutionContext (watermarks ctx)
    (<[key := f (get_keyed_state ctx key)]> (keyed_existing_state ctx)).

(** The scheduler's view: the watermarks seen by the next bundle. *)
Definition set_watermarks (w : Watermarks) (ctx : ExecutionContext EK X)
    : ExecutionContext EK X :=
  mkExecutionContext w (keyed_existing_state ctx).

Definition initial_context : ExecutionContext EK X :=
  mkExecutionContext (mkWatermarks WATERMARK_NEG_INF WATERMARK_NEG_INF) ∅.

End StepContext.

(** Modelled from the spec: the watermark tracker of
    [watermark_manager.py], not among the sources.  Watermarks are ordered
    [−∞ < t < +∞]; after a bundle the step's output watermark is the
    minimum of its input watermark and the requested hold, and it never
    decreases. *)
Definition ts_le (a b : Timestamp) : bool :=
  match a, b with
  | WATERMARK_NEG_INF, _ => true
  | _, WATERMARK_POS_INF => true
  | micros x, micros y => bool_decide (x ≤ y)%Z
  | _, _ => false
  end.

Definition ts_min (a b : Timestamp) : Timestamp := if ts_le a b then a else b.
Definition ts_max (a b : Timestamp) : Timestamp := if ts_le a b then b else a.

Definition advance_output (hold : option Timestamp) (w : Watermarks)
    : Watermarks :=
  mkWatermarks (input_watermark w)
    (ts_max (output_watermark w)
       (ts_min (input_watermark w) (default WATERMARK_POS_INF hold))).

(** ** Transforms and their applications *)

(** The classes a transform's method resolution order can mention. *)
Inductive PyClass : Type :=
  | object
  | PTransform
  | io_Read
  | core_Flatten
  | core_ParDo
  | core__GroupByKeyOnly
  | _NativeWrite
  | ProcessKeyedElements
  | UserClass (name : string).

#[global] Instance PyClass_eq_dec : EqDecision PyClass.
Proof. solve_decision. Defined.

Definition PCollection : Type := string.

(** A bounded source hands out a range tracker for a range of positions
    ([None] standing for the source's default bound) and reads the values
    of a tracked range; a native source only offers a reader. *)
Record RangeTracker : Type := mkRangeTracker {
  start_position : option Z;
  stop_position : option Z
}.

Inductive Source (V : Type) : Type :=
  | BoundedSource
      (get_range_tracker : option Z → option Z → RangeTracker)
      (read : RangeTracker → list V)
  | NativeSource (reader : list V).
Arguments BoundedSource {V} _ _.
Arguments NativeSource {V} _.

Inductive NativeSink : Type := mkNativeSink (name : string).

(** A transform instance: its class with the rest of the class's method
    resolution order, and the attributes the evaluators read. *)
Record Transform (V : Type) : Type := mkTransform {
  transform_class : PyClass;
  transform_bases : list PyClass;
  source : option (Source V);
  sink : option NativeSink
}.
Arguments mkTransform {V} _ _ _ _.
Arguments transform_class {V} _.
Arguments transform_bases {V} _.
Arguments source {V} _.
Arguments sink {V} _.

(** [transform.__class__.mro()], most derived class first. *)
Definition mro {V} (t : Transform V) : list PyClass :=
  transform_class t :: transform_bases t.

(** [isinstance(transform, classes)] *)
Definition isinstance {V} (t : Transform V) (classes : list PyClass) : bool :=
  existsb (λ c, bool_decide (c ∈ mro t)) classes.

Inductive PValue : Type :=
  | PCollectionValue (pcoll : PCollection)
  | DoOutputsTuple (pcolls : list PCollection).

Record AppliedPTransform (V : Type) : Type := mkAppliedPTransform {
  full_label : string;
  transform : Transform V;
  side_inputs : list PCollection;
  outputs : list (option string * PValue)
}.
Arguments mkAppliedPTransform {V} _ _ _ _.
Arguments full_label {V} _.
Arguments transform {V} _.
Arguments side_inputs {V} _.
Arguments outputs {V} _.

(** [_TransformEvaluator._expand_outputs] *)
Definition _expand_outputs {V} (applied_ptransform : AppliedPTransform V)
    : gset PCollection :=
  list_to_set
    (flat_map (λ pval, match pval with
                       | DoOutputsTuple pvals => pvals
                       | PCollectionValue v => [v]
                       end)
       (map snd (outputs applied_ptransform))).

(** An element as [process_element] may receive it: any object, windowed
    or not.  An object is a tuple, another iterable with a length (a list,
    a string, a dictionary), an iterable without one (an iterator, a
    generator), each with the items its iteration yields, or an object
    that is not iterable. *)
Inductive PyValue (V : Type) : Type :=
  | Scalar (x : V)
  | Sized (items : list V)
  | Tuple (items : list V)
  | Unsized (items : list V).
Arguments Scalar {V} _.
Arguments Sized {V} _.
Arguments Tuple {V} _.
Arguments Unsized {V} _.

Inductive PyElement (V : Type) : Type :=
  | Windowed (wv : WindowedValue (PyValue V))
  | NotWindowed (x : PyValue V).
Arguments Windowed {V} _.
Arguments NotWindowed {V} _.

(** [not x] for an optional object: [None] is falsy, and an object that
    defines no truth value of its own is truthy. *)
Definition py_not {A} (x : option A) : bool :=
  match x with None => true | Some _ => false end.

(** [not xs] for a list. *)
Definition py_not_list {A} (xs : list A) : bool :=
  match xs with [] => true | _ => false end.

(** ** [_GroupByKeyOnlyEvaluator] *)

Module _GroupByKeyOnlyEvaluator.
Section Evaluator.
Context {EK V : Type} `{Countable EK}.
(** The key coder resolved in [start_bundle]. *)
Variable encode : V → EK.
Variable decode : EK → V.

Abbreviation Ctx := (ExecutionContext EK V).
Abbreviation Out := (WindowedValue (V * list V)).
Abbreviation Result := (TransformResult (AppliedPTransform V) PCollection Out).

Definition MAX_ELEMENT_PER_BUNDLE : option Z := None.

Record self : Type := mkSelf {
  _applied_ptransform : AppliedPTransform V;
  _input_committed_bundle : option (Bundle PCollection (PyElement V));
  _side_inputs : list PCollection;
  _outputs : gset PCollection;
  output_pcollection : PCollection
}.

Definition _is_final_bundle (ctx : Ctx) : bool :=
  bool_decide (input_watermark (watermarks ctx) = WATERMARK_POS_INF).

(** [start_bundle]: one declared output, taken as the output
    collection.  The step context and the step-global state, which the
    source caches in [self], are read from the execution context by the
    methods that use them.  The key coder that the last statement looks
    up from the transform's type hints is the coder [encode], [decode] of
    this section: the lookup is code of [typehints] and [coders], not
    among the sources, and is taken to succeed. *)
Definition start_bundle {S} (applied_ptransform : AppliedPTransform V)
    (input_committed_bundle : option (Bundle PCollection (PyElement V)))
    (side_inputs : list PCollection) (outputs : gset PCollection)
    : Py S self :=
  py_assert (bool_decide (size outputs = 1));;
  match elements outputs with
  | pc :: _ =>
      mret (mkSelf applied_ptransform input_committed_bundle side_inputs
              outputs pc)
  | [] => py_raise AssertionError
  end.

(** [__init__]: no side inputs; the base class expands the outputs and
    starts the bundle. *)
Definition __init__ {S} (applied_ptransform : AppliedPTransform V)
    (input_committed_bundle : option (Bundle PCollection (PyElement V)))
    (side_inputs : list PCollection) : Py S self :=
  py_assert (py_not_list side_inputs);;
  start_bundle applied_ptransform input_committed_bundle side_inputs
    (_expand_outputs applied_ptransform).

(** [isinstance(x, collections.Iterable)] *)
Definition is_iterable (x : PyValue V) : bool :=
  match x with
  | Scalar _ => false
  | Sized _ | Tuple _ | Unsized _ => true
  end.

(** [len(x)]: an object without [__len__] raises [TypeError]. *)
Definition py_len (x : PyValue V) : result nat :=
  match x with
  | Sized items | Tuple items => Ok (length items)
  | Unsized _ | Scalar _ => Raise TypeError
  end.

(** The condition of [process_element], evaluated left to right:
    [isinstance(element, WindowedValue) and isinstance(element.value,
    collections.Iterable) and len(element.value) == 2]. *)
Definition is_windowed_pair (element : PyElement V) : result bool :=
  match element with
  | Windowed wv =>
      if is_iterable (value wv) then
        match py_len (value wv) with
        | Ok n => Ok (n =? 2)
        | Raise e => Raise e
        end
      else Ok false
  | NotWindowed _ => Ok false
  end.

(** The message of the [TypeCheckError], ['... Instead received: %r.' %
    element]: the format has one conversion, and a tuple on the right of
    [%] is taken as the list of arguments, so that a tuple of any other
    length than one raises [TypeError]; every other object is the one
    argument.  A [WindowedValue] is not a tuple. *)
Definition format_received (element : PyElement V) : result unit :=
  match element with
  | NotWindowed (Tuple items) =>
      if length items =? 1 then Ok () else Raise TypeError
  | _ => Ok ()
  end.

(** The unpacking [k, v = element.value]: the two items of a windowed
    value whose payload is an iterable of length 2. *)
Definition key_value (element : PyElement V) : option (V * V) :=
  match element with
  | Windowed wv =>
      match value wv with
      | Sized items | Tuple items =>
          if length items =? 2 then
            match items with
            | [k; v] => Some (k, v)
            | _ => None
            end
          else None
      | Scalar _ | Unsized _ => None
      end
  | NotWindowed _ => None
  end.

Definition process_element (this : self) (element : PyElement V)
    : Py Ctx unit :=
  ctx ← py_get;
  py_assert (negb (get_state_COMPLETION_TAG (get_keyed_state ctx None)));;
  shaped ← py_lift (is_windowed_pair element);
  if shaped : bool then
    match key_value element with
    | Some (k, v) =>
        let encoded_k := encode k in
        py_modify
          (update_keyed_state (Some encoded_k) (add_state_ELEMENTS_TAG v))
    | None => py_raise ValueError
    end
  else
    py_lift (format_received element);;
    py_raise TypeCheckError.

(** The loop over [keyed_existing_state] in [finish_bundle]. *)
Definition gbk_result (ctx : Ctx) : list Out :=
  omap (λ encoded_k : option EK,
          match encoded_k with
          | None => None
          | Some ek =>
              let k := decode ek in
              let state := get_keyed_state ctx (Some ek) in
              let vs := get_state_ELEMENTS_TAG state in
              Some (windowed_value (k, vs))
          end)
       (map_to_list (keyed_existing_state ctx)).*1.

Definition len_element_fn (element : Out) : nat :=
  let '(_, v) := value element in length v.

Definition finish_bundle (this : self) : Py Ctx Result :=
  ctx ← py_get;
  if _is_final_bundle ctx then
    let bundles :=
      if get_state_COMPLETION_TAG (get_keyed_state ctx None) then []
      else _split_list_into_bundles (output_pcollection this)
             (gbk_result ctx) MAX_ELEMENT_PER_BUNDLE len_element_fn in
    py_modify (update_keyed_state None (add_state_COMPLETION_TAG true));;
    let hold := WATERMARK_POS_INF in
    mret (mkTransformResult (_applied_ptransform this) bundles None None
            (Some hold))
  else
    let bundles := [] in
    let hold := WATERMARK_NEG_INF in
    mret (mkTransformResult (_applied_ptransform this) bundles None None
            (Some hold)).

(** Modelled from the spec: the evaluator lifecycle the executor drives
    for one input bundle, under the input watermark the scheduler has
    reached: construct (which starts the bundle), process every element
    in order, finish, and fold the hold into the watermarks. *)
Definition evaluate (applied_ptransform : AppliedPTransform V)
    (delivery : list (PyElement V) * Timestamp) : Py Ctx Result :=
  py_modify (λ ctx, set_watermarks
    (mkWatermarks delivery.2 (output_watermark (watermarks ctx))) ctx);;
  this ← __init__ applied_ptransform
            (Some (mkBundle (full_label applied_ptransform) delivery.1)) [];
  py_for delivery.1 (process_element this);;
  r ← finish_bundle this;
  py_modify (λ ctx, set_watermarks
    (advance_output (watermark_hold r) (watermarks ctx)) ctx);;
  mret r.

(** The step executes serially: one bundle after the other. *)
Fixpoint run (applied_ptransform : AppliedPTransform V)
    (deliveries : list (list (PyElement V) * Timestamp))
    : Py Ctx (list Result) :=
  match deliveries with
  | [] => mret []
  | d :: rest =>
      r ← evaluate applied_ptransform d;
      rs ← run applied_ptransform rest;
      mret (r :: rs)
  end.

End Evaluator.
End _GroupByKeyOnlyEvaluator.

(** ** [_NativeWriteEvaluator] *)

Module _NativeWriteEvaluator.
Section Evaluator.
Context {EK V : Type} `{Countable EK}.

(** What the evaluator mutates: the step's execution context, whose
    step-global list state buffers the elements, and the shards the
    sink's writers have produced, the last one being the open writer's. *)
Record World : Type := mkWorld {
  context : ExecutionContext EK (WindowedValue (PyValue V));
  written : list (list (PyValue V))
}.

Abbreviation Result :=
  (TransformResult (AppliedPTransform V) PCollection (WindowedValue (PyValue V))).

Record self : Type := mkSelf {
  _applied_ptransform : AppliedPTransform V;
  _input_committed_bundle : option (Bundle PCollection (PyElement V));
  _side_inputs : list PCollection;
  _outputs : gset PCollection;
  _sink : NativeSink
}.

Definition _is_final_bundle (w : World) : bool :=
  bool_decide
    (input_watermark (watermarks (context w)) = WATERMARK_POS_INF).

Definition _has_already_produced_output (w : World) : bool :=
  bool_decide
    (output_watermark (watermarks (context w)) = WATERMARK_POS_INF).

(** [__init__]: no side inputs; the base class expands the outputs and
    starts the bundle; the transform must carry a sink. *)
Definition __init__ {S} (applied_ptransform : AppliedPTransform V)
    (input_committed_bundle : option (Bundle PCollection (PyElement V)))
    (side_inputs : list PCollection) : Py S self :=
  py_assert (py_not_list side_inputs);;
  py_assert (negb (py_not (sink (transform applied_ptransform))));;
  match sink (transform applied_ptransform) with
  | Some snk =>
      mret (mkSelf applied_ptransform input_committed_bundle side_inputs
              (_expand_outputs applied_ptransform) snk)
  | None => py_raise AssertionError
  end.

Definition process_element (this : self) (element : WindowedValue (PyValue V))
    : Py World unit :=
  py_modify (λ w,
    mkWorld
      (update_keyed_state None (add_state_ELEMENTS_TAG element) (context w))
      (written w)).

(** [self._sink.writer()] entered: a new, empty shard. *)
Definition open_writer (w : World) : World :=
  mkWorld (context w) (written w ++ [[]]).

(** [writer.Write(x)] on the open writer. *)
Definition Write (x : PyValue V) (w : World) : World :=
  mkWorld (context w)
    (match reverse (written w) with
     | shard :: before => reverse before ++ [shard ++ [x]]
     | [] => [[x]]
     end).

Definition finish_bundle (this : self) : Py World Result :=
  w ← py_get;
  (if _is_final_bundle w then
     let elts := get_state_ELEMENTS_TAG (get_keyed_state (context w) None) in
     (if _has_already_produced_output w then
        py_assert (py_not_list elts)
      else
        py_modify open_writer;;
        py_for elts (λ v, py_modify (Write (value v))));;
     mret WATERMARK_POS_INF
   else
     mret WATERMARK_NEG_INF) ≫= λ hold,
  mret (mkTransformResult (_applied_ptransform this) [] None None
          (Some hold)).

Definition on_context (f : ExecutionContext EK (WindowedValue (PyValue V)) →
                           ExecutionContext EK (WindowedValue (PyValue V)))
    (w : World) : World :=
  mkWorld (f (context w)) (written w).

(** Modelled from the spec: the evaluator lifecycle the executor drives
    for one input bundle, under the input watermark the scheduler has
    reached: construct, process every element in order, finish, and fold
    the hold into the step's watermarks. *)
Definition evaluate (applied_ptransform : AppliedPTransform V)
    (delivery : list (WindowedValue (PyValue V)) * Timestamp) : Py World Result :=
  py_modify (on_context (λ ctx, set_watermarks
    (mkWatermarks delivery.2 (output_watermark (watermarks ctx))) ctx));;
  this ← __init__ applied_ptransform
            (Some (mkBundle (full_label applied_ptransform)
                     (Windowed <$> delivery.1))) [];
  py_for delivery.1 (process_element this);;
  r ← finish_bundle this;
  py_modify (on_context (λ ctx, set_watermarks
    (advance_output (watermark_hold r) (watermarks ctx)) ctx));;
  mret r.

(** The step executes serially: one bundle after the other. *)
Fixpoint run (applied_ptransform : AppliedPTransform V)
    (deliveries : list (list (WindowedValue (PyValue V)) * Timestamp))
    : Py World (list Result) :=
  match deliveries with
  | [] => mret []
  | d :: rest =>
      r ← evaluate applied_ptransform d;
      rs ← run applied_ptransform rest;
      mret (r :: rs)
  end.

Definition initial_world : World := mkWorld initial_context [].

End Evaluator.
End _NativeWriteEvaluator.

(** ** [_BoundedReadEvaluator] *)

Module _BoundedReadEvaluator.
Section Evaluator.
Context {V : Type}.

Abbreviation Result :=
  (TransformResult (AppliedPTransform V) PCollection (WindowedValue V)).

(** After some benchmarks, 1000 was optimal among {100,1000,10000}. *)
Definition MAX_ELEMENT_PER_BUNDLE : option Z := Some 1000%Z.

Record self : Type := mkSelf {
  _applied_ptransform : AppliedPTransform V;
  _input_committed_bundle : option (Bundle PCollection (PyElement V));
  _side_inputs : list PCollection;
  _outputs : gset PCollection;
  _source : Source V
}.

Definition __init__ {S} (applied_ptransform : AppliedPTransform V)
    (input_committed_bundle : option (Bundle PCollection (PyElement V)))
    (side_inputs : list PCollection) : Py S self :=
  py_assert (py_not input_committed_bundle);;
  py_assert (py_not_list side_inputs);;
  match source (transform applied_ptransform) with
  | Some src =>
      mret (mkSelf applied_ptransform input_committed_bundle side_inputs
              (_expand_outputs applied_ptransform) src)
  | None => py_raise AttributeError
  end.

Definition _read_values_to_bundles (output_pcollection : PCollection)
    (reader : list V) : list (Bundle PCollection (WindowedValue V)) :=
  let read_result := map windowed_value reader in
  _split_list_into_bundles output_pcollection read_result
    MAX_ELEMENT_PER_BUNDLE (λ _, 1).

Definition finish_bundle {S} (this : self) : Py S Result :=
  py_assert (bool_decide (size (_outputs this) = 1));;
  match elements (_outputs this) with
  | output_pcollection :: _ =>
      let bundles :=
        match _source this with
        | BoundedSource get_range_tracker read =>
            let range_tracker := get_range_tracker None None in
            let reader := read range_tracker in
            _read_values_to_bundles output_pcollection reader
        | NativeSource reader =>
            _read_values_to_bundles output_pcollection reader
        end in
      mret (mkTransformResult (_applied_ptransform this) bundles None None
              None)
  | [] => py_raise AssertionError
  end.

End Evaluator.
End _BoundedReadEvaluator.

(** ** [_FlattenEvaluator] *)

Module _FlattenEvaluator.
Section Evaluator.
Context {V : Type}.

Abbreviation Result :=
  (TransformResult (AppliedPTransform V) PCollection (PyElement V)).

Record self : Type := mkSelf {
  _applied_ptransform : AppliedPTransform V;
  _input_committed_bundle : option (Bundle PCollection (PyElement V));
  _side_inputs : list PCollection;
  _outputs : gset PCollection
}.

(** [start_bundle] leaves the fresh output bundle as the evaluator's
    mutable [bundle]. *)
Definition start_bundle (this : self)
    : Py (Bundle PCollection (PyElement V)) unit :=
  py_assert (bool_decide (size (_outputs this) = 1));;
  match elements (_outputs this) with
  | output_pcollection :: _ =>
      py_modify (λ _, create_bundle output_pcollection)
  | [] => py_raise AssertionError
  end.

Definition __init__ {S} (applied_ptransform : AppliedPTransform V)
    (input_committed_bundle : option (Bundle PCollection (PyElement V)))
    (side_inputs : list PCollection) : Py S self :=
  py_assert (py_not_list side_inputs);;
  py_assert (bool_decide (size (_expand_outputs applied_ptransform) = 1));;
  mret (mkSelf applied_ptransform input_committed_bundle side_inputs
          (_expand_outputs applied_ptransform)).

Definition process_element (this : self) (element : PyElement V)
    : Py (Bundle PCollection (PyElement V)) unit :=
  py_modify (λ bundle, output bundle element).

Definition finish_bundle (this : self)
    : Py (Bundle PCollection (PyElement V)) Result :=
  bundle ← py_get;
  let bundles := [bundle] in
  mret (mkTransformResult (_applied_ptransform this) bundles None None None).

End Evaluator.
End _FlattenEvaluator.

(** ** [_ParDoEvaluator] and [_ProcessElemenetsEvaluator]

    Their [start_bundle] builds a [DoFnRunner] around the user's function;
    that class lives in [runners/common.py], which is not among the
    sources, so only the construction of the evaluator objects is
    embedded. *)

Module _ParDoEvaluator.
Section Evaluator.
Context {V : Type}.

Record self : Type := mkSelf {
  _applied_ptransform : AppliedPTransform V;
  _input_committed_bundle : option (Bundle PCollection (PyElement V));
  _side_inputs : list PCollection;
  _outputs : gset PCollection
}.

Definition __init__ {S} (applied_ptransform : AppliedPTransform V)
    (input_committed_bundle : option (Bundle PCollection (PyElement V)))
    (side_inputs : list PCollection) : Py S self :=
  mret (mkSelf applied_ptransform input_committed_bundle side_inputs
          (_expand_outputs applied_ptransform)).

End Evaluator.
End _ParDoEvaluator.

Module _ProcessElemenetsEvaluator.
Section Evaluator.
Context {V : Type}.

Record self : Type := mkSelf {
  _par_do_evaluator : @_ParDoEvaluator.self V
}.

Definition __init__ {S} (applied_ptransform : AppliedPTransform V)
    (input_committed_bundle : option (Bundle PCollection (PyElement V)))
    (side_inputs : list PCollection) : Py S self :=
  py_assert
    (isinstance (transform applied_ptransform) [ProcessKeyedElements]);;
  par_do ← _ParDoEvaluator.__init__ applied_ptransform
              input_committed_bundle side_inputs;
  mret (mkSelf par_do).

End Evaluator.
End _ProcessElemenetsEvaluator.

(** ** [TransformEvaluatorRegistry] *)

Module TransformEvaluatorRegistry.
Section Registry.
Context {V S : Type}.

(** An evaluator object of one of the six evaluator classes. *)
Inductive Evaluator : Type :=
  | BoundedReadEvaluator (e : @_BoundedReadEvaluator.self V)
  | FlattenEvaluator (e : @_FlattenEvaluator.self V)
  | ParDoEvaluator (e : @_ParDoEvaluator.self V)
  | GroupByKeyOnlyEvaluator (e : @_GroupByKeyOnlyEvaluator.self V)
  | NativeWriteEvaluator (e : @_NativeWriteEvaluator.self V)
  | ProcessElemenetsEvaluator (e : @_ProcessElemenetsEvaluator.self V).

(** An evaluator class, called as a constructor. *)
Definition EvaluatorClass : Type :=
  AppliedPTransform V →
  option (Bundle PCollection (PyElement V)) →
  list PCollection → Py S Evaluator.

Definition construct {E} (init : AppliedPTransform V →
    option (Bundle PCollection (PyElement V)) → list PCollection → Py S E)
    (wrap : E → Evaluator) : EvaluatorClass :=
  λ applied_ptransform input_committed_bundle side_inputs,
    e ← init applied_ptransform input_committed_bundle side_inputs;
    mret (wrap e).

(** [dict.get(key)] on a dictionary written as its item list. *)
Fixpoint dict_get {B} (d : list (PyClass * B)) (key : PyClass) : option B :=
  match d with
  | [] => None
  | (k, v) :: rest => if decide (k = key) then Some v else dict_get rest key
  end.

(** [self._evaluators] *)
Definition _evaluators : list (PyClass * EvaluatorClass) :=
  [ (io_Read, construct _BoundedReadEvaluator.__init__ BoundedReadEvaluator);
    (core_Flatten, construct _FlattenEvaluator.__init__ FlattenEvaluator);
    (core_ParDo, construct _ParDoEvaluator.__init__ ParDoEvaluator);
    (core__GroupByKeyOnly,
       construct _GroupByKeyOnlyEvaluator.__init__ GroupByKeyOnlyEvaluator);
    (_NativeWrite,
       construct _NativeWriteEvaluator.__init__ NativeWriteEvaluator);
    (ProcessKeyedElements,
       construct _ProcessElemenetsEvaluator.__init__
         ProcessElemenetsEvaluator) ].

(** The loop of [for_application] over the method resolution order:
    [evaluator] is rebound at every class, and the loop breaks at the
    first class the table knows.  The order of a class starts with the
    class itself, so the binding the loop starts from is never read. *)
Fixpoint mro_walk (evaluators : list (PyClass * EvaluatorClass))
    (classes : list PyClass) (evaluator : option EvaluatorClass)
    : option EvaluatorClass :=
  match classes with
  | [] => evaluator
  | cls :: rest =>
      let evaluator := dict_get evaluators cls in
      match evaluator with
      | Some _ => evaluator
      | None => mro_walk evaluators rest evaluator
      end
  end.

Definition for_application
    (applied_ptransform : option (AppliedPTransform V))
    (input_committed_bundle : option (Bundle PCollection (PyElement V)))
    (side_inputs_ : list PCollection) : Py S Evaluator :=
  py_assert (negb (py_not applied_ptransform));;
  match applied_ptransform with
  | None => py_raise AssertionError
  | Some applied =>
      py_assert (eqb (negb (py_not_list (side_inputs applied)))
                     (negb (py_not_list side_inputs_)));;
      match mro_walk _evaluators (mro (transform applied)) None with
      | None => py_raise NotImplementedError
      | Some evaluator =>
          evaluator applied input_committed_bundle side_inputs_
      end
  end.

Definition should_execute_serially (applied_ptransform : AppliedPTransform V)
    : bool :=
  isinstance (transform applied_ptransform)
    [core__GroupByKeyOnly; _NativeWrite].

End Registry.
End TransformEvaluatorRegistry.

(** ** Splittable-DoFn invocation ([sdf_common.py]) *)

Module sdf_common.
Section Invoker.
(** [TS] is the mutable state of a restriction tracker, [E] the type of
    elements. *)
Context {TS E : Type}.

(** A restriction tracker object: whether its class derives from
    [RestrictionTracker], and its [check_done] method. *)
Record Tracker : Type := mkTracker {
  tracker_is_RestrictionTracker : bool;
  check_done : Py TS unit
}.

(** A DoFn invoker object: whether its class derives from [DoFnInvoker],
    and its [invoke_process] method, which runs the user's per-element
    logic against the tracker it is handed. *)
Record Invoker : Type := mkInvoker {
  invoker_is_DoFnInvoker : bool;
  invoke_process : E → Tracker → Py TS unit
}.

(** [RestrictionTracker.check_done] of the base class. *)
Definition RestrictionTracker_check_done : Py TS unit :=
  py_raise NotImplementedError.

(** [OutputAndTimeBoundSplittableProcessElementInvoker.invoke_process_element] *)
Definition invoke_process_element (invoker : Invoker) (element : E)
    (tracker : Tracker) : Py TS unit :=
  py_assert (invoker_is_DoFnInvoker invoker);;
  py_assert (tracker_is_RestrictionTracker tracker);;
  invoke_process invoker element tracker;;
  check_done tracker.

End Invoker.
End sdf_common.

(** ** Vocabulary of the run-level properties *)

Section RunVocabulary.
Context {V : Type} `{EqDecision V}.

(** All elements delivered to a step, in delivery order. *)
Definition all_elements {A} (deliveries : list (list A * Timestamp))
    : list A :=
  concat deliveries.*1.

(** The values appended for key [k] by the well-shaped elements of [es],
    in append order. *)
Definition appended (k : V) (es : list (PyElement V)) : list V :=
  omap (λ e, match _GroupByKeyOnlyEvaluator.key_value e with
             | Some (k', v) => if decide (k' = k) then Some v else None
             | None => None
             end) es.

(** The [(key, values)] records of all output bundles of all results. *)
Definition emitted {T P A} (rs : list (TransformResult T P (WindowedValue A)))
    : list A :=
  value <$> concat ((λ r, bundle_contents (output_bundles r)) <$> rs).

(** The input watermark has reached [+∞] at some delivery. *)
Definition reaches_final {A} (deliveries : list (list A * Timestamp)) : bool :=
  existsb (λ d, bool_decide (d.2 = WATERMARK_POS_INF)) deliveries.

(** Once a delivery has seen the input watermark at [+∞], the later
    bundles are empty: no more input can arrive. *)
Fixpoint quiet_after_final {A} (deliveries : list (list A * Timestamp))
    : bool :=
  match deliveries with
  | [] => true
  | d :: rest =>
      if bool_decide (d.2 = WATERMARK_POS_INF)
      then forallb (λ d', py_not_list d'.1) rest
      else quiet_after_final rest
  end.

(** Every delivered element is a windowed key-value pair. *)
Definition all_key_values (deliveries : list (list (PyElement V) * Timestamp))
    : bool :=
  forallb (λ d, forallb (λ e,
     bool_decide (is_Some (_GroupByKeyOnlyEvaluator.key_value e))) d.1)
    deliveries.

(** Watermarks only advance: once [+∞], always [+∞]. *)
Fixpoint monotone_final {A} (deliveries : list (list A * Timestamp)) : bool :=
  match deliveries with
  | [] => true
  | d :: rest =>
      (if bool_decide (d.2 = WATERMARK_POS_INF)
       then forallb (λ d', bool_decide (d'.2 = WATERMARK_POS_INF)) rest
       else true) && monotone_final rest
  end.

End RunVocabulary.

(** ** Invariant of the grouping step while it collects *)

Section GroupByKeyOnlyInvariant.
Context {EK V : Type} `{Countable EK}.
Variable encode : V → EK.

(** The values appended under the encoded key [ek] by the well-shaped
    elements of [es]. *)
Definition appended_enc (ek : EK) (es : list (PyElement V)) : list V :=
  omap (λ e, match _GroupByKeyOnlyEvaluator.key_value e with
             | Some (k', v) => if decide (encode k' = ek) then Some v else None
             | None => None
             end) es.

(** Before completion, after the elements [es] were processed: the
    step-global state does not exist yet, and an encoded key has a state
    exactly when something was appended for it, holding those values. *)
Definition collecting (es : list (PyElement V))
    (m : gmap (option EK) (UnmergedState V)) : Prop :=
  m !! None = None ∧
  ∀ ek, m !! Some ek = match appended_enc ek es with
                       | [] => None
                       | vs => Some (mkUnmergedState vs [])
                       end.

(** The context a delivery's evaluation starts from. *)
Definition delivered (wm : Timestamp) (ctx : ExecutionContext EK V)
    : ExecutionContext EK V :=
  set_watermarks (mkWatermarks wm (output_watermark (watermarks ctx))) ctx.

(** The context the scheduler leaves after a result. *)
Definition advanced
    (r : TransformResult (AppliedPTransform V) PCollection
           (WindowedValue (V * list V))) (ctx : ExecutionContext EK V)
    : ExecutionContext EK V :=
  set_watermarks (advance_output (watermark_hold r) (watermarks ctx)) ctx.

End GroupByKeyOnlyInvariant.

(** ** A concrete grouping step *)

Definition example_gbk : AppliedPTransform nat :=
  mkAppliedPTransform "GroupByKey"
    (mkTransform core__GroupByKeyOnly [PTransform; object] None None)
    [] [(None, PCollectionValue "grouped")].

(** The windowed pair [(k, v)]. *)
Definition kv_element (k v : nat) : PyElement nat :=
  Windowed (windowed_value (Tuple [k; v])).

Definition example_deliveries : list (list (PyElement nat) * Timestamp) :=
  [ ([kv_element 1 10; kv_element 2 20], micros 5);
    ([kv_element 1 11], WATERMARK_POS_INF);
    ([], WATERMARK_POS_INF) ].

Definition example_gbk_self : @_GroupByKeyOnlyEvaluator.self nat :=
  _GroupByKeyOnlyEvaluator.mkSelf example_gbk None []
    (_expand_outputs example_gbk) "grouped".

(** A context of the step after its output was emitted. *)
Definition example_completed_context : ExecutionContext nat nat :=
  mkExecutionContext (mkWatermarks WATERMARK_POS_INF WATERMARK_POS_INF)
    {[ None := mkUnmergedState [] [true] ]}.

Definition example_initial_context : ExecutionContext nat nat :=
  initial_context.

Definition example_gbk_results
    : list (TransformResult (AppliedPTransform nat) PCollection
              (WindowedValue (nat * list nat))) :=
  match (_GroupByKeyOnlyEvaluator.run id id example_gbk example_deliveries
           example_initial_context).1 with
  | Ok rs => rs
  | Raise _ => []
  end.

Definition example_gbk_final_context : ExecutionContext nat nat :=
  (_GroupByKeyOnlyEvaluator.run id id example_gbk example_deliveries
     example_initial_context).2.

(** ** Vocabulary of the sink's run-level properties *)

Section NativeWriteVocabulary.
Context {EK V : Type} `{Countable EK}.

(** The elements buffered in the step-global list state. *)
Definition buffer (w : @_NativeWriteEvaluator.World EK V _ _)
    : list (WindowedValue (PyValue V)) :=
  get_state_ELEMENTS_TAG
    (get_keyed_state (_NativeWriteEvaluator.context w) None).

(** The world after the elements [es] were buffered. *)
Definition buffered (es : list (WindowedValue (PyValue V)))
    (w : @_NativeWriteEvaluator.World EK V _ _)
    : @_NativeWriteEvaluator.World EK V _ _ :=
  foldl (λ w e, _NativeWriteEvaluator.on_context
                  (update_keyed_state None (add_state_ELEMENTS_TAG e)) w)
        w es.

(** The delivery that sees the input watermark at [+∞], if any, is the
    last one. *)
Fixpoint final_is_last {A} (deliveries : list (list A * Timestamp)) : bool :=
  match deliveries with
  | [] => true
  | d :: rest =>
      if bool_decide (d.2 = WATERMARK_POS_INF)
      then py_not_list rest
      else final_is_last rest
  end.

(** The world a delivery's evaluation starts from. *)
Definition nw_delivered (wm : Timestamp)
    (w : @_NativeWriteEvaluator.World EK V _ _)
    : @_NativeWriteEvaluator.World EK V _ _ :=
  _NativeWriteEvaluator.on_context (λ ctx, set_watermarks
    (mkWatermarks wm (output_watermark (watermarks ctx))) ctx) w.

(** The world the scheduler leaves after a result. *)
Definition nw_advanced {T P A} (r : TransformResult T P A)
    (w : @_NativeWriteEvaluator.World EK V _ _)
    : @_NativeWriteEvaluator.World EK V _ _ :=
  _NativeWriteEvaluator.on_context (λ ctx, set_watermarks
    (advance_output (watermark_hold r) (watermarks ctx)) ctx) w.

End NativeWriteVocabulary.

(** ** A concrete sink step *)

Definition example_write : AppliedPTransform nat :=
  mkAppliedPTransform "Write"
    (mkTransform _NativeWrite [PTransform; object] None
       (Some (mkNativeSink "out.txt")))
    [] [].

Definition example_write_deliveries
    : list (list (WindowedValue (PyValue nat)) * Timestamp) :=
  [ ([windowed_value (Scalar 1); windowed_value (Scalar 2)], micros 0);
    ([windowed_value (Scalar 3)], WATERMARK_POS_INF) ].

Definition example_write_self : @_NativeWriteEvaluator.self nat :=
  _NativeWriteEvaluator.mkSelf example_write None [] ∅
    (mkNativeSink "out.txt").

Definition example_initial_world : @_NativeWriteEvaluator.World nat nat _ _ :=
  _NativeWriteEvaluator.initial_world.

(** ** Vocabulary of the read evaluator *)

(** What a read of the whole source yields: a bounded source is read over
    the tracker of its default range, a native source through its
    reader. *)
Definition source_values {V} (src : Source V) : list V :=
  match src with
  | BoundedSource get_range_tracker read => read (get_range_tracker None None)
  | NativeSource reader => reader
  end.

(** ** Concrete transforms and a concrete restriction tracker *)

(** A user-defined subclass of the grouping transform. *)
Definition example_subclassed_gbk : AppliedPTransform nat :=
  mkAppliedPTransform "MyGroupByKey"
    (mkTransform (UserClass "MyGroupByKey")
       [core__GroupByKeyOnly; PTransform; object] None None)
    [] [(None, PCollectionValue "grouped")].

(** A transform of a class no evaluator is registered for. *)
Definition example_unregistered : AppliedPTransform nat :=
  mkAppliedPTransform "Mystery"
    (mkTransform (UserClass "Mystery") [PTransform; object] None None)
    [] [(None, PCollectionValue "out")].

Definition example_sdf : AppliedPTransform nat :=
  mkAppliedPTransform "ProcessKeyedElements"
    (mkTransform ProcessKeyedElements [PTransform; object] None None)
    [] [(None, PCollectionValue "out")].

(** A source of the numbers [0 .. 2499], read as the positions between the
    tracker's bounds. *)
Definition example_source : Source nat :=
  BoundedSource (λ start stop, mkRangeTracker start stop)
    (λ tracker,
       let start := Z.to_nat (default 0%Z (start_position tracker)) in
       let stop := Z.to_nat (default 2500%Z (stop_position tracker)) in
       seq start (stop - start)).

Definition example_read : AppliedPTransform nat :=
  mkAppliedPTransform "Read"
    (mkTransform io_Read [PTransform; object] (Some example_source) None)
    [] [(None, PCollectionValue "numbers")].

Definition example_read_self : @_BoundedReadEvaluator.self nat :=
  _BoundedReadEvaluator.mkSelf example_read None []
    (_expand_outputs example_read) example_source.

(** Modelled from the spec: a restriction tracker over the offsets
    [[start, stop)] that remembers the last claimed position;
    [check_done] fails unless the last offset was claimed. *)
Record OffsetTrackerState : Type := mkOffsetTrackerState {
  current_restriction : nat * nat;
  claimed_position : option nat
}.

Definition offset_check_done : Py OffsetTrackerState unit :=
  ts ← py_get;
  match claimed_position ts with
  | Some p =>
      if bool_decide (p + 1 = (current_restriction ts).2)
      then mret () else py_raise ValueError
  | None =>
      if bool_decide ((current_restriction ts).1 = (current_restriction ts).2)
      then mret () else py_raise ValueError
  end.

Definition example_tracker : @sdf_common.Tracker OffsetTrackerState :=
  sdf_common.mkTracker true offset_check_done.

(** A user function that claims the first offset only. *)
Definition example_invoker : @sdf_common.Invoker OffsetTrackerState nat :=
  sdf_common.mkInvoker true
    (λ _ _, py_modify (λ ts,
       mkOffsetTrackerState (current_restriction ts)
         (Some (current_restriction ts).1))).

(** ** Lifecycle of the flatten evaluator *)

(** Modelled from the spec: the evaluator lifecycle for one input bundle:
    start the bundle, process every element in order, finish. *)
Definition flatten_evaluate {V} (this : @_FlattenEvaluator.self V)
    (es : list (PyElement V))
    : Py (Bundle PCollection (PyElement V))
        (TransformResult (AppliedPTransform V) PCollection (PyElement V)) :=
  _FlattenEvaluator.start_bundle this;;
  py_for es (_FlattenEvaluator.process_element this);;
  _FlattenEvaluator.finish_bundle this.

(** ** [_TaggedReceivers] *)

Module _TaggedReceivers.
Section Receivers.
Context {A : Type}.

(** What a lookup in the dictionary hands out: the output bundle stored
    under a declared tag, the shared [NullReceiver], or an
    [_InMemoryReceiver] holding a reference to the dictionary it buffers
    into and its tag. *)
Inductive Receiver : Type :=
  | DeclaredReceiver (tag : option string)
  | NullReceiver
  | _InMemoryReceiver (_target : nat) (_tag : option string).

(** The receivers object: whether the evaluation context has a cache, the
    dictionary's own items, the lazily created null receiver, and the
    current [defaultdict(list)] of undeclared outputs, as a reference into
    the dictionaries allocated so far. *)
Record self : Type := mkSelf {
  has_cache : bool;
  items : gmap (option string) (Bundle PCollection A);
  _null_receiver : option unit;
  _undeclared_in_memory_tag_values : option nat;
  dicts : list (gmap (option string) (list A))
}.

Definition __init__ (evaluation_context_has_cache : bool) : self :=
  mkSelf evaluation_context_has_cache ∅ None None [].

(** [self[tag] = bundle] *)
Definition __setitem__ (tag : option string)
    (bundle : Bundle PCollection A) : Py self unit :=
  py_modify (λ s, mkSelf (has_cache s) (<[tag := bundle]> (items s))
                    (_null_receiver s) (_undeclared_in_memory_tag_values s)
                    (dicts s)).

(** The dictionary [self._undeclared_in_memory_tag_values] refers to. *)
Definition current_values (s : self)
    : option (gmap (option string) (list A)) :=
  _undeclared_in_memory_tag_values s ≫= λ r, dicts s !! r.

(** Truth value of [self._undeclared_in_memory_tag_values]: [None] and the
    empty dictionary are falsy. *)
Definition values_truthy (s : self) : bool :=
  match current_values s with
  | Some d => negb (size d =? 0)
  | None => false
  end.

(** In the cached branch the reference read back after the conditional
    assignment is always set; the [None] case is never taken. *)
Definition __missing__ (key : option string) : Py self Receiver :=
  s ← py_get;
  if has_cache s then
    (if negb (values_truthy s) then
       py_modify (λ s, mkSelf (has_cache s) (items s) (_null_receiver s)
                         (Some (length (dicts s))) (dicts s ++ [∅]))
     else mret ());;
    s ← py_get;
    match _undeclared_in_memory_tag_values s with
    | Some target => mret (_InMemoryReceiver target key)
    | None => py_raise AttributeError
    end
  else
    (if negb (bool_decide (is_Some (_null_receiver s))) then
       py_modify (λ s, mkSelf (has_cache s) (items s) (Some ())
                         (_undeclared_in_memory_tag_values s) (dicts s))
     else mret ());;
    mret NullReceiver.

(** [self[key]]: the stored item, or what [__missing__] returns, which is
    not stored. *)
Definition __getitem__ (key : option string) : Py self Receiver :=
  s ← py_get;
  match items s !! key with
  | Some _ => mret (DeclaredReceiver key)
  | None => __missing__ key
  end.

(** [receiver.output(element)] *)
Definition receiver_output (receiver : Receiver) (element : A)
    : Py self unit :=
  match receiver with
  | DeclaredReceiver tag =>
      py_modify (λ s, mkSelf (has_cache s)
                        (alter (λ bundle, output bundle element) tag (items s))
                        (_null_receiver s)
                        (_undeclared_in_memory_tag_values s) (dicts s))
  | NullReceiver => mret ()
  | _InMemoryReceiver target tag =>
      py_modify (λ s, mkSelf (has_cache s) (items s) (_null_receiver s)
                        (_undeclared_in_memory_tag_values s)
                        (alter (λ d, <[tag := default [] (d !! tag)
                                              ++ [element]]> d)
                               target (dicts s)))
  end.

(** The property [undeclared_in_memory_tag_values]. *)
Definition undeclared_in_memory_tag_values
    : Py self (option (gmap (option string) (list A))) :=
  s ← py_get;
  py_assert (negb (values_truthy s) || has_cache s);;
  mret (current_values s).

(** Modelled from the spec: how the ParDo evaluator's runner routes one
    produced value to its tagged receiver: look the receiver up under
    the tag and hand it the element. *)
Definition output_to (tagged : option string * A) : Py self unit :=
  receiver ← __getitem__ tagged.1;
  receiver_output receiver tagged.2.

End Receivers.
End _TaggedReceivers.

(** ** [_PipelineContextMap] ([pipeline_context.py]) *)

Module _PipelineContextMap.

(** A missing dictionary key, or whatever an object's encoder or decoder
    raises. *)
Inductive Error : Type :=
  | KeyError
  | Raised (e : PyError).

Inductive outcome (A : Type) : Type :=
  | Return (a : A)
  | Throw (e : Error).
Arguments Return {A} a.
Arguments Throw {A} e.

(** The object [self._id_to_proto] refers to.  [__init__] keeps the
    caller's [proto_map] itself when it is not empty, and [PipelineContext]
    passes the map fields of a [Components] message, whose values are
    messages.  Such a protobuf map differs from a dict in two ways that
    the methods meet: subscripting it with a missing key creates an empty
    message under that key and returns it (the behaviour [populate_map]
    relies on), and it refuses item assignment with [ValueError]. *)
Inductive Mapping (Pr : Type) : Type :=
  | PyDict
  | MessageMap (empty_message : Pr).
Arguments PyDict {Pr}.
Arguments MessageMap {Pr} _.

Section Map.
(** [O] is the type of the objects of the map's object type, [Pr] the type
    of their runner-API representations. *)
Context {O Pr : Type} `{Countable O}.

(** [_id_to_proto] holds the entries of the dict or protobuf map,
    [_id_to_proto_kind] tells which of the two it is. *)
Record self : Type := mkSelf {
  _obj_type_name : string;
  _obj_to_id : gmap O string;
  _id_to_obj : gmap string O;
  _id_to_proto : gmap string Pr;
  _id_to_proto_kind : Mapping Pr;
  _counter : nat
}.

(** A method of the map: it returns or raises, and leaves the map's state
    behind. *)
Definition M (A : Type) : Type := self → outcome A * self.

Definition m_ret {A} (a : A) : M A := λ s, (Return a, s).
Definition m_bind {A B} (m : M A) (k : A → M B) : M B :=
  λ s, match m s with
       | (Return a, s') => k a s'
       | (Throw e, s') => (Throw e, s')
       end.
Definition m_throw {A} (e : Error) : M A := λ s, (Throw e, s).
Definition m_get : M self := λ s, (Return s, s).
Definition m_modify (f : self → self) : M unit := λ s, (Return (), f s).

#[local] Instance m_mret : MRet M := λ _, m_ret.
#[local] Instance m_mbind : MBind M := λ _ _ k m, m_bind m k.

(** [obj.to_runner_api(context)] and [obj_type.from_runner_api(proto,
    context)]: code of the object types, which receives the pipeline
    context and so may call back into the map. *)
Variable to_runner_api : O → M Pr.
Variable from_runner_api : Pr → M O.

(** [proto_map if proto_map else {}]: an absent or empty [proto_map] is
    falsy and replaced by a new dict; any other is kept as it is. *)
Definition __init__ (obj_type_name : string)
    (proto_map : option (Mapping Pr * gmap string Pr)) : self :=
  match proto_map with
  | Some (kind, entries) =>
      if bool_decide (size entries = 0)
      then mkSelf obj_type_name ∅ ∅ ∅ PyDict 0
      else mkSelf obj_type_name ∅ ∅ entries kind 0
  | None => mkSelf obj_type_name ∅ ∅ ∅ PyDict 0
  end.

(** ["ref_%s_%s" % (self._obj_type.__name__, self._counter)] *)
Definition ref_name (obj_type_name : string) (counter : nat) : string :=
  "ref_" +:+ obj_type_name +:+ "_" +:+ pretty counter.

Definition _unique_ref : M string :=
  m_modify (λ s, mkSelf (_obj_type_name s) (_obj_to_id s) (_id_to_obj s)
                   (_id_to_proto s) (_id_to_proto_kind s) (_counter s + 1));;
  s ← m_get;
  mret (ref_name (_obj_type_name s) (_counter s)).

Definition set_id_to_obj (id : string) (obj : O) (s : self) : self :=
  mkSelf (_obj_type_name s) (_obj_to_id s) (<[id := obj]> (_id_to_obj s))
    (_id_to_proto s) (_id_to_proto_kind s) (_counter s).

Definition set_obj_to_id (obj : O) (id : string) (s : self) : self :=
  mkSelf (_obj_type_name s) (<[obj := id]> (_obj_to_id s)) (_id_to_obj s)
    (_id_to_proto s) (_id_to_proto_kind s) (_counter s).

Definition set_id_to_proto (id : string) (proto : Pr) (s : self) : self :=
  mkSelf (_obj_type_name s) (_obj_to_id s) (_id_to_obj s)
    (<[id := proto]> (_id_to_proto s)) (_id_to_proto_kind s) (_counter s).

(** [self._id_to_proto[id] = proto] *)
Definition id_to_proto_setitem (id : string) (proto : Pr) : M unit :=
  s ← m_get;
  match _id_to_proto_kind s with
  | PyDict => m_modify (set_id_to_proto id proto)
  | MessageMap _ => m_throw (Raised ValueError)
  end.

(** [self._id_to_proto[id]] *)
Definition id_to_proto_getitem (id : string) : M Pr :=
  s ← m_get;
  match _id_to_proto s !! id with
  | Some proto => mret proto
  | None =>
      match _id_to_proto_kind s with
      | PyDict => m_throw KeyError
      | MessageMap empty_message =>
          m_modify (set_id_to_proto id empty_message);;
          mret empty_message
      end
  end.

Definition get_id (obj : O) : M string :=
  s ← m_get;
  (if bool_decide (is_Some (_obj_to_id s !! obj)) then mret ()
   else
     id ← _unique_ref;
     m_modify (set_id_to_obj id obj);;
     m_modify (set_obj_to_id obj id);;
     proto ← to_runner_api obj;
     id_to_proto_setitem id proto);;
  s ← m_get;
  match _obj_to_id s !! obj with
  | Some id => mret id
  | None => m_throw KeyError
  end.

Definition get_by_id (id : string) : M O :=
  s ← m_get;
  (if bool_decide (is_Some (_id_to_obj s !! id)) then mret ()
   else
     proto ← id_to_proto_getitem id;
     obj ← from_runner_api proto;
     m_modify (set_id_to_obj id obj));;
  s ← m_get;
  match _id_to_obj s !! id with
  | Some obj => mret obj
  | None => m_throw KeyError
  end.

(** [populate_map]: every representation the map holds is copied into the
    given protobuf map under its id, [proto_map[id]] creating the entry
    where there is none. *)
Definition populate_map (s : self) (proto_map : gmap string Pr)
    : gmap string Pr :=
  foldr (λ item pm, <[item.1 := item.2]> pm) proto_map
    (map_to_list (_id_to_proto s)).

End Map.
End _PipelineContextMap.

(** ** Vocabulary of the bundle-splitting properties *)

(** The size of a bundle under a size function: the sum of the sizes of
    its elements. *)
Definition total_size {P A} (element_size_fn : A → nat) (b : Bundle P A)
    : nat :=
  sum_list_with element_size_fn (_elements b).

(** All elements of a bundle but the last one. *)
Definition all_but_last {A} (l : list A) : list A :=
  take (length l - 1) l.

(** ** More concrete states *)

(** The sink step with two buffered elements, at its final bundle, before
    any output was produced. *)
Definition example_final_world : @_NativeWriteEvaluator.World nat nat _ _ :=
  buffered [windowed_value (Scalar 1); windowed_value (Scalar 2)]
    (nw_delivered WATERMARK_POS_INF example_initial_world).

Definition example_flatten : AppliedPTransform nat :=
  mkAppliedPTransform "Flatten"
    (mkTransform core_Flatten [PTransform; object] None None)
    [] [(None, PCollectionValue "merged")].

Definition example_flatten_self : @_FlattenEvaluator.self nat :=
  _FlattenEvaluator.mkSelf example_flatten None []
    (_expand_outputs example_flatten).

(** A transform with a main output and a tuple of two tagged outputs, one
    of them the main collection again. *)
Definition example_multi_output : AppliedPTransform nat :=
  mkAppliedPTransform "ParDo"
    (mkTransform core_ParDo [PTransform; object] None None)
    [] [(None, PCollectionValue "main");
        (Some "tagged", DoOutputsTuple ["main"; "side"])].

(** ** Vocabulary of the tagged-receivers properties *)

Section TaggedReceiversVocabulary.
Context {A : Type}.

(** The undeclared outputs visible through the receivers object: the
    contents of its current dictionary, empty when there is none. *)
Definition visible_values (s : @_TaggedReceivers.self A)
    : gmap (option string) (list A) :=
  default ∅ (_TaggedReceivers.current_values s).

(** The elements output to [tag], in output order. *)
Definition outputs_for (tag : option string)
    (outs : list (option string * A)) : list A :=
  omap (λ o, if decide (o.1 = tag) then Some o.2 else None) outs.

(** The reference to the current dictionary, if any, is to an allocated
    dictionary. *)
Definition valid_reference (s : @_TaggedReceivers.self A) : Prop :=
  match _TaggedReceivers._undeclared_in_memory_tag_values s with
  | Some r => r < length (_TaggedReceivers.dicts s)
  | None => True
  end.

(** The receivers object after a lookup of an undeclared tag allocated a
    fresh dictionary. *)
Definition with_fresh_dict (s : @_TaggedReceivers.self A)
    : @_TaggedReceivers.self A :=
  _TaggedReceivers.mkSelf (_TaggedReceivers.has_cache s)
    (_TaggedReceivers.items s) (_TaggedReceivers._null_receiver s)
    (Some (length (_TaggedReceivers.dicts s)))
    (_TaggedReceivers.dicts s ++ [∅]).

End TaggedReceiversVocabulary.

(** ** Vocabulary of the pipeline-context-map properties *)

Section PipelineContextMapVocabulary.
Context {O Pr : Type} `{Countable O}.
Variable to_runner_api : O → @_PipelineContextMap.M O Pr _ _ Pr.
Variable from_runner_api : Pr → @_PipelineContextMap.M O Pr _ _ O.

(** The states a map can be in: freshly constructed, or after any
    sequence of [get_id] and [get_by_id] calls, whether they returned or
    raised. *)
Inductive reachable : @_PipelineContextMap.self O Pr _ _ → Prop :=
  | reachable_init name proto_map :
      reachable (_PipelineContextMap.__init__ name proto_map)
  | reachable_get_id s obj :
      reachable s →
      reachable (_PipelineContextMap.get_id to_runner_api obj s).2
  | reachable_get_by_id s id :
      reachable s →
      reachable (_PipelineContextMap.get_by_id from_runner_api id s).2.

(** An encoder or decoder that does not call back into the map: it
    returns or raises and leaves the map's state as it found it. *)
Definition quiet {B C} (f : B → @_PipelineContextMap.M O Pr _ _ C) : Prop :=
  ∀ b s, (f b s).2 = s.

(** Every registered object is found again under its id, and its id was
    made from a counter value already used. *)
Definition registered_consistently (s : @_PipelineContextMap.self O Pr _ _)
    : Prop :=
  ∀ obj id, _PipelineContextMap._obj_to_id s !! obj = Some id →
    _PipelineContextMap._id_to_obj s !! id = Some obj ∧
    ∃ k, k ≤ _PipelineContextMap._counter s ∧
      id = _PipelineContextMap.ref_name
             (_PipelineContextMap._obj_type_name s) k.

(** The id [get_id] makes for the next unregistered object. *)
Definition next_ref (s : @_PipelineContextMap.self O Pr _ _) : string :=
  _PipelineContextMap.ref_name (_PipelineContextMap._obj_type_name s)
    (_PipelineContextMap._counter s + 1).

(** The map right after [get_id] has registered a new object, before the
    object is encoded. *)
Definition just_registered (obj : O) (s : @_PipelineContextMap.self O Pr _ _)
    : @_PipelineContextMap.self O Pr _ _ :=
  _PipelineContextMap.mkSelf (_PipelineContextMap._obj_type_name s)
    (<[obj := _PipelineContextMap.ref_name
                (_PipelineContextMap._obj_type_name s)
                (_PipelineContextMap._counter s + 1)]>
       (_PipelineContextMap._obj_to_id s))
    (<[_PipelineContextMap.ref_name (_PipelineContextMap._obj_type_name s)
         (_PipelineContextMap._counter s + 1) := obj]>
       (_PipelineContextMap._id_to_obj s))
    (_PipelineContextMap._id_to_proto s)
    (_PipelineContextMap._id_to_proto_kind s)
    (_PipelineContextMap._counter s + 1).

End PipelineContextMapVocabulary.

(** A map of numbers whose representation is the number itself, with an
    encoder and a decoder that do not touch the map, and an encoder that
    always fails. *)
Definition example_encoder (obj : nat) : @_PipelineContextMap.M nat nat _ _ nat :=
  λ s, (_PipelineContextMap.Return obj, s).

Definition example_decoder (proto : nat)
    : @_PipelineContextMap.M nat nat _ _ nat :=
  λ s, (_PipelineContextMap.Return proto, s).

Definition example_failing_encoder (obj : nat)
    : @_PipelineContextMap.M nat nat _ _ nat :=
  λ s, (_PipelineContextMap.Throw (_PipelineContextMap.Raised ValueError), s).

Definition example_context_map : @_PipelineContextMap.self nat nat _ _ :=
  _PipelineContextMap.__init__ "Coder" None.

(** A map constructed from a protobuf map that holds one representation,
    as [PipelineContext.from_runner_api] constructs it. *)
Definition example_decoded_map : @_PipelineContextMap.self nat nat _ _ :=
  _PipelineContextMap.__init__ "Coder"
    (Some (_PipelineContextMap.MessageMap 0, {[ "c1"%string := 5 ]})).

(** * Properties *)

(** ** Splitting into bundles *)

Section SplitListFacts.
Context {P A : Type}.
Implicit Types (bundles : list (Bundle P A)) (bundle : Bundle P A).

Lemma bundle_contents_app (bs1 bs2 : list (Bundle P A)) :
  bundle_contents (bs1 ++ bs2) = bundle_contents bs1 ++ bundle_contents bs2.
Proof. unfold bundle_contents. by rewrite map_app, concat_app. Qed.

Lemma split_loop_contents pc cap f elts bundles bundle size :
  bundle_contents (split_loop pc cap f elts bundles bundle size)
  = bundle_contents bundles ++ _elements bundle ++ elts.
Proof.
  revert bundles bundle size.
  induction elts as [|e rest IH]; intros bundles bundle size; simpl.
  - rewrite bundle_contents_app. unfold bundle_contents at 2. simpl.
    by rewrite !app_nil_r.
  - destruct (cap_reached cap size); rewrite IH; simpl.
    + rewrite bundle_contents_app. unfold bundle_contents at 2. simpl.
      by rewrite app_nil_r, <- app_assoc.
    + by rewrite <- app_assoc.
Qed.

Lemma split_loop_length_ge pc cap f elts bundles bundle size :
  length bundles + 1 ≤ length (split_loop pc cap f elts bundles bundle size).
Proof.
  revert bundles bundle size.
  induction elts as [|e rest IH]; intros bundles bundle size; simpl.
  - by rewrite length_app.
  - destruct (cap_reached cap size).
    + etrans; [|apply IH]. rewrite length_app. simpl. lia.
    + apply IH.
Qed.

Lemma split_loop_pcollection pc cap f elts bundles bundle size :
  Forall (λ b, pcollection b = pc) bundles → pcollection bundle = pc →
  Forall (λ b, pcollection b = pc)
    (split_loop pc cap f elts bundles bundle size).
Proof.
  revert bundles bundle size.
  induction elts as [|e rest IH]; intros bundles bundle size Hbs Hb; simpl.
  - apply Forall_app. split; [done|]. by constructor.
  - destruct (cap_reached cap size); apply IH; simpl; try done.
    apply Forall_app. split; [done|]. by constructor.
Qed.

(** With the cap absent every element goes to the one initial bundle. *)
Lemma split_loop_None pc f elts bundles bundle size :
  split_loop pc None f elts bundles bundle size
  = bundles ++ [mkBundle (pcollection bundle) (_elements bundle ++ elts)].
Proof.
  revert bundle size.
  induction elts as [|e rest IH]; intros bundle size; simpl.
  - destruct bundle; simpl. by rewrite app_nil_r.
  - rewrite IH. simpl. by rewrite <- app_assoc.
Qed.

Lemma split_None (pc : P) (f : A → nat) elts :
  _split_list_into_bundles pc elts None f = [mkBundle pc elts].
Proof. unfold _split_list_into_bundles. by rewrite split_loop_None. Qed.

(** A cap that is a positive count. *)
Lemma cap_reached_of_nat (n size : nat) :
  cap_reached (Some (Z.of_nat n)) size = negb (n =? 0) && (n <=? size).
Proof.
  unfold cap_reached. f_equal.
  - f_equal. destruct (n =? 0) eqn:E.
    + apply Nat.eqb_eq in E. subst n. reflexivity.
    + apply Nat.eqb_neq in E. apply Z.eqb_neq. lia.
  - destruct (n <=? size) eqn:E.
    + apply Nat.leb_le in E. apply Z.leb_le. lia.
    + apply Nat.leb_gt in E. apply Z.leb_gt. lia.
Qed.

(** Counting with the constant size function [1]: the running size is the
    number of elements of the current bundle. *)
Lemma split_loop_unit_bound pc n elts bundles bundle size :
  1 ≤ n → size = length (_elements bundle) → size ≤ n →
  Forall (λ b, length (_elements b) ≤ n) bundles →
  Forall (λ b, length (_elements b) ≤ n)
    (split_loop pc (Some (Z.of_nat n)) (λ _, 1) elts bundles bundle size).
Proof.
  intros Hn. revert bundles bundle size.
  induction elts as [|e rest IH]; intros bundles bundle size Hsz Hb Hbs.
  - simpl. apply Forall_app. split; [done|]. constructor; [lia|done].
  - cbn [split_loop]. rewrite cap_reached_of_nat.
    destruct (n =? 0) eqn:E0; [apply Nat.eqb_eq in E0; lia|].
    cbn [negb andb].
    destruct (n <=? size) eqn:E.
    + apply IH; [done|simpl; lia|].
      apply Forall_app. split; [done|]. constructor; [lia|done].
    + apply Nat.leb_gt in E.
      apply IH; [|lia|done]. simpl. rewrite length_app. simpl. lia.
Qed.

Lemma div_add_one a n : 1 ≤ n → (a + n) / n = a / n + 1.
Proof.
  intros Hn. replace (a + n) with (a + 1 * n) by lia.
  rewrite Nat.div_add; lia.
Qed.

Lemma split_loop_unit_length pc n elts bundles bundle size :
  1 ≤ n → size = length (_elements bundle) → size ≤ n →
  length (split_loop pc (Some (Z.of_nat n)) (λ _, 1) elts bundles bundle
            size)
  = length bundles + 1 + (length elts - (n - size) + (n - 1)) / n.
Proof.
  intros Hn. revert bundles bundle size.
  induction elts as [|e rest IH]; intros bundles bundle size Hsz Hb.
  - simpl. rewrite length_app. simpl. rewrite Nat.div_small; lia.
  - cbn [split_loop]. rewrite cap_reached_of_nat.
    destruct (n =? 0) eqn:E0; [apply Nat.eqb_eq in E0; lia|].
    cbn [negb andb].
    destruct (n <=? size) eqn:E.
    + apply Nat.leb_le in E.
      rewrite IH by (simpl; lia).
      rewrite length_app. cbn [length].
      replace (n - size) with 0 by lia.
      replace (n - (0 + 1)) with (n - 1) by lia.
      destruct (decide (n ≤ length rest)) as [Hle|Hgt].
      * replace (S (length rest) - 0 + (n - 1))
          with (length rest - (n - 1) + (n - 1) + n) by lia.
        rewrite div_add_one by done. lia.
      * replace (length rest - (n - 1) + (n - 1)) with (n - 1) by lia.
        replace (S (length rest) - 0 + (n - 1))
          with (length rest + n) by lia.
        rewrite div_add_one by done.
        rewrite !Nat.div_small; lia.
    + apply Nat.leb_gt in E.
      rewrite IH; [| simpl; rewrite length_app; simpl; lia | lia].
      cbn [length]. do 2 f_equal. lia.
Qed.

End SplitListFacts.

(** ** Keyed state *)

Section StepContextFacts.
Context {EK X : Type} `{Countable EK}.
Implicit Types (ctx : ExecutionContext EK X).

Lemma get_keyed_state_update key f ctx :
  get_keyed_state (update_keyed_state key f ctx) key
  = f (get_keyed_state ctx key).
Proof.
  unfold get_keyed_state, update_keyed_state. simpl.
  by rewrite lookup_insert_eq.
Qed.

Lemma get_keyed_state_update_ne key key' f ctx :
  key ≠ key' →
  get_keyed_state (update_keyed_state key f ctx) key'
  = get_keyed_state ctx key'.
Proof.
  intros Hne. unfold get_keyed_state, update_keyed_state. simpl.
  by rewrite lookup_insert_ne.
Qed.

Lemma get_keyed_state_set_watermarks w ctx key :
  get_keyed_state (set_watermarks w ctx) key = get_keyed_state ctx key.
Proof. done. Qed.

End StepContextFacts.

Lemma ceil_from_first len n :
  1 ≤ n → 0 + 1 + (len - n + (n - 1)) / n = Nat.max 1 ((len + n - 1) / n).
Proof.
  intros Hn. destruct (decide (n ≤ len)) as [Hle|Hgt].
  - replace (len + n - 1) with (len - n + (n - 1) + n) by lia.
    rewrite div_add_one by done. lia.
  - replace (len - n + (n - 1)) with (n - 1) by lia.
    rewrite (Nat.div_small (n - 1)) by lia.
    destruct (decide (len = 0)) as [->|Hpos].
    + rewrite Nat.div_small by lia. done.
    + replace (len + n - 1) with (len - 1 + n) by lia.
      rewrite div_add_one by done.
      rewrite Nat.div_small by lia. done.
Qed.

(** C3 (as amended).  With the cap absent, [_split_list_into_bundles]
    returns exactly one bundle, holding the whole input.  With a cap
    [n ≥ 1] and the constant size function [1] it returns
    [max 1 (ceil (len / n))] bundles, each of at most [n] elements, whose
    concatenation is the input in order.  For every cap and size function
    at least one bundle is returned. *)
Theorem split_list_into_bundles_shape {P A : Type} (pc : P) (elts : list A)
    (n : nat) (Hn : 1 ≤ n) :
  (∀ f, _split_list_into_bundles pc elts None f = [mkBundle pc elts]) ∧
  (let bundles :=
     _split_list_into_bundles pc elts (Some (Z.of_nat n)) (λ _, 1) in
   length bundles = Nat.max 1 ((length elts + n - 1) / n) ∧
   Forall (λ b, length (_elements b) ≤ n) bundles ∧
   bundle_contents bundles = elts) ∧
  (∀ cap f, 1 ≤ length (_split_list_into_bundles pc elts cap f)).
Proof.
  split; [|split].
  - intros f. apply split_None.
  - cbv zeta. unfold _split_list_into_bundles. split; [|split].
    + rewrite (split_loop_unit_length pc n elts [] (create_bundle pc) 0)
        by (simpl; lia).
      cbn [length]. rewrite Nat.sub_0_r. apply ceil_from_first. done.
    + apply split_loop_unit_bound; simpl; try done; lia.
    + by rewrite split_loop_contents.
  - intros cap f. unfold _split_list_into_bundles.
    pose proof (split_loop_length_ge pc cap f elts [] (create_bundle pc) 0).
    simpl in *. lia.
Qed.

Lemma split_list_into_bundles_shape_witness :
  1 ≤ 2 ∧
  length (_split_list_into_bundles "out"%string [10; 20; 30; 40; 50]
            (Some 2%Z) (λ _, 1))
  = Nat.max 1 ((5 + 2 - 1) / 2).
Proof.
  split; [lia|].
  exact (proj1 (proj1 (proj2
    (split_list_into_bundles_shape "out"%string [10; 20; 30; 40; 50] 2
       ltac:(lia))))).
Defined.

(** C3 as stated fails on the empty input: one (empty) bundle is
    returned, not [ceil (0 / n) = 0] bundles. *)
Lemma split_list_into_bundles_empty_counterexample :
  length (_split_list_into_bundles "out"%string (@nil nat) (Some 3%Z)
            (λ _, 1))
  ≠ (length (@nil nat) + 3 - 1) / 3.
Proof. vm_compute. lia. Qed.

(** ** The evaluator monad *)

Section PyFacts.
Context {S : Type}.

Lemma py_bind_Ok {A B} (m : Py S A) (k : A → Py S B) s b s2 :
  py_bind m k s = (Ok b, s2) →
  ∃ a s1, m s = (Ok a, s1) ∧ k a s1 = (Ok b, s2).
Proof.
  unfold py_bind. destruct (m s) as [[a|e] s1]; [eauto|done].
Qed.

Lemma py_bind_step {A B} (m : Py S A) (k : A → Py S B) s a s1 :
  m s = (Ok a, s1) → py_bind m k s = k a s1.
Proof. unfold py_bind. by intros ->. Qed.

Lemma py_bind_raise {A B} (m : Py S A) (k : A → Py S B) s e s1 :
  m s = (Raise e, s1) → py_bind m k s = (Raise e, s1).
Proof. unfold py_bind. by intros ->. Qed.

Lemma py_assert_Ok (c : bool) (s s1 : S) u :
  py_assert c s = (Ok u, s1) → c = true ∧ s1 = s.
Proof. destruct c; simpl; [|done]. unfold py_ret. by intros [= _ ->]. Qed.

Lemma py_for_app {A} (xs ys : list A) (body : A → Py S unit) s :
  py_for (xs ++ ys) body s
  = py_bind (py_for xs body) (λ _, py_for ys body) s.
Proof.
  revert s. induction xs as [|x xs IH]; intros s.
  - reflexivity.
  - cbn [py_for app]. unfold py_bind.
    destruct (body x s) as [[u|e] s1]; [|reflexivity].
    rewrite IH. reflexivity.
Qed.

End PyFacts.

(** Unfolds the monadic notation down to [py_bind]. *)
Ltac py_unfold :=
  unfold mbind, mret, py_mbind, py_mret in *.

(** ** [_GroupByKeyOnlyEvaluator]: single calls *)

Section GroupByKeyOnlyCalls.
Context {EK V : Type} `{Countable EK}.
Variable encode : V → EK.
Variable decode : EK → V.

Abbreviation gbk_self := (@_GroupByKeyOnlyEvaluator.self V).
Abbreviation gbk_process_element :=
  (_GroupByKeyOnlyEvaluator.process_element encode).
Abbreviation gbk_finish_bundle :=
  (_GroupByKeyOnlyEvaluator.finish_bundle decode).
Abbreviation completed ctx :=
  (get_state_COMPLETION_TAG (get_keyed_state ctx None)).

Implicit Types (ctx : ExecutionContext EK V) (this : gbk_self).
Implicit Types (element : PyElement V) (k v : V).

Lemma any_app_true bs : any (bs ++ [true]) = true.
Proof.
  unfold any. rewrite existsb_app. simpl. by rewrite orb_true_r.
Qed.

Lemma completed_after_flag ctx :
  completed (update_keyed_state None (add_state_COMPLETION_TAG true) ctx)
  = true.
Proof.
  rewrite get_keyed_state_update. unfold get_state_COMPLETION_TAG. simpl.
  apply any_app_true.
Qed.

Lemma finish_bundle_final_completed this ctx :
  _GroupByKeyOnlyEvaluator._is_final_bundle ctx = true →
  completed ctx = true →
  gbk_finish_bundle this ctx
  = (Ok (mkTransformResult (_GroupByKeyOnlyEvaluator._applied_ptransform this)
           [] None None (Some WATERMARK_POS_INF)),
     update_keyed_state None (add_state_COMPLETION_TAG true) ctx).
Proof.
  intros Hfin Hdone. unfold _GroupByKeyOnlyEvaluator.finish_bundle.
  py_unfold. unfold py_bind, py_get. rewrite Hfin, Hdone. done.
Qed.

Lemma finish_bundle_final_first this ctx :
  _GroupByKeyOnlyEvaluator._is_final_bundle ctx = true →
  completed ctx = false →
  gbk_finish_bundle this ctx
  = (Ok (mkTransformResult (_GroupByKeyOnlyEvaluator._applied_ptransform this)
           [mkBundle (_GroupByKeyOnlyEvaluator.output_pcollection this)
              (_GroupByKeyOnlyEvaluator.gbk_result decode ctx)]
           None None (Some WATERMARK_POS_INF)),
     update_keyed_state None (add_state_COMPLETION_TAG true) ctx).
Proof.
  intros Hfin Hdone. unfold _GroupByKeyOnlyEvaluator.finish_bundle.
  py_unfold. unfold py_bind, py_get. rewrite Hfin, Hdone.
  unfold _GroupByKeyOnlyEvaluator.MAX_ELEMENT_PER_BUNDLE.
  by rewrite split_None.
Qed.

Lemma finish_bundle_not_final this ctx :
  _GroupByKeyOnlyEvaluator._is_final_bundle ctx = false →
  gbk_finish_bundle this ctx
  = (Ok (mkTransformResult (_GroupByKeyOnlyEvaluator._applied_ptransform this)
           [] None None (Some WATERMARK_NEG_INF)),
     ctx).
Proof.
  intros Hfin. unfold _GroupByKeyOnlyEvaluator.finish_bundle.
  py_unfold. unfold py_bind, py_get. by rewrite Hfin.
Qed.

Lemma process_element_completed this element ctx :
  completed ctx = true →
  gbk_process_element this element ctx = (Raise AssertionError, ctx).
Proof.
  intros Hdone. unfold _GroupByKeyOnlyEvaluator.process_element.
  py_unfold. unfold py_bind, py_get. by rewrite Hdone.
Qed.

(** The unpacking yields a pair exactly for the windowed values whose
    payload is a tuple or another sized iterable of two items. *)
Lemma key_value_Some element k v :
  _GroupByKeyOnlyEvaluator.key_value element = Some (k, v) ↔
  ∃ wv, element = Windowed wv ∧
    (value wv = Tuple [k; v] ∨ value wv = Sized [k; v]).
Proof.
  unfold _GroupByKeyOnlyEvaluator.key_value. split.
  - destruct element as [wv|x]; [|done].
    destruct (value wv) as [x|items|items|items] eqn:Hv; try done;
      destruct items as [|a [|b [|c rest]]]; simpl; try done;
      intros [= -> ->]; eauto.
  - intros (wv & -> & [-> | ->]); done.
Qed.

(** The shape test passes exactly when the unpacking yields a pair;
    otherwise it fails, or raises [TypeError] at [len]. *)
Lemma key_value_shaped element k v :
  _GroupByKeyOnlyEvaluator.key_value element = Some (k, v) →
  _GroupByKeyOnlyEvaluator.is_windowed_pair element = Ok true.
Proof.
  intros Hkv. apply key_value_Some in Hkv as (wv & -> & [Hv | Hv]);
    unfold _GroupByKeyOnlyEvaluator.is_windowed_pair; by rewrite Hv.
Qed.

Lemma key_value_None_shaped element :
  _GroupByKeyOnlyEvaluator.key_value element = None →
  _GroupByKeyOnlyEvaluator.is_windowed_pair element
  = match element with
    | Windowed wv =>
        match value wv with
        | Unsized _ => Raise TypeError
        | _ => Ok false
        end
    | NotWindowed _ => Ok false
    end.
Proof.
  unfold _GroupByKeyOnlyEvaluator.key_value,
    _GroupByKeyOnlyEvaluator.is_windowed_pair.
  destruct element as [wv|x]; [|done].
  destruct (value wv) as [x|items|items|items]; try done;
    destruct items as [|a [|b [|c rest]]]; simpl; done.
Qed.

Lemma process_element_pair this element k v ctx :
  completed ctx = false →
  _GroupByKeyOnlyEvaluator.key_value element = Some (k, v) →
  gbk_process_element this element ctx
  = (Ok (), update_keyed_state (Some (encode k)) (add_state_ELEMENTS_TAG v) ctx).
Proof.
  intros Hdone Hkv. unfold _GroupByKeyOnlyEvaluator.process_element.
  py_unfold. unfold py_bind, py_get, py_lift.
  by rewrite Hdone, (key_value_shaped element k v Hkv), Hkv.
Qed.

(** An element that is not a windowed pair is refused, and the keyed
    state is left as it was. *)
Lemma process_element_ill_shaped this element ctx :
  completed ctx = false →
  _GroupByKeyOnlyEvaluator.key_value element = None →
  gbk_process_element this element ctx
  = (Raise (match _GroupByKeyOnlyEvaluator.is_windowed_pair element,
                  _GroupByKeyOnlyEvaluator.format_received element with
            | Raise e, _ => e
            | Ok _, Raise e => e
            | Ok _, Ok _ => TypeCheckError
            end), ctx).
Proof.
  intros Hdone Hkv. unfold _GroupByKeyOnlyEvaluator.process_element.
  py_unfold. unfold py_bind, py_get, py_lift. rewrite Hdone.
  rewrite (key_value_None_shaped element Hkv). simpl.
  destruct element as [wv|x].
  - by destruct (value wv).
  - by destruct (_GroupByKeyOnlyEvaluator.format_received (NotWindowed x))
      as [[]|e].
Qed.

(** C4.  A [finish_bundle] call made with the input watermark at [+∞]
    after the completion flag has been set returns normally, with a
    result that carries no output bundle. *)
Theorem finish_bundle_duplicate_final_trigger this ctx :
  input_watermark (watermarks ctx) = WATERMARK_POS_INF →
  get_state_COMPLETION_TAG (get_keyed_state ctx None) = true →
  ∃ r ctx', gbk_finish_bundle this ctx = (Ok r, ctx') ∧ output_bundles r = [].
Proof.
  intros Hwm Hdone. eexists _, _. split.
  - apply finish_bundle_final_completed; [|done].
    unfold _GroupByKeyOnlyEvaluator._is_final_bundle.
    by apply bool_decide_eq_true.
  - done.
Qed.

(** C6.  While the completion flag is unset, [process_element] on a
    windowed value whose payload is a two-item pair [(k, v)] returns
    normally, having appended [v] to the list state of the encoded key and
    touched no other key's state.  Every other element is refused with the
    keyed state left as it was, but not always with [TypeCheckError] as
    the claim has it: a windowed iterable without a length raises
    [TypeError] at [len], and an element that is itself a tuple of other
    than one item raises [TypeError] while the message of the
    [TypeCheckError] is formatted.  On all remaining elements
    [TypeCheckError] is raised. *)
Theorem process_element_shape_check this element ctx :
  get_state_COMPLETION_TAG (get_keyed_state ctx None) = false →
  (∀ wv k v, element = Windowed wv →
     value wv = Tuple [k; v] ∨ value wv = Sized [k; v] →
     ∃ ctx', gbk_process_element this element ctx = (Ok (), ctx') ∧
       get_state_ELEMENTS_TAG (get_keyed_state ctx' (Some (encode k)))
       = get_state_ELEMENTS_TAG (get_keyed_state ctx (Some (encode k)))
         ++ [v] ∧
       ∀ key, key ≠ Some (encode k) →
         get_keyed_state ctx' key = get_keyed_state ctx key) ∧
  (∀ wv items, element = Windowed wv → value wv = Unsized items →
     gbk_process_element this element ctx = (Raise TypeError, ctx)) ∧
  (∀ items, element = NotWindowed (Tuple items) → length items ≠ 1 →
     gbk_process_element this element ctx = (Raise TypeError, ctx)) ∧
  ((∀ wv k v, element = Windowed wv →
      value wv ≠ Tuple [k; v] ∧ value wv ≠ Sized [k; v]) →
   (∀ wv items, element = Windowed wv → value wv ≠ Unsized items) →
   (∀ items, element = NotWindowed (Tuple items) → length items = 1) →
     gbk_process_element this element ctx = (Raise TypeCheckError, ctx)).
Proof.
  intros Hdone. split; [|split; [|split]].
  - intros wv k v -> Hv. eexists. split; [|split].
    + apply process_element_pair; [done|].
      apply key_value_Some. eauto.
    + by rewrite get_keyed_state_update.
    + intros key Hne. by rewrite get_keyed_state_update_ne.
  - intros wv items -> Hv.
    rewrite process_element_ill_shaped;
      [|done|by unfold _GroupByKeyOnlyEvaluator.key_value; rewrite Hv].
    unfold _GroupByKeyOnlyEvaluator.is_windowed_pair. by rewrite Hv.
  - intros items -> Hlen. rewrite process_element_ill_shaped by done.
    simpl. by rewrite (proj2 (Nat.eqb_neq _ _) Hlen).
  - intros Hpair Hsized Htuple.
    assert (_GroupByKeyOnlyEvaluator.key_value element = None) as Hkv.
    { destruct (_GroupByKeyOnlyEvaluator.key_value element) as [[k v]|] eqn:E;
        [|done].
      apply key_value_Some in E as (wv & -> & Hv).
      destruct (Hpair wv k v eq_refl) as [Ht Hs]. by destruct Hv. }
    rewrite process_element_ill_shaped by done.
    rewrite (key_value_None_shaped element Hkv).
    destruct element as [wv|x].
    + destruct (value wv) as [x|items|items|items] eqn:Hv; try done.
      by destruct (Hsized wv items eq_refl).
    + destruct x as [x|items|items|items]; try done.
      simpl. by rewrite (Htuple items eq_refl).
Qed.

End GroupByKeyOnlyCalls.

(** ** [_GroupByKeyOnlyEvaluator]: whole runs *)

Section GroupByKeyOnlyRuns.
Context {EK V : Type} `{Countable EK} `{EqDecision V}.
Variable encode : V → EK.
Variable decode : EK → V.

Abbreviation gbk_self := (@_GroupByKeyOnlyEvaluator.self V).
Abbreviation gbk_process_element :=
  (_GroupByKeyOnlyEvaluator.process_element encode).
Abbreviation gbk_finish_bundle :=
  (_GroupByKeyOnlyEvaluator.finish_bundle decode).
Abbreviation gbk_evaluate :=
  (_GroupByKeyOnlyEvaluator.evaluate encode decode).
Abbreviation gbk_run := (_GroupByKeyOnlyEvaluator.run encode decode).
Abbreviation completed ctx :=
  (get_state_COMPLETION_TAG (get_keyed_state ctx None)).
Abbreviation kv := _GroupByKeyOnlyEvaluator.key_value.

Implicit Types (ctx : ExecutionContext EK V) (this : gbk_self).
Implicit Types (element e : PyElement V) (k v : V) (ek : EK).
Implicit Types (es : list (PyElement V)).

Lemma collecting_initial : collecting encode [] (∅ : gmap (option EK) _).
Proof. split; [done|]. intros ek. simpl. apply lookup_empty. Qed.

Lemma collecting_not_completed es ctx :
  collecting encode es (keyed_existing_state ctx) → completed ctx = false.
Proof. intros [Hnone _]. unfold get_keyed_state. by rewrite Hnone. Qed.

Lemma appended_enc_snoc ek es e :
  appended_enc encode ek (es ++ [e])
  = appended_enc encode ek es
    ++ match kv e with
       | Some (k', v) => if decide (encode k' = ek) then [v] else []
       | None => []
       end.
Proof.
  unfold appended_enc. rewrite omap_app. f_equal. csimpl.
  destruct (kv e) as [[k' v]|]; [|done]. by case_decide.
Qed.

Lemma collecting_step es ctx e k v :
  collecting encode es (keyed_existing_state ctx) →
  kv e = Some (k, v) →
  collecting encode (es ++ [e])
    (keyed_existing_state
       (update_keyed_state (Some (encode k)) (add_state_ELEMENTS_TAG v) ctx)).
Proof.
  intros [Hnone Hkeys] Hkv. split; simpl.
  - by rewrite lookup_insert_ne.
  - intros ek. rewrite appended_enc_snoc, Hkv.
    destruct (decide (encode k = ek)) as [<-|Hne].
    + rewrite lookup_insert_eq. unfold get_keyed_state. rewrite Hkeys.
      by destruct (appended_enc encode (encode k) es).
    + rewrite lookup_insert_ne by congruence.
      by rewrite app_nil_r.
Qed.

(** Processing a bundle's elements while collecting. *)
Lemma process_elements_collecting this es' es ctx u ctx' :
  collecting encode es (keyed_existing_state ctx) →
  py_for es' (gbk_process_element this) ctx = (Ok u, ctx') →
  collecting encode (es ++ es') (keyed_existing_state ctx') ∧
  watermarks ctx' = watermarks ctx.
Proof.
  revert es ctx. induction es' as [|e es' IH]; intros es ctx Hinv Hrun.
  - simpl in Hrun. injection Hrun as _ <-. by rewrite app_nil_r.
  - simpl in Hrun. apply py_bind_Ok in Hrun as (u1 & ctx1 & Hstep & Hrest).
    pose proof (collecting_not_completed _ _ Hinv) as Hnot.
    destruct (kv e) as [[k v]|] eqn:Hkv.
    + rewrite (process_element_pair encode this e k v ctx Hnot Hkv) in Hstep.
      injection Hstep as _ <-.
      apply IH with (es := es ++ [e]) in Hrest as [Hinv' Hwm].
      * rewrite <- app_assoc in Hinv'. done.
      * by apply collecting_step.
    + by rewrite (process_element_ill_shaped encode this e ctx Hnot Hkv)
        in Hstep.
Qed.

Lemma process_elements_succeed this es' es ctx :
  collecting encode es (keyed_existing_state ctx) →
  Forall (λ e, is_Some (kv e)) es' →
  ∃ ctx', py_for es' (gbk_process_element this) ctx = (Ok (), ctx').
Proof.
  intros Hinv Hall. revert es ctx Hinv.
  induction Hall as [|e es' [[k v] Hkv] _ IH]; intros es ctx Hinv.
  - by eexists.
  - simpl.
    pose proof (collecting_not_completed _ _ Hinv) as Hnot.
    erewrite py_bind_step
      by (by apply process_element_pair).
    apply (IH (es ++ [e])). by apply collecting_step.
Qed.

(** After completion only empty bundles get through. *)
Lemma process_elements_completed this es' ctx u ctx' :
  completed ctx = true →
  py_for es' (gbk_process_element this) ctx = (Ok u, ctx') →
  es' = [] ∧ ctx' = ctx.
Proof.
  intros Hdone Hrun. destruct es' as [|e es'].
  - simpl in Hrun. by injection Hrun as _ <-.
  - simpl in Hrun. apply py_bind_Ok in Hrun as (u1 & ctx1 & Hstep & _).
    by rewrite (process_element_completed encode this e ctx Hdone) in Hstep.
Qed.

Lemma appended_enc_encode k es :
  (∀ k, decode (encode k) = k) →
  appended_enc encode (encode k) es = appended k es.
Proof.
  intros Hrt. unfold appended_enc, appended.
  induction es as [|e es IH]; [done|]. csimpl. rewrite IH.
  destruct (kv e) as [[k' v]|]; [|done].
  destruct (decide (k' = k)) as [->|Hne].
  - by rewrite decide_True.
  - rewrite decide_False; [done|].
    intros Heq. apply Hne. by rewrite <- (Hrt k'), Heq.
Qed.

Lemma appended_enc_key ek es :
  appended_enc encode ek es ≠ [] → ∃ k, encode k = ek.
Proof.
  intros Hne. destruct (appended_enc encode ek es) as [|v l] eqn:E; [done|].
  assert (v ∈ appended_enc encode ek es) as Hin by (rewrite E; left).
  apply list_elem_of_omap in Hin as (e & _ & He).
  destruct (kv e) as [[k' v']|]; [|done].
  case_decide; [eauto|done].
Qed.

(** A key of the dictionary, while collecting, is the encoding of the key
    it decodes to, and its state holds that key's appended values. *)
Lemma collecting_lookup es ctx ek st :
  (∀ k, decode (encode k) = k) →
  collecting encode es (keyed_existing_state ctx) →
  keyed_existing_state ctx !! Some ek = Some st →
  encode (decode ek) = ek ∧
  list_values st = appended (decode ek) es ∧ list_values st ≠ [].
Proof.
  intros Hrt [_ Hkeys] Hst. rewrite Hkeys in Hst.
  destruct (appended_enc encode ek es) as [|v l] eqn:E; [done|].
  injection Hst as <-. simpl.
  destruct (appended_enc_key ek es) as [k <-]; [by rewrite E|].
  rewrite Hrt. split; [done|]. split; [|done].
  by rewrite <- E, appended_enc_encode.
Qed.

Lemma NoDup_omap_inj {A B} (f : A → option B) (l : list A) :
  NoDup l →
  (∀ x y z, x ∈ l → y ∈ l → f x = Some z → f y = Some z → x = y) →
  NoDup (omap f l).
Proof.
  induction 1 as [|x l Hx Hl IH]; intros Hinj; csimpl; [constructor|].
  assert (NoDup (omap f l)) as Hrest.
  { apply IH. intros a b z Ha Hb. apply Hinj; by right. }
  destruct (f x) as [z|] eqn:Hfx; [|done].
  constructor; [|done].
  intros Hin. apply list_elem_of_omap in Hin as (y & Hy & Hfy).
  assert (x = y) as -> by (apply (Hinj x y z); [left|by right|done|done]).
  done.
Qed.

(** The records of the final bundle, while collecting. *)
Lemma gbk_result_records es ctx :
  (∀ k, decode (encode k) = k) →
  collecting encode es (keyed_existing_state ctx) →
  NoDup (value <$> _GroupByKeyOnlyEvaluator.gbk_result decode ctx).*1 ∧
  ∀ k vs, (k, vs) ∈ value <$> _GroupByKeyOnlyEvaluator.gbk_result decode ctx
          ↔ vs = appended k es ∧ vs ≠ [].
Proof.
  intros Hrt Hinv. unfold _GroupByKeyOnlyEvaluator.gbk_result. split.
  - rewrite !list_fmap_omap. apply NoDup_omap_inj.
    + apply NoDup_fst_map_to_list.
    + intros [ek1|] [ek2|] z Hin1 Hin2; simpl; try done.
      intros [= <-] [= Heq].
      apply list_elem_of_fmap in Hin1 as ([o1 st1] & Ho1 & Hin1).
      apply list_elem_of_fmap in Hin2 as ([o2 st2] & Ho2 & Hin2).
      simpl in Ho1, Ho2. subst o1 o2.
      apply elem_of_map_to_list in Hin1, Hin2.
      destruct (collecting_lookup es ctx ek1 st1 Hrt Hinv Hin1) as [E1 _].
      destruct (collecting_lookup es ctx ek2 st2 Hrt Hinv Hin2) as [E2 _].
      f_equal. by rewrite <- E1, <- E2, Heq.
  - intros k vs. rewrite list_fmap_omap, list_elem_of_omap. split.
    + intros ([ek|] & Hin & Hrec); simpl in Hrec; [|done].
      injection Hrec as <- <-.
      apply list_elem_of_fmap in Hin as ([o st] & Ho & Hin).
      simpl in Ho. subst o.
      apply elem_of_map_to_list in Hin.
      destruct (collecting_lookup es ctx ek st Hrt Hinv Hin)
        as (_ & Hvs & Hne).
      unfold get_state_ELEMENTS_TAG, get_keyed_state. rewrite Hin. done.
    + intros [-> Hne]. exists (Some (encode k)).
      destruct Hinv as [Hnone Hkeys]. pose proof (Hkeys (encode k)) as Hk.
      rewrite (appended_enc_encode k es Hrt) in Hk.
      destruct (appended k es) as [|v l] eqn:E; [done|]. split.
      * apply list_elem_of_fmap.
        exists (Some (encode k), mkUnmergedState (v :: l) []).
        split; [done|]. by apply elem_of_map_to_list.
      * simpl. unfold get_state_ELEMENTS_TAG, get_keyed_state.
        rewrite Hk, Hrt. done.
Qed.

Lemma gbk_init_Ok {S} applied input (s s' : S) this :
  _GroupByKeyOnlyEvaluator.__init__ applied input [] s = (Ok this, s') →
  s' = s ∧ _GroupByKeyOnlyEvaluator._applied_ptransform this = applied.
Proof.
  unfold _GroupByKeyOnlyEvaluator.__init__,
    _GroupByKeyOnlyEvaluator.start_bundle.
  py_unfold. unfold py_bind, py_assert. simpl.
  destruct (bool_decide (size (_expand_outputs applied) = 1)); simpl; [|done].
  destruct (elements (_expand_outputs applied)); simpl; [done|].
  unfold py_ret. by intros [= <- <-].
Qed.

Lemma gbk_init_succeeds {S} applied input (s : S) :
  size (_expand_outputs applied) = 1 →
  ∃ this, _GroupByKeyOnlyEvaluator.__init__ applied input [] s = (Ok this, s).
Proof.
  intros Hsize.
  unfold _GroupByKeyOnlyEvaluator.__init__,
    _GroupByKeyOnlyEvaluator.start_bundle.
  py_unfold. unfold py_bind, py_assert. simpl.
  rewrite bool_decide_eq_true_2 by done. simpl.
  destruct (elements (_expand_outputs applied)) as [|pc l] eqn:E.
  - unfold size, set_size in Hsize. simpl in Hsize. by rewrite E in Hsize.
  - by eexists.
Qed.

Lemma process_element_watermarks this e ctx res ctx' :
  gbk_process_element this e ctx = (res, ctx') →
  watermarks ctx' = watermarks ctx.
Proof.
  destruct (completed ctx) eqn:Hdone.
  - rewrite (process_element_completed encode this e ctx Hdone).
    by intros [= _ <-].
  - destruct (kv e) as [[k v]|] eqn:Hkv.
    + rewrite (process_element_pair encode this e k v ctx Hdone Hkv).
      by intros [= _ <-].
    + rewrite (process_element_ill_shaped encode this e ctx Hdone Hkv).
      by intros [= _ <-].
Qed.

Lemma process_elements_watermarks this es ctx res ctx' :
  py_for es (gbk_process_element this) ctx = (res, ctx') →
  watermarks ctx' = watermarks ctx.
Proof.
  revert ctx. induction es as [|e es IH]; intros ctx; simpl.
  - by intros [= _ <-].
  - unfold py_bind.
    destruct (gbk_process_element this e ctx) as [[u|err] ctx1] eqn:E.
    + intros Hrest. rewrite (IH _ Hrest).
      by apply process_element_watermarks in E.
    + intros [= _ <-]. by apply process_element_watermarks in E.
Qed.

Lemma gbk_evaluate_Ok applied es wm ctx r ctx' :
  gbk_evaluate applied (es, wm) ctx = (Ok r, ctx') →
  ∃ this ctx2 ctx3,
    _GroupByKeyOnlyEvaluator._applied_ptransform this = applied ∧
    py_for es (gbk_process_element this) (delivered wm ctx) = (Ok (), ctx2) ∧
    gbk_finish_bundle this ctx2 = (Ok r, ctx3) ∧
    ctx' = advanced r ctx3.
Proof.
  unfold _GroupByKeyOnlyEvaluator.evaluate. py_unfold. intros Hrun.
  apply py_bind_Ok in Hrun as (u0 & ctx1 & Hset & Hrun).
  injection Hset as _ <-.
  apply py_bind_Ok in Hrun as (this & ctx1' & Hinit & Hrun).
  apply gbk_init_Ok in Hinit as [-> Happ].
  apply py_bind_Ok in Hrun as ([] & ctx2 & Hfor & Hrun).
  apply py_bind_Ok in Hrun as (r' & ctx3 & Hfin & Hrun).
  apply py_bind_Ok in Hrun as (u1 & ctx4 & Hadv & Hret).
  injection Hadv as _ <-. injection Hret as -> <-.
  by exists this, ctx2, ctx3.
Qed.

Lemma gbk_evaluate_compose applied es wm ctx this ctx2 r ctx3 :
  _GroupByKeyOnlyEvaluator.__init__ applied
    (Some (mkBundle (full_label applied) es)) [] (delivered wm ctx)
  = (Ok this, delivered wm ctx) →
  py_for es (gbk_process_element this) (delivered wm ctx) = (Ok (), ctx2) →
  gbk_finish_bundle this ctx2 = (Ok r, ctx3) →
  gbk_evaluate applied (es, wm) ctx = (Ok r, advanced r ctx3).
Proof.
  intros Hinit Hfor Hfin.
  unfold _GroupByKeyOnlyEvaluator.evaluate. py_unfold.
  unfold py_bind at 1. unfold py_modify at 1. cbn [fst snd].
  fold (delivered wm ctx).
  rewrite (py_bind_step _ _ _ _ _ Hinit).
  rewrite (py_bind_step _ _ _ _ _ Hfor).
  rewrite (py_bind_step _ _ _ _ _ Hfin).
  reflexivity.
Qed.

Lemma is_final_delivered this es wm ctx res ctx2 :
  py_for es (gbk_process_element this) (delivered wm ctx) = (res, ctx2) →
  _GroupByKeyOnlyEvaluator._is_final_bundle ctx2
  = bool_decide (wm = WATERMARK_POS_INF).
Proof.
  intros Hfor. apply process_elements_watermarks in Hfor.
  unfold _GroupByKeyOnlyEvaluator._is_final_bundle. by rewrite Hfor.
Qed.

(** What one evaluation returns, whatever the state of the step. *)
Lemma gbk_evaluate_shape applied es wm ctx r ctx' :
  gbk_evaluate applied (es, wm) ctx = (Ok r, ctx') →
  watermark_hold r
  = Some (if bool_decide (wm = WATERMARK_POS_INF)
          then WATERMARK_POS_INF else WATERMARK_NEG_INF) ∧
  (wm ≠ WATERMARK_POS_INF → output_bundles r = []).
Proof.
  intros Hrun.
  apply gbk_evaluate_Ok in Hrun as (this & ctx2 & ctx3 & _ & Hfor & Hfin & _).
  pose proof (is_final_delivered _ _ _ _ _ _ Hfor) as Hfinal.
  destruct (bool_decide (wm = WATERMARK_POS_INF)) eqn:Hwm.
  - apply bool_decide_eq_true in Hwm.
    destruct (completed ctx2) eqn:Hdone.
    + rewrite (finish_bundle_final_completed decode this ctx2 Hfinal Hdone)
        in Hfin. by injection Hfin as <- _.
    + rewrite (finish_bundle_final_first decode this ctx2 Hfinal Hdone)
        in Hfin. by injection Hfin as <- _.
  - rewrite (finish_bundle_not_final decode this ctx2 Hfinal) in Hfin.
    by injection Hfin as <- _.
Qed.

(** One evaluation while the step collects. *)
Lemma gbk_evaluate_collecting applied es es' wm ctx r ctx' :
  collecting encode es (keyed_existing_state ctx) →
  gbk_evaluate applied (es', wm) ctx = (Ok r, ctx') →
  (wm ≠ WATERMARK_POS_INF ∧ output_bundles r = [] ∧
   collecting encode (es ++ es') (keyed_existing_state ctx')) ∨
  (wm = WATERMARK_POS_INF ∧ completed ctx' = true ∧
   ∃ ctxf, collecting encode (es ++ es') (keyed_existing_state ctxf) ∧
     bundle_contents (output_bundles r)
     = _GroupByKeyOnlyEvaluator.gbk_result decode ctxf).
Proof.
  intros Hinv Hrun.
  apply gbk_evaluate_Ok in Hrun
    as (this & ctx2 & ctx3 & _ & Hfor & Hfin & ->).
  pose proof (is_final_delivered _ _ _ _ _ _ Hfor) as Hfinal.
  apply (process_elements_collecting this es' es) in Hfor as [Hinv2 _];
    [|done].
  pose proof (collecting_not_completed _ _ Hinv2) as Hnot.
  destruct (bool_decide (wm = WATERMARK_POS_INF)) eqn:Hwm.
  - apply bool_decide_eq_true in Hwm. right.
    rewrite (finish_bundle_final_first decode this ctx2 Hfinal Hnot) in Hfin.
    injection Hfin as <- <-. split; [done|]. split.
    + apply completed_after_flag.
    + exists ctx2. split; [done|].
      unfold bundle_contents. simpl. by rewrite app_nil_r.
  - apply bool_decide_eq_false in Hwm. left.
    rewrite (finish_bundle_not_final decode this ctx2 Hfinal) in Hfin.
    by injection Hfin as <- <-.
Qed.

(** One evaluation after completion. *)
Lemma gbk_evaluate_completed applied es' wm ctx r ctx' :
  completed ctx = true →
  gbk_evaluate applied (es', wm) ctx = (Ok r, ctx') →
  es' = [] ∧ output_bundles r = [] ∧ completed ctx' = true.
Proof.
  intros Hdone Hrun.
  apply gbk_evaluate_Ok in Hrun
    as (this & ctx2 & ctx3 & _ & Hfor & Hfin & ->).
  pose proof (is_final_delivered _ _ _ _ _ _ Hfor) as Hfinal.
  apply process_elements_completed in Hfor as [-> ->]; [|done].
  split; [done|].
  destruct (bool_decide (wm = WATERMARK_POS_INF)) eqn:Hwm.
  - rewrite (finish_bundle_final_completed decode this _ Hfinal Hdone)
      in Hfin.
    injection Hfin as <- <-. split; [done|]. apply completed_after_flag.
  - rewrite (finish_bundle_not_final decode this _ Hfinal) in Hfin.
    by injection Hfin as <- <-.
Qed.

Lemma gbk_run_cons applied d ds ctx rs ctx' :
  gbk_run applied (d :: ds) ctx = (Ok rs, ctx') →
  ∃ r rs' ctx1, rs = r :: rs' ∧
    gbk_evaluate applied d ctx = (Ok r, ctx1) ∧
    gbk_run applied ds ctx1 = (Ok rs', ctx').
Proof.
  simpl. py_unfold. intros Hrun.
  apply py_bind_Ok in Hrun as (r & ctx1 & Hev & Hrun).
  apply py_bind_Ok in Hrun as (rs' & ctx2 & Hrest & Hret).
  injection Hret as <- <-. by exists r, rs', ctx1.
Qed.

Lemma emitted_cons {T P A} (r : TransformResult T P (WindowedValue A)) rs :
  emitted (r :: rs)
  = (value <$> bundle_contents (output_bundles r)) ++ emitted rs.
Proof. unfold emitted. simpl. by rewrite fmap_app. Qed.

Lemma gbk_run_shape applied ds ctx rs ctx' :
  gbk_run applied ds ctx = (Ok rs, ctx') →
  Forall2 (λ d r,
      watermark_hold r
      = Some (if bool_decide (d.2 = WATERMARK_POS_INF)
              then WATERMARK_POS_INF else WATERMARK_NEG_INF) ∧
      (d.2 ≠ WATERMARK_POS_INF → output_bundles r = [])) ds rs.
Proof.
  revert ctx rs. induction ds as [|[es wm] ds IH]; intros ctx rs Hrun.
  - injection Hrun as <- _. constructor.
  - apply gbk_run_cons in Hrun as (r & rs' & ctx1 & -> & Hev & Hrest).
    constructor; [|by eapply IH].
    by apply gbk_evaluate_shape in Hev.
Qed.

Lemma gbk_run_completed applied ds ctx rs ctx' :
  completed ctx = true →
  gbk_run applied ds ctx = (Ok rs, ctx') →
  all_elements ds = [] ∧ emitted rs = [].
Proof.
  revert ctx rs. induction ds as [|[es wm] ds IH]; intros ctx rs Hdone Hrun.
  - by injection Hrun as <- _.
  - apply gbk_run_cons in Hrun as (r & rs' & ctx1 & -> & Hev & Hrest).
    apply gbk_evaluate_completed in Hev as (-> & Hout & Hdone1); [|done].
    destruct (IH _ _ Hdone1 Hrest) as [Hall Hem].
    rewrite emitted_cons, Hout, Hem. done.
Qed.

Lemma gbk_run_collecting applied ds es ctx rs ctx' :
  collecting encode es (keyed_existing_state ctx) →
  gbk_run applied ds ctx = (Ok rs, ctx') →
  (reaches_final ds = false ∧ emitted rs = [] ∧
   collecting encode (es ++ all_elements ds) (keyed_existing_state ctx')) ∨
  (reaches_final ds = true ∧
   ∃ ctxf,
     collecting encode (es ++ all_elements ds) (keyed_existing_state ctxf) ∧
     emitted rs = value <$> _GroupByKeyOnlyEvaluator.gbk_result decode ctxf).
Proof.
  revert es ctx rs.
  induction ds as [|[es' wm] ds IH]; intros es ctx rs Hinv Hrun.
  - injection Hrun as <- <-. left. by rewrite app_nil_r.
  - apply gbk_run_cons in Hrun as (r & rs' & ctx1 & -> & Hev & Hrest).
    rewrite emitted_cons. unfold all_elements. cbn [fmap list_fmap concat].
    fold (all_elements ds). rewrite app_assoc. cbn [reaches_final existsb snd].
    apply (gbk_evaluate_collecting applied es) in Hev
      as [(Hwm & Hout & Hinv1)|(Hwm & Hdone1 & ctxf & Hinvf & Hout)]; [| |done].
    + rewrite bool_decide_eq_false_2 by done. rewrite Hout. simpl.
      by apply IH with (ctx := ctx1).
    + rewrite bool_decide_eq_true_2 by done. simpl. right. split; [done|].
      destruct (gbk_run_completed _ _ _ _ _ Hdone1 Hrest) as [Hall Hem].
      exists ctxf. rewrite Hall, app_nil_r, Hout, Hem, app_nil_r. done.
Qed.

Lemma gbk_finish_total this ctx :
  ∃ r ctx', gbk_finish_bundle this ctx = (Ok r, ctx') ∧
    watermark_hold r
    = Some (if bool_decide
                 (input_watermark (watermarks ctx) = WATERMARK_POS_INF)
            then WATERMARK_POS_INF else WATERMARK_NEG_INF).
Proof.
  destruct (_GroupByKeyOnlyEvaluator._is_final_bundle ctx) eqn:Hfinal.
  - pose proof Hfinal as Hwm.
    unfold _GroupByKeyOnlyEvaluator._is_final_bundle in Hwm. rewrite Hwm.
    destruct (completed ctx) eqn:Hdone.
    + eexists _, _. split; [by apply finish_bundle_final_completed|done].
    + eexists _, _. split; [by apply finish_bundle_final_first|done].
  - pose proof Hfinal as Hwm.
    unfold _GroupByKeyOnlyEvaluator._is_final_bundle in Hwm. rewrite Hwm.
    eexists _, _. split; [by apply finish_bundle_not_final|done].
Qed.

Lemma gbk_evaluate_succeeds applied es es' wm ctx :
  size (_expand_outputs applied) = 1 →
  collecting encode es (keyed_existing_state ctx) →
  Forall (λ e, is_Some (kv e)) es' →
  ∃ r ctx', gbk_evaluate applied (es', wm) ctx = (Ok r, ctx').
Proof.
  intros Hsize Hinv Hall.
  destruct (gbk_init_succeeds applied
              (Some (mkBundle (full_label applied) es')) (delivered wm ctx)
              Hsize) as [this Hinit].
  destruct (process_elements_succeed this es' es (delivered wm ctx) Hinv Hall)
    as [ctx2 Hfor].
  destruct (gbk_finish_total this ctx2) as (r & ctx3 & Hfin & _).
  eexists _, _. by eapply gbk_evaluate_compose.
Qed.

Lemma gbk_evaluate_empty_succeeds applied wm ctx :
  size (_expand_outputs applied) = 1 →
  ∃ r ctx', gbk_evaluate applied ([], wm) ctx = (Ok r, ctx').
Proof.
  intros Hsize.
  destruct (gbk_init_succeeds applied
              (Some (mkBundle (full_label applied) [])) (delivered wm ctx)
              Hsize) as [this Hinit].
  destruct (gbk_finish_total this (delivered wm ctx)) as (r & ctx3 & Hfin & _).
  eexists _, _. by eapply gbk_evaluate_compose.
Qed.

Lemma gbk_run_step applied d ds ctx r ctx1 rs ctx' :
  gbk_evaluate applied d ctx = (Ok r, ctx1) →
  gbk_run applied ds ctx1 = (Ok rs, ctx') →
  gbk_run applied (d :: ds) ctx = (Ok (r :: rs), ctx').
Proof.
  intros Hev Hrest. simpl. py_unfold.
  rewrite (py_bind_step _ _ _ _ _ Hev).
  by rewrite (py_bind_step _ _ _ _ _ Hrest).
Qed.

Lemma gbk_run_succeeds_completed applied ds ctx :
  size (_expand_outputs applied) = 1 →
  completed ctx = true →
  forallb (λ d, py_not_list d.1) ds = true →
  ∃ rs ctx', gbk_run applied ds ctx = (Ok rs, ctx').
Proof.
  intros Hsize. revert ctx.
  induction ds as [|[es wm] ds IH]; intros ctx Hdone Hquiet.
  - by eexists _, _.
  - simpl in Hquiet. apply andb_true_iff in Hquiet as [Hes Hquiet].
    destruct es; [|done].
    destruct (gbk_evaluate_empty_succeeds applied wm ctx Hsize)
      as (r & ctx1 & Hev).
    pose proof (gbk_evaluate_completed _ _ _ _ _ _ Hdone Hev) as (_ & _ & Hd1).
    destruct (IH ctx1 Hd1 Hquiet) as (rs & ctx' & Hrest).
    eexists _, _. by eapply gbk_run_step.
Qed.

Lemma gbk_run_succeeds_collecting applied ds es ctx :
  size (_expand_outputs applied) = 1 →
  collecting encode es (keyed_existing_state ctx) →
  all_key_values ds = true →
  quiet_after_final ds = true →
  ∃ rs ctx', gbk_run applied ds ctx = (Ok rs, ctx').
Proof.
  intros Hsize. revert es ctx.
  induction ds as [|[es' wm] ds IH]; intros es ctx Hinv Hkv Hquiet.
  - by eexists _, _.
  - unfold all_key_values in Hkv. simpl in Hkv.
    apply andb_true_iff in Hkv as [Hes Hkv].
    assert (Forall (λ e, is_Some (kv e)) es') as Hall.
    { apply Forall_forall. intros e He.
      rewrite forallb_forall in Hes.
      apply list_elem_of_In in He. apply Hes in He.
      by apply bool_decide_eq_true in He. }
    destruct (gbk_evaluate_succeeds applied es es' wm ctx Hsize Hinv Hall)
      as (r & ctx1 & Hev).
    simpl in Hquiet.
    destruct (gbk_evaluate_collecting _ _ _ _ _ _ _ Hinv Hev)
      as [(Hwm & _ & Hinv1)|(Hwm & Hdone1 & _)].
    + rewrite bool_decide_eq_false_2 in Hquiet by done.
      destruct (IH _ ctx1 Hinv1 Hkv Hquiet) as (rs & ctx' & Hrest).
      eexists _, _. by eapply gbk_run_step.
    + rewrite bool_decide_eq_true_2 in Hquiet by done.
      destruct (gbk_run_succeeds_completed applied ds ctx1 Hsize Hdone1 Hquiet)
        as (rs & ctx' & Hrest).
      eexists _, _. by eapply gbk_run_step.
Qed.

Lemma monotone_final_lookup {A} (ds : list (list A * Timestamp)) i j di dj :
  monotone_final ds = true → i ≤ j →
  ds !! i = Some di → ds !! j = Some dj →
  di.2 = WATERMARK_POS_INF → dj.2 = WATERMARK_POS_INF.
Proof.
  revert i j. induction ds as [|d ds IH]; intros i j Hmono Hij Hi Hj Hfin.
  - done.
  - simpl in Hmono. apply andb_true_iff in Hmono as [Hhead Hmono].
    destruct i as [|i], j as [|j]; simpl in Hi, Hj.
    + congruence.
    + injection Hi as ->. rewrite bool_decide_eq_true_2 in Hhead by done.
      rewrite forallb_forall in Hhead.
      apply list_elem_of_lookup_2, list_elem_of_In, Hhead in Hj.
      by apply bool_decide_eq_true in Hj.
    + lia.
    + apply (IH i j); [done|lia|done|done|done].
Qed.

(** C1.  Under a key coder that round-trips, for every sequence of
    deliveries to a fresh grouping step: if the elements are windowed
    key-value pairs and nothing arrives after the input watermark was seen
    at [+∞], the run does not raise; and whenever a run does not raise, no
    [finish_bundle] made below [+∞] emits anything, and once [+∞] was
    reached the emitted records hold every key that occurred exactly once,
    with all the values appended for it in append order. *)
Theorem gbk_exactly_once applied
    (ds : list (list (PyElement V) * Timestamp)) :
  (∀ k, decode (encode k) = k) →
  (size (_expand_outputs applied) = 1 →
   all_key_values ds = true → quiet_after_final ds = true →
   ∃ rs ctx', gbk_run applied ds initial_context = (Ok rs, ctx')) ∧
  (∀ rs ctx', gbk_run applied ds initial_context = (Ok rs, ctx') →
     Forall2 (λ d r, d.2 ≠ WATERMARK_POS_INF → output_bundles r = []) ds rs ∧
     (reaches_final ds = false → emitted rs = []) ∧
     (reaches_final ds = true →
        NoDup (emitted rs).*1 ∧
        ∀ k vs, (k, vs) ∈ emitted rs
                ↔ vs = appended k (all_elements ds) ∧ vs ≠ [])).
Proof.
  intros Hrt. split.
  - intros Hsize Hkv Hquiet.
    by apply (gbk_run_succeeds_collecting applied ds []).
  - intros rs ctx' Hrun. split; [|split].
    + eapply Forall2_impl; [by eapply gbk_run_shape|].
      intros d r [_ Hout]. done.
    + intros Hnever.
      destruct (gbk_run_collecting applied ds [] initial_context _ _
                  collecting_initial Hrun)
        as [(_ & Hem & _)|(Hfin & _)]; [done|congruence].
    + intros Hfin.
      destruct (gbk_run_collecting applied ds [] initial_context _ _
                  collecting_initial Hrun)
        as [(Hnever & _)|(_ & ctxf & Hinv & ->)]; [congruence|].
      by apply (gbk_result_records _ ctxf Hrt).
Qed.

(** C10.  Every [finish_bundle] returns normally with a hold of [+∞] when
    the input watermark is at [+∞], whether or not the completion flag is
    already set, and with a hold of [−∞] otherwise; so along a run whose
    input watermark only advances, once a result holds at [+∞] every later
    result does. *)
Theorem gbk_hold_follows_input_watermark this ctx applied
    (ds : list (list (PyElement V) * Timestamp)) ctx0 rs ctx' :
  (∃ r ctx1, gbk_finish_bundle this ctx = (Ok r, ctx1) ∧
     watermark_hold r
     = Some (if bool_decide
                  (input_watermark (watermarks ctx) = WATERMARK_POS_INF)
             then WATERMARK_POS_INF else WATERMARK_NEG_INF)) ∧
  (gbk_run applied ds ctx0 = (Ok rs, ctx') →
   monotone_final ds = true →
   ∀ i j ri rj, i ≤ j → rs !! i = Some ri → rs !! j = Some rj →
     watermark_hold ri = Some WATERMARK_POS_INF →
     watermark_hold rj = Some WATERMARK_POS_INF).
Proof.
  split; [apply gbk_finish_total|].
  intros Hrun Hmono i j ri rj Hij Hi Hj Hhold.
  pose proof (gbk_run_shape _ _ _ _ _ Hrun) as Hshape.
  destruct (Forall2_lookup_r _ _ _ _ _ Hshape Hi) as (di & Hdi & Hri & _).
  destruct (Forall2_lookup_r _ _ _ _ _ Hshape Hj) as (dj & Hdj & Hrj & _).
  rewrite Hrj. rewrite Hri in Hhold.
  destruct (bool_decide (di.2 = WATERMARK_POS_INF)) eqn:Hwi; [|done].
  apply bool_decide_eq_true in Hwi.
  rewrite bool_decide_eq_true_2; [done|].
  by eapply (monotone_final_lookup ds i j).
Qed.

End GroupByKeyOnlyRuns.

Lemma gbk_exactly_once_witness :
  ∃ rs ctx',
    _GroupByKeyOnlyEvaluator.run id id example_gbk example_deliveries
      initial_context = (Ok rs, ctx') ∧
    (1, [10; 11]) ∈ emitted rs ∧ (2, [20]) ∈ emitted rs.
Proof.
  destruct (gbk_exactly_once id id example_gbk example_deliveries
              (λ k, eq_refl)) as [Hsucc Hprops].
  destruct Hsucc as (rs & ctx' & Hrun);
    [vm_compute; reflexivity|reflexivity|reflexivity|].
  exists rs, ctx'. split; [exact Hrun|].
  destruct (Hprops rs ctx' Hrun) as (_ & _ & Hfin).
  destruct (Hfin eq_refl) as [_ Hrec].
  split; apply Hrec; (split; [reflexivity|discriminate]).
Defined.

Lemma finish_bundle_duplicate_final_trigger_witness :
  ∃ r ctx',
    _GroupByKeyOnlyEvaluator.finish_bundle id example_gbk_self
      example_completed_context = (Ok r, ctx') ∧
    output_bundles r = [].
Proof.
  apply (finish_bundle_duplicate_final_trigger id example_gbk_self
           example_completed_context); reflexivity.
Defined.

Lemma process_element_shape_check_witness :
  _GroupByKeyOnlyEvaluator.process_element id example_gbk_self
    (Windowed (windowed_value (Unsized [1; 10])))
    (initial_context : ExecutionContext nat nat)
  = (Raise TypeError, initial_context) ∧
  _GroupByKeyOnlyEvaluator.process_element id example_gbk_self
    (NotWindowed (Tuple [1; 10])) (initial_context : ExecutionContext nat nat)
  = (Raise TypeError, initial_context).
Proof.
  split.
  - apply (proj1 (proj2 (process_element_shape_check id example_gbk_self
                           (Windowed (windowed_value (Unsized [1; 10])))
                           initial_context eq_refl))
             (windowed_value (Unsized [1; 10])) [1; 10] eq_refl eq_refl).
  - apply (proj1 (proj2 (proj2 (process_element_shape_check id
                                  example_gbk_self
                                  (NotWindowed (Tuple [1; 10]))
                                  initial_context eq_refl)))
             [1; 10] eq_refl).
    discriminate.
Defined.

Lemma gbk_hold_follows_input_watermark_witness :
  ∃ ri rj,
    example_gbk_results !! 1 = Some ri ∧ example_gbk_results !! 2 = Some rj ∧
    watermark_hold rj = Some WATERMARK_POS_INF.
Proof.
  eexists _, _. split; [vm_compute; reflexivity|].
  split; [vm_compute; reflexivity|].
  eapply (proj2 (gbk_hold_follows_input_watermark id id example_gbk_self
                   example_initial_context example_gbk example_deliveries
                   example_initial_context example_gbk_results
                   example_gbk_final_context)
            ltac:(vm_compute; reflexivity) eq_refl 1 2);
    [lia|vm_compute; reflexivity|vm_compute; reflexivity|reflexivity].
Defined.

(** ** [_NativeWriteEvaluator] *)

Section NativeWriteRuns.
Context {EK V : Type} `{Countable EK}.

Abbreviation World := (@_NativeWriteEvaluator.World EK V _ _).
Abbreviation nw_self := (@_NativeWriteEvaluator.self V).
Abbreviation nw_process_element :=
  (@_NativeWriteEvaluator.process_element EK V _ _).
Abbreviation nw_finish_bundle :=
  (@_NativeWriteEvaluator.finish_bundle EK V _ _).
Abbreviation nw_evaluate := (@_NativeWriteEvaluator.evaluate EK V _ _).
Abbreviation nw_run := (@_NativeWriteEvaluator.run EK V _ _).
Abbreviation nw_final := (@_NativeWriteEvaluator._is_final_bundle EK V _ _).
Abbreviation nw_produced :=
  (@_NativeWriteEvaluator._has_already_produced_output EK V _ _).
Abbreviation nw_context := (@_NativeWriteEvaluator.context EK V _ _).
Abbreviation nw_written := (@_NativeWriteEvaluator.written EK V _ _).
Abbreviation nw_result applied hold :=
  (mkTransformResult (T := AppliedPTransform V) (P := PCollection)
     (A := WindowedValue (PyValue V)) applied [] None None (Some hold)).

Implicit Types (w : World) (this : nw_self).
Implicit Types (es : list (WindowedValue (PyValue V))).

Lemma buffered_snoc es e w :
  buffered (es ++ [e]) w
  = _NativeWriteEvaluator.on_context
      (update_keyed_state None (add_state_ELEMENTS_TAG e)) (buffered es w).
Proof. unfold buffered. by rewrite foldl_app. Qed.

Lemma buffered_facts es w :
  buffer (buffered es w) = buffer w ++ es ∧
  nw_written (buffered es w) = nw_written w ∧
  watermarks (nw_context (buffered es w)) = watermarks (nw_context w).
Proof.
  induction es as [|e es IH] using rev_ind.
  - simpl. by rewrite app_nil_r.
  - rewrite buffered_snoc. destruct IH as (Hb & Hw & Hwm).
    split; [|split]; simpl; try done.
    unfold buffer in *. simpl. rewrite get_keyed_state_update. simpl.
    unfold get_state_ELEMENTS_TAG in Hb. rewrite Hb. by rewrite app_assoc.
Qed.

Lemma nw_process_elements this es w :
  py_for es (nw_process_element this) w = (Ok (), buffered es w).
Proof.
  revert w. induction es as [|e es IH]; intros w; [done|].
  simpl. unfold py_bind, _NativeWriteEvaluator.process_element at 1,
    py_modify. apply IH.
Qed.

Lemma Write_last x (ctx : ExecutionContext EK (WindowedValue (PyValue V)))
    shards shard :
  _NativeWriteEvaluator.Write x
    (_NativeWriteEvaluator.mkWorld ctx (shards ++ [shard]))
  = _NativeWriteEvaluator.mkWorld ctx (shards ++ [shard ++ [x]]).
Proof.
  unfold _NativeWriteEvaluator.Write.
  cbn [_NativeWriteEvaluator.written _NativeWriteEvaluator.context].
  rewrite reverse_app, reverse_singleton. cbn [app].
  by rewrite reverse_involutive.
Qed.

Lemma write_all es (ctx : ExecutionContext EK (WindowedValue (PyValue V)))
    shards shard :
  py_for es (λ v, py_modify (_NativeWriteEvaluator.Write (value v)))
    (_NativeWriteEvaluator.mkWorld ctx (shards ++ [shard]))
  = (Ok (), _NativeWriteEvaluator.mkWorld ctx
              (shards ++ [shard ++ (value <$> es)])).
Proof.
  revert shard. induction es as [|e es IH]; intros shard; simpl.
  - by rewrite app_nil_r.
  - unfold py_bind, py_modify at 1. rewrite Write_last, IH.
    by rewrite <- app_assoc.
Qed.

(** The four ways [finish_bundle] can go. *)
Lemma nw_finish_not_final this w :
  nw_final w = false →
  nw_finish_bundle this w
  = (Ok (nw_result (_NativeWriteEvaluator._applied_ptransform this)
           WATERMARK_NEG_INF), w).
Proof.
  intros Hfinal. unfold _NativeWriteEvaluator.finish_bundle. py_unfold.
  unfold py_bind, py_get. by rewrite Hfinal.
Qed.

Lemma nw_finish_flush this w :
  nw_final w = true → nw_produced w = false →
  nw_finish_bundle this w
  = (Ok (nw_result (_NativeWriteEvaluator._applied_ptransform this)
           WATERMARK_POS_INF),
     _NativeWriteEvaluator.mkWorld (nw_context w)
       (nw_written w ++ [value <$> buffer w])).
Proof.
  intros Hfinal Hprod. unfold _NativeWriteEvaluator.finish_bundle. py_unfold.
  unfold py_bind at 1. unfold py_get. rewrite Hfinal, Hprod.
  unfold py_bind at 1 2 3. unfold py_modify at 1.
  unfold _NativeWriteEvaluator.open_writer. rewrite write_all. done.
Qed.

Lemma nw_finish_after_flush_empty this w :
  nw_final w = true → nw_produced w = true → buffer w = [] →
  nw_finish_bundle this w
  = (Ok (nw_result (_NativeWriteEvaluator._applied_ptransform this)
           WATERMARK_POS_INF), w).
Proof.
  intros Hfinal Hprod Hbuf. unfold _NativeWriteEvaluator.finish_bundle.
  py_unfold. unfold py_bind, py_get. rewrite Hfinal, Hprod.
  fold (buffer w). by rewrite Hbuf.
Qed.

Lemma nw_finish_after_flush_nonempty this w :
  nw_final w = true → nw_produced w = true → buffer w ≠ [] →
  nw_finish_bundle this w = (Raise AssertionError, w).
Proof.
  intros Hfinal Hprod Hbuf. unfold _NativeWriteEvaluator.finish_bundle.
  py_unfold. unfold py_bind, py_get. rewrite Hfinal, Hprod.
  fold (buffer w). by destruct (buffer w).
Qed.

Lemma nw_init_Ok {S} applied input (s s' : S) this :
  _NativeWriteEvaluator.__init__ applied input [] s = (Ok this, s') →
  s' = s ∧ _NativeWriteEvaluator._applied_ptransform this = applied.
Proof.
  unfold _NativeWriteEvaluator.__init__.
  py_unfold. unfold py_bind, py_assert. simpl.
  destruct (sink (transform applied)); simpl; [|done].
  unfold py_ret. by intros [= <- <-].
Qed.

Lemma nw_init_succeeds {S} applied input (s : S) :
  is_Some (sink (transform applied)) →
  ∃ this, _NativeWriteEvaluator.__init__ applied input [] s = (Ok this, s).
Proof.
  intros [snk Hsink]. unfold _NativeWriteEvaluator.__init__.
  py_unfold. unfold py_bind, py_assert. simpl. rewrite Hsink. simpl.
  by eexists.
Qed.

Lemma nw_evaluate_Ok applied es wm w r w' :
  nw_evaluate applied (es, wm) w = (Ok r, w') →
  ∃ this w3,
    _NativeWriteEvaluator._applied_ptransform this = applied ∧
    nw_finish_bundle this (buffered es (nw_delivered wm w)) = (Ok r, w3) ∧
    w' = nw_advanced r w3.
Proof.
  unfold _NativeWriteEvaluator.evaluate. py_unfold. intros Hrun.
  apply py_bind_Ok in Hrun as (u0 & w1 & Hset & Hrun).
  injection Hset as _ <-.
  apply py_bind_Ok in Hrun as (this & w1' & Hinit & Hrun).
  apply nw_init_Ok in Hinit as [-> Happ].
  apply py_bind_Ok in Hrun as ([] & w2 & Hfor & Hrun).
  cbn [fst] in Hfor. rewrite nw_process_elements in Hfor.
  injection Hfor as <-.
  apply py_bind_Ok in Hrun as (r' & w3 & Hfin & Hrun).
  apply py_bind_Ok in Hrun as (u1 & w4 & Hadv & Hret).
  injection Hadv as _ <-. injection Hret as -> <-.
  by exists this, w3.
Qed.

Lemma nw_evaluate_compose applied es wm w this r w3 :
  _NativeWriteEvaluator.__init__ applied
    (Some (mkBundle (full_label applied) (Windowed <$> es))) []
    (nw_delivered wm w)
  = (Ok this, nw_delivered wm w) →
  nw_finish_bundle this (buffered es (nw_delivered wm w)) = (Ok r, w3) →
  nw_evaluate applied (es, wm) w = (Ok r, nw_advanced r w3).
Proof.
  intros Hinit Hfin.
  unfold _NativeWriteEvaluator.evaluate. py_unfold.
  unfold py_bind at 1. unfold py_modify at 1. cbn [fst snd].
  fold (nw_delivered wm w).
  rewrite (py_bind_step _ _ _ _ _ Hinit).
  rewrite (py_bind_step _ _ _ _ _ (nw_process_elements this es _)).
  rewrite (py_bind_step _ _ _ _ _ Hfin).
  reflexivity.
Qed.

Lemma nw_run_cons applied d ds w rs w' :
  nw_run applied (d :: ds) w = (Ok rs, w') →
  ∃ r rs' w1, rs = r :: rs' ∧
    nw_evaluate applied d w = (Ok r, w1) ∧
    nw_run applied ds w1 = (Ok rs', w').
Proof.
  simpl. py_unfold. intros Hrun.
  apply py_bind_Ok in Hrun as (r & w1 & Hev & Hrun).
  apply py_bind_Ok in Hrun as (rs' & w2 & Hrest & Hret).
  injection Hret as <- <-. by exists r, rs', w1.
Qed.

Lemma nw_run_step applied d ds w r w1 rs w' :
  nw_evaluate applied d w = (Ok r, w1) →
  nw_run applied ds w1 = (Ok rs, w') →
  nw_run applied (d :: ds) w = (Ok (r :: rs), w').
Proof.
  intros Hev Hrest. simpl. py_unfold.
  rewrite (py_bind_step _ _ _ _ _ Hev).
  by rewrite (py_bind_step _ _ _ _ _ Hrest).
Qed.

Lemma advance_hold_neg_inf o i :
  ts_max o (ts_min i WATERMARK_NEG_INF) = o.
Proof. by destruct o, i. Qed.

Lemma advance_hold_pos_inf o :
  ts_max o (ts_min WATERMARK_POS_INF WATERMARK_POS_INF) = WATERMARK_POS_INF.
Proof. by destruct o. Qed.

(** The state in which an evaluation finishes its bundle. *)
Lemma nw_before_finish es wm w :
  let w2 := buffered es (nw_delivered wm w) in
  buffer w2 = buffer w ++ es ∧ nw_written w2 = nw_written w ∧
  nw_final w2 = bool_decide (wm = WATERMARK_POS_INF) ∧
  nw_produced w2 = nw_produced w.
Proof.
  cbv zeta. destruct (buffered_facts es (nw_delivered wm w))
    as (Hb & Hw & Hwm).
  split; [done|]. split; [done|].
  unfold _NativeWriteEvaluator._is_final_bundle,
    _NativeWriteEvaluator._has_already_produced_output.
  by rewrite Hwm.
Qed.

Lemma nw_produced_after_pos_inf {T P A} (r : TransformResult T P A) w3 :
  watermark_hold r = Some WATERMARK_POS_INF →
  nw_final w3 = true →
  nw_produced (nw_advanced r w3) = true.
Proof.
  intros Hhold Hfinal. apply bool_decide_eq_true in Hfinal.
  unfold _NativeWriteEvaluator._has_already_produced_output, nw_advanced.
  simpl. rewrite Hhold, Hfinal. apply bool_decide_eq_true.
  apply advance_hold_pos_inf.
Qed.

Lemma nw_produced_after_neg_inf {T P A} (r : TransformResult T P A) w3 :
  watermark_hold r = Some WATERMARK_NEG_INF →
  nw_produced (nw_advanced r w3) = nw_produced w3.
Proof.
  intros Hhold.
  unfold _NativeWriteEvaluator._has_already_produced_output, nw_advanced.
  simpl. rewrite Hhold. simpl. by rewrite advance_hold_neg_inf.
Qed.

(** One evaluation before the flush. *)
Lemma nw_evaluate_buffering applied es wm w r w' :
  nw_produced w = false → nw_written w = [] →
  nw_evaluate applied (es, wm) w = (Ok r, w') →
  buffer w' = buffer w ++ es ∧
  ((wm ≠ WATERMARK_POS_INF ∧ nw_produced w' = false ∧ nw_written w' = []) ∨
   (wm = WATERMARK_POS_INF ∧ nw_produced w' = true ∧
    nw_written w' = [value <$> (buffer w ++ es)])).
Proof.
  intros Hprod Hwr Hrun.
  apply nw_evaluate_Ok in Hrun as (this & w3 & _ & Hfin & ->).
  destruct (nw_before_finish es wm w) as (Hb2 & Hw2 & Hf2 & Hp2).
  rewrite Hprod in Hp2. rewrite Hwr in Hw2.
  destruct (bool_decide (wm = WATERMARK_POS_INF)) eqn:Hwm.
  - apply bool_decide_eq_true in Hwm.
    rewrite (nw_finish_flush this _ Hf2 Hp2) in Hfin.
    injection Hfin as <- <-. split; [by rewrite <- Hb2|]. right.
    split; [done|]. split.
    + by apply nw_produced_after_pos_inf.
    + simpl. by rewrite Hw2, Hb2.
  - apply bool_decide_eq_false in Hwm.
    rewrite (nw_finish_not_final this _ Hf2) in Hfin.
    injection Hfin as <- <-. split; [by rewrite <- Hb2|]. left.
    split; [done|]. split.
    + by rewrite nw_produced_after_neg_inf.
    + done.
Qed.

(** One evaluation after the flush, the input watermark staying at [+∞]. *)
Lemma nw_evaluate_flushed applied es w r w' :
  nw_produced w = true →
  nw_evaluate applied (es, WATERMARK_POS_INF) w = (Ok r, w') →
  buffer w = [] ∧ es = [] ∧ nw_written w' = nw_written w ∧
  nw_produced w' = true ∧ buffer w' = [].
Proof.
  intros Hprod Hrun.
  apply nw_evaluate_Ok in Hrun as (this & w3 & _ & Hfin & ->).
  destruct (nw_before_finish es WATERMARK_POS_INF w) as (Hb2 & Hw2 & Hf2 & Hp2).
  rewrite Hprod in Hp2. rewrite bool_decide_eq_true_2 in Hf2 by done.
  destruct (decide (buffer (buffered es (nw_delivered WATERMARK_POS_INF w))
                    = [])) as [Hempty|Hne].
  - rewrite (nw_finish_after_flush_empty this _ Hf2 Hp2 Hempty) in Hfin.
    injection Hfin as <- <-. pose proof Hempty as Hempty'.
    rewrite Hb2 in Hempty. apply app_eq_nil in Hempty as [Hbw ->].
    split; [done|]. split; [done|]. split; [done|]. split.
    + by apply nw_produced_after_pos_inf.
    + exact Hempty'.
  - by rewrite (nw_finish_after_flush_nonempty this _ Hf2 Hp2 Hne) in Hfin.
Qed.

Lemma nw_run_flushed applied ds w rs w' :
  nw_produced w = true →
  forallb (λ d, bool_decide (d.2 = WATERMARK_POS_INF)) ds = true →
  nw_run applied ds w = (Ok rs, w') →
  nw_written w' = nw_written w ∧
  (ds = [] ∨ (buffer w = [] ∧ all_elements ds = [])).
Proof.
  revert w rs. induction ds as [|[es wm] ds IH]; intros w rs Hprod Hall Hrun.
  - injection Hrun as _ <-. split; [done|by left].
  - simpl in Hall. apply andb_true_iff in Hall as [Hwm Hall].
    apply bool_decide_eq_true in Hwm. simpl in Hwm. subst wm.
    apply nw_run_cons in Hrun as (r & rs' & w1 & -> & Hev & Hrest).
    apply nw_evaluate_flushed in Hev as (Hb & -> & Hw & Hp1 & Hb1); [|done].
    destruct (IH _ _ Hp1 Hall Hrest) as [Hw' Hcases].
    split; [congruence|]. right. split; [done|].
    destruct Hcases as [->|[_ Hnil]]; [done|].
    unfold all_elements in *. simpl. done.
Qed.

Lemma nw_run_buffering applied ds w rs w' :
  nw_produced w = false → nw_written w = [] →
  monotone_final ds = true →
  nw_run applied ds w = (Ok rs, w') →
  nw_written w'
  = if reaches_final ds then [value <$> (buffer w ++ all_elements ds)] else [].
Proof.
  revert w rs.
  induction ds as [|[es wm] ds IH]; intros w rs Hprod Hwr Hmono Hrun.
  - by injection Hrun as _ <-.
  - simpl in Hmono. apply andb_true_iff in Hmono as [Hhead Hmono].
    apply nw_run_cons in Hrun as (r & rs' & w1 & -> & Hev & Hrest).
    unfold all_elements. cbn [fmap list_fmap concat fst].
    fold (all_elements ds). cbn [reaches_final existsb snd].
    apply nw_evaluate_buffering in Hev
      as [Hb1 [(Hwm & Hp1 & Hw1)|(Hwm & Hp1 & Hw1)]]; [| |done|done].
    + rewrite bool_decide_eq_false_2 by done. simpl.
      rewrite (IH _ _ Hp1 Hw1 Hmono Hrest). fold (reaches_final ds).
      by rewrite Hb1, app_assoc.
    + rewrite bool_decide_eq_true_2 by done. simpl.
      rewrite bool_decide_eq_true_2 in Hhead by done.
      destruct (nw_run_flushed _ _ _ _ _ Hp1 Hhead Hrest) as [-> Hcases].
      rewrite Hw1.
      destruct Hcases as [->|[_ ->]]; unfold all_elements; simpl;
        by rewrite app_nil_r.
Qed.

Lemma nw_evaluate_succeeds applied es wm w :
  is_Some (sink (transform applied)) → nw_produced w = false →
  ∃ r w', nw_evaluate applied (es, wm) w = (Ok r, w').
Proof.
  intros Hsink Hprod.
  destruct (nw_init_succeeds applied
              (Some (mkBundle (full_label applied) (Windowed <$> es)))
              (nw_delivered wm w) Hsink) as [this Hinit].
  destruct (nw_before_finish es wm w) as (_ & _ & Hf2 & Hp2).
  rewrite Hprod in Hp2.
  destruct (bool_decide (wm = WATERMARK_POS_INF)) eqn:Hwm.
  - eexists _, _. eapply nw_evaluate_compose; [done|].
    by apply nw_finish_flush.
  - eexists _, _. eapply nw_evaluate_compose; [done|].
    by apply nw_finish_not_final.
Qed.

Lemma nw_run_succeeds applied ds w :
  is_Some (sink (transform applied)) →
  nw_produced w = false → nw_written w = [] →
  final_is_last ds = true →
  ∃ rs w', nw_run applied ds w = (Ok rs, w').
Proof.
  intros Hsink. revert w.
  induction ds as [|[es wm] ds IH]; intros w Hprod Hwr Hlast.
  - by eexists _, _.
  - destruct (nw_evaluate_succeeds applied es wm w Hsink Hprod)
      as (r & w1 & Hev).
    simpl in Hlast.
    destruct (nw_evaluate_buffering _ _ _ _ _ _ Hprod Hwr Hev)
      as [_ [(Hwm & Hp1 & Hw1)|(Hwm & _ & _)]].
    + rewrite bool_decide_eq_false_2 in Hlast by done.
      destruct (IH w1 Hp1 Hw1 Hlast) as (rs & w' & Hrest).
      eexists _, _. by eapply nw_run_step.
    + rewrite bool_decide_eq_true_2 in Hlast by done.
      destruct ds; [|done].
      eexists _, _. by eapply nw_run_step.
Qed.

(** Runs that may raise: what the writers have produced when a run
    stops, normally or not. *)
Lemma nw_init_state {S} (applied : AppliedPTransform V) input (s s' : S)
    res :
  _NativeWriteEvaluator.__init__ applied input [] s = (res, s') → s' = s.
Proof.
  unfold _NativeWriteEvaluator.__init__.
  py_unfold. unfold py_bind, py_assert. simpl.
  destruct (sink (transform applied)); simpl; by intros [= _ <-].
Qed.

Lemma nw_finish_raise this w e w3 :
  nw_finish_bundle this w = (Raise e, w3) → w3 = w.
Proof.
  destruct (nw_final w) eqn:Hfinal.
  - destruct (nw_produced w) eqn:Hprod.
    + destruct (decide (buffer w = [])) as [Hempty|Hne].
      * by rewrite (nw_finish_after_flush_empty this w Hfinal Hprod Hempty).
      * rewrite (nw_finish_after_flush_nonempty this w Hfinal Hprod Hne).
        by intros [= _ <-].
    + by rewrite (nw_finish_flush this w Hfinal Hprod).
  - by rewrite (nw_finish_not_final this w Hfinal).
Qed.

Lemma nw_evaluate_raise applied es wm w e w' :
  nw_evaluate applied (es, wm) w = (Raise e, w') →
  nw_written w' = nw_written w ∧ nw_produced w' = nw_produced w.
Proof.
  unfold _NativeWriteEvaluator.evaluate. py_unfold.
  unfold py_bind at 1. unfold py_modify at 1. cbn [fst snd].
  fold (nw_delivered wm w). unfold py_bind at 1.
  destruct (_NativeWriteEvaluator.__init__ _ _ _ _) as [[this|e0] w1] eqn:Hi.
  - apply nw_init_state in Hi as ->.
    rewrite (py_bind_step _ _ _ _ _ (nw_process_elements this es _)).
    unfold py_bind at 1.
    destruct (nw_finish_bundle this _) as [[r|e1] w3] eqn:Hfin.
    + unfold py_bind, py_modify. done.
    + intros [= _ <-]. apply nw_finish_raise in Hfin as ->.
      destruct (nw_before_finish es wm w) as (_ & Hw & _ & Hp). done.
  - apply nw_init_state in Hi as ->. by intros [= _ <-].
Qed.

Lemma nw_evaluate_Ok_flushed applied es wm w r w' :
  nw_produced w = true →
  nw_evaluate applied (es, wm) w = (Ok r, w') →
  nw_written w' = nw_written w ∧ nw_produced w' = true.
Proof.
  intros Hprod Hrun.
  apply nw_evaluate_Ok in Hrun as (this & w3 & _ & Hfin & ->).
  destruct (nw_before_finish es wm w) as (_ & Hw2 & Hf2 & Hp2).
  rewrite Hprod in Hp2.
  destruct (bool_decide (wm = WATERMARK_POS_INF)) eqn:Hwm.
  - destruct (decide (buffer (buffered es (nw_delivered wm w)) = []))
      as [Hempty|Hne].
    + rewrite (nw_finish_after_flush_empty this _ Hf2 Hp2 Hempty) in Hfin.
      injection Hfin as <- <-. split; [done|].
      by apply nw_produced_after_pos_inf.
    + by rewrite (nw_finish_after_flush_nonempty this _ Hf2 Hp2 Hne) in Hfin.
  - rewrite (nw_finish_not_final this _ Hf2) in Hfin.
    injection Hfin as <- <-. split; [done|].
    by rewrite nw_produced_after_neg_inf.
Qed.

Lemma nw_run_cons_any applied d ds w res w' :
  nw_run applied (d :: ds) w = (res, w') →
  (∃ e, nw_evaluate applied d w = (Raise e, w')) ∨
  (∃ r w1 res', nw_evaluate applied d w = (Ok r, w1) ∧
     nw_run applied ds w1 = (res', w')).
Proof.
  simpl. py_unfold. unfold py_bind at 1.
  destruct (nw_evaluate applied d w) as [[r|e] w1]; [|intros [= _ <-]; eauto].
  unfold py_bind at 1.
  destruct (nw_run applied ds w1) as [[rs|e] w2] eqn:Hrest.
  - intros [= _ <-]. right. eauto.
  - intros [= _ <-]. right. eauto.
Qed.

Lemma nw_run_any_flushed applied ds w res w' :
  nw_produced w = true →
  nw_run applied ds w = (res, w') →
  nw_written w' = nw_written w.
Proof.
  revert w res. induction ds as [|[es wm] ds IH]; intros w res Hprod Hrun.
  - by injection Hrun as _ <-.
  - apply nw_run_cons_any in Hrun
      as [[e Hev]|(r & w1 & res' & Hev & Hrest)].
    + by apply nw_evaluate_raise in Hev as [-> _].
    + apply nw_evaluate_Ok_flushed in Hev as [Hw1 Hp1]; [|done].
      rewrite <- Hw1. by eapply IH.
Qed.

Lemma nw_run_any_buffering applied ds w res w' :
  nw_produced w = false → nw_written w = [] →
  nw_run applied ds w = (res, w') →
  nw_written w' = [] ∨
  ∃ es, es `prefix_of` all_elements ds ∧
    nw_written w' = [value <$> (buffer w ++ es)].
Proof.
  revert w res.
  induction ds as [|[es1 wm] ds IH]; intros w res Hprod Hwr Hrun.
  - injection Hrun as _ <-. by left.
  - apply nw_run_cons_any in Hrun
      as [[e Hev]|(r & w1 & res' & Hev & Hrest)].
    + apply nw_evaluate_raise in Hev as [-> _]. by left.
    + unfold all_elements. cbn [fmap list_fmap concat fst].
      fold (all_elements ds).
      apply nw_evaluate_buffering in Hev
        as [Hb1 [(Hwm & Hp1 & Hw1)|(Hwm & Hp1 & Hw1)]]; [| |done|done].
      * destruct (IH _ _ Hp1 Hw1 Hrest) as [Hnone|(es & Hpre & Hes)];
          [by left|]. right. exists (es1 ++ es). split.
        -- by apply prefix_app.
        -- by rewrite Hes, Hb1, app_assoc.
      * right. exists es1. split; [by apply prefix_app_r|].
        by rewrite (nw_run_any_flushed _ _ _ _ _ Hp1 Hrest).
Qed.

(** C2.  For a fresh sink step fed any sequence of deliveries: when the
    transform carries a sink and the delivery that sees the input
    watermark at [+∞] is the last one, the run does not raise; whenever a
    run under an input watermark that only advances does not raise, the
    writers have produced nothing if [+∞] was never reached, and otherwise
    exactly one shard holding the value of every delivered element once,
    in buffered order; however a run ends, at most one shard was written,
    holding the values of a prefix of the delivered elements.  A
    [finish_bundle] below [+∞] writes nothing, and one made at [+∞] with
    the output watermark already at [+∞] either finds the buffered
    elements empty and changes nothing, or raises [AssertionError]. *)
Theorem native_write_single_flush applied
    (ds : list (list (WindowedValue (PyValue V)) * Timestamp)) this w :
  (is_Some (sink (transform applied)) → final_is_last ds = true →
   ∃ rs w', nw_run applied ds _NativeWriteEvaluator.initial_world
            = (Ok rs, w')) ∧
  (∀ rs w', nw_run applied ds _NativeWriteEvaluator.initial_world
            = (Ok rs, w') →
     monotone_final ds = true →
     nw_written w'
     = if reaches_final ds then [value <$> all_elements ds] else []) ∧
  (∀ res w', nw_run applied ds _NativeWriteEvaluator.initial_world
             = (res, w') →
     nw_written w' = [] ∨
     ∃ es, es `prefix_of` all_elements ds ∧ nw_written w' = [value <$> es]) ∧
  (nw_final w = false → ∃ r, nw_finish_bundle this w = (Ok r, w)) ∧
  (nw_final w = true → nw_produced w = true →
     (buffer w = [] ∧ ∃ r, nw_finish_bundle this w = (Ok r, w)) ∨
     (buffer w ≠ [] ∧ nw_finish_bundle this w = (Raise AssertionError, w))).
Proof.
  split; [|split; [|split; [|split]]].
  - intros Hsink Hlast. by apply nw_run_succeeds.
  - intros rs w' Hrun Hmono.
    by rewrite (nw_run_buffering applied ds
                  _NativeWriteEvaluator.initial_world rs w'
                  eq_refl eq_refl Hmono Hrun).
  - intros res w' Hrun.
    by apply (nw_run_any_buffering applied ds
                _NativeWriteEvaluator.initial_world res w' eq_refl eq_refl).
  - intros Hfinal. eexists. by apply nw_finish_not_final.
  - intros Hfinal Hprod. destruct (decide (buffer w = [])) as [Hempty|Hne].
    + left. split; [done|]. eexists. by apply nw_finish_after_flush_empty.
    + right. split; [done|]. by apply nw_finish_after_flush_nonempty.
Qed.

End NativeWriteRuns.

Lemma native_write_single_flush_witness :
  ∃ rs w',
    _NativeWriteEvaluator.run example_write example_write_deliveries
      example_initial_world = (Ok rs, w') ∧
    _NativeWriteEvaluator.written w' = [[Scalar 1; Scalar 2; Scalar 3]].
Proof.
  destruct (native_write_single_flush example_write example_write_deliveries
              example_write_self example_initial_world)
    as (Hsucc & Hwritten & _ & _ & _).
  destruct Hsucc as (rs & w' & Hrun); [by eexists|reflexivity|].
  exists rs, w'. split; [exact Hrun|].
  exact (Hwritten rs w' Hrun eq_refl).
Defined.

(** ** [TransformEvaluatorRegistry] *)

Section RegistryFacts.
Context {V S : Type}.

Abbreviation registry_evaluators :=
  (@TransformEvaluatorRegistry._evaluators V S).
Abbreviation registry_get :=
  (TransformEvaluatorRegistry.dict_get registry_evaluators).
Abbreviation for_application :=
  (@TransformEvaluatorRegistry.for_application V S).

Implicit Types (applied : AppliedPTransform V) (cls c : PyClass).
Implicit Types (classes pre post : list PyClass).

Lemma mro_walk_first evs pre cls post (ev : @TransformEvaluatorRegistry.EvaluatorClass V S) init :
  (∀ c, c ∈ pre → TransformEvaluatorRegistry.dict_get evs c = None) →
  TransformEvaluatorRegistry.dict_get evs cls = Some ev →
  TransformEvaluatorRegistry.mro_walk evs (pre ++ cls :: post) init = Some ev.
Proof.
  revert init. induction pre as [|c pre IH]; intros init Hpre Hcls; simpl.
  - by rewrite Hcls.
  - rewrite (Hpre c) by left. apply IH; [|done].
    intros c' Hc'. apply Hpre. by right.
Qed.

Lemma mro_walk_none evs classes :
  (∀ c, c ∈ classes →
     TransformEvaluatorRegistry.dict_get evs c
     = (None : option (@TransformEvaluatorRegistry.EvaluatorClass V S))) →
  TransformEvaluatorRegistry.mro_walk evs classes None = None.
Proof.
  induction classes as [|c classes IH]; intros Hall; simpl; [done|].
  rewrite (Hall c) by left. apply IH. intros c' Hc'. apply Hall. by right.
Qed.

Lemma for_application_unfold applied input side_inputs_ (s : S) :
  for_application (Some applied) input side_inputs_ s
  = if eqb (negb (py_not_list (side_inputs applied)))
           (negb (py_not_list side_inputs_))
    then match TransformEvaluatorRegistry.mro_walk registry_evaluators
                 (mro (transform applied)) None with
         | None => (Raise NotImplementedError, s)
         | Some evaluator => evaluator applied input side_inputs_ s
         end
    else (Raise AssertionError, s).
Proof.
  unfold TransformEvaluatorRegistry.for_application. py_unfold.
  unfold py_bind, py_assert. cbn [py_not negb].
  destruct (eqb _ _); [|reflexivity].
  by destruct (TransformEvaluatorRegistry.mro_walk _ _ _).
Qed.

(** C5.  When the arguments pass the entry assertions, [for_application]
    calls the evaluator class the table holds for the first class of the
    transform's method resolution order that is registered — so a
    subclass of a registered kind gets that kind's evaluator — and raises
    [NotImplementedError] when no class of the order is registered; in
    that case no call, whatever its side inputs, returns an evaluator. *)
Theorem for_application_dispatch applied input side_inputs_ (s : S) :
  (negb (py_not_list (side_inputs applied))
   = negb (py_not_list side_inputs_) →
   ∀ pre cls post evaluator,
     mro (transform applied) = pre ++ cls :: post →
     (∀ c, c ∈ pre → registry_get c = None) →
     registry_get cls = Some evaluator →
     for_application (Some applied) input side_inputs_ s
     = evaluator applied input side_inputs_ s) ∧
  (negb (py_not_list (side_inputs applied))
   = negb (py_not_list side_inputs_) →
   (∀ c, c ∈ mro (transform applied) → registry_get c = None) →
   for_application (Some applied) input side_inputs_ s
   = (Raise NotImplementedError, s)) ∧
  ((∀ c, c ∈ mro (transform applied) → registry_get c = None) →
   ∃ e, for_application (Some applied) input side_inputs_ s = (Raise e, s)).
Proof.
  rewrite for_application_unfold. split; [|split].
  - intros Hside pre cls post evaluator Hmro Hpre Hcls.
    rewrite Hside, eqb_reflx, Hmro.
    by rewrite (mro_walk_first _ pre cls post evaluator None Hpre Hcls).
  - intros Hside Hnone. rewrite Hside, eqb_reflx.
    by rewrite (mro_walk_none _ _ Hnone).
  - intros Hnone. rewrite (mro_walk_none _ _ Hnone).
    destruct (eqb _ _); by eexists.
Qed.

(** C7.  [should_execute_serially] is true exactly for the transforms
    whose class is, or derives from, [_GroupByKeyOnly] or [_NativeWrite];
    in particular it is false for a plain read, flatten, ParDo or
    splittable-work transform. *)
Theorem should_execute_serially_iff applied :
  (TransformEvaluatorRegistry.should_execute_serially applied = true
   ↔ core__GroupByKeyOnly ∈ mro (transform applied)
     ∨ _NativeWrite ∈ mro (transform applied)) ∧
  (∀ cls, cls ∈ [io_Read; core_Flatten; core_ParDo; ProcessKeyedElements] →
     mro (transform applied) = [cls; PTransform; object] →
     TransformEvaluatorRegistry.should_execute_serially applied = false).
Proof.
  assert (TransformEvaluatorRegistry.should_execute_serially applied = true
          ↔ core__GroupByKeyOnly ∈ mro (transform applied)
            ∨ _NativeWrite ∈ mro (transform applied)) as Hiff.
  { unfold TransformEvaluatorRegistry.should_execute_serially, isinstance.
    cbn [existsb].
    rewrite orb_false_r, orb_true_iff, !bool_decide_eq_true. done. }
  split; [done|].
  intros cls Hcls Hmro. apply not_true_is_false. rewrite Hiff, Hmro.
  rewrite !elem_of_cons, !elem_of_nil in Hcls.
  rewrite !elem_of_cons, !elem_of_nil.
  intros [Hin|Hin]; destruct Hcls as [->|[->|[->|[->|[]]]]];
    destruct Hin as [|[|[|[]]]]; discriminate.
Qed.

End RegistryFacts.

Lemma for_application_dispatch_witness :
  @TransformEvaluatorRegistry.for_application nat unit
    (Some example_subclassed_gbk) None [] ()
  = TransformEvaluatorRegistry.construct _GroupByKeyOnlyEvaluator.__init__
      TransformEvaluatorRegistry.GroupByKeyOnlyEvaluator
      example_subclassed_gbk None [] () ∧
  @TransformEvaluatorRegistry.for_application nat unit
    (Some example_unregistered) None [] ()
  = (Raise NotImplementedError, ()).
Proof.
  split.
  - apply (proj1 (for_application_dispatch example_subclassed_gbk None [] ())
             eq_refl [UserClass "MyGroupByKey"] core__GroupByKeyOnly
             [PTransform; object]).
    + reflexivity.
    + intros c Hc. apply list_elem_of_singleton in Hc. subst c. reflexivity.
    + reflexivity.
  - apply (proj1 (proj2
             (for_application_dispatch example_unregistered None [] ()))
             eq_refl).
    intros c Hc. simpl in Hc.
    repeat (apply elem_of_cons in Hc as [->|Hc]; [reflexivity|]).
    by apply elem_of_nil in Hc.
Defined.

Lemma should_execute_serially_iff_witness :
  TransformEvaluatorRegistry.should_execute_serially example_subclassed_gbk
  = true ∧
  TransformEvaluatorRegistry.should_execute_serially example_sdf = false.
Proof.
  split.
  - apply (proj1 (should_execute_serially_iff example_subclassed_gbk)).
    left. simpl. right. left.
  - apply (proj2 (should_execute_serially_iff example_sdf)
             ProcessKeyedElements); [|reflexivity].
    do 3 right. left.
Defined.

(** ** [_BoundedReadEvaluator] *)

Section BoundedReadFacts.
Context {V S : Type}.

Lemma read_values_to_bundles_facts (pc : PCollection) (reader : list V) :
  let bundles := _BoundedReadEvaluator._read_values_to_bundles pc reader in
  bundle_contents bundles = map windowed_value reader ∧
  Forall (λ b, length (_elements b) ≤ 1000) bundles ∧
  Forall (λ b, pcollection b = pc) bundles.
Proof.
  cbv zeta. unfold _BoundedReadEvaluator._read_values_to_bundles,
    _BoundedReadEvaluator.MAX_ELEMENT_PER_BUNDLE, _split_list_into_bundles.
  split; [|split].
  - by rewrite split_loop_contents.
  - apply split_loop_unit_bound; simpl; try done; lia.
  - by apply split_loop_pcollection.
Qed.

Lemma size_one_elements (X : gset PCollection) :
  size X = 1 → ∃ pc, elements X = [pc] ∧ pc ∈ X.
Proof.
  intros Hsize. unfold size, set_size in Hsize. simpl in Hsize.
  destruct (elements X) as [|pc [|pc' l]] eqn:E; try done.
  exists pc. split; [done|]. apply elem_of_elements. rewrite E. left.
Qed.

(** C8.  Constructing a [_BoundedReadEvaluator] succeeds only without an
    input bundle and without side inputs.  With its single declared
    output, [finish_bundle] returns normally: its bundles hold, in order,
    every value the source yields over its default range, each wrapped as
    a global-window value, no bundle has more than 1000 elements, every
    bundle belongs to the declared output, and the result carries no
    watermark hold. *)
Theorem bounded_read_drains_source
    (this : @_BoundedReadEvaluator.self V) (s : S) :
  (∀ (applied : AppliedPTransform V) input side (s0 s1 : S)
      (this0 : @_BoundedReadEvaluator.self V),
     _BoundedReadEvaluator.__init__ applied input side s0 = (Ok this0, s1) →
     input = None ∧ side = [] ∧ s1 = s0 ∧
     source (transform applied)
     = Some (_BoundedReadEvaluator._source this0)) ∧
  (size (_BoundedReadEvaluator._outputs this) = 1 →
   ∃ r, _BoundedReadEvaluator.finish_bundle this s = (Ok r, s) ∧
     watermark_hold r = None ∧
     bundle_contents (output_bundles r)
     = map windowed_value
         (source_values (_BoundedReadEvaluator._source this)) ∧
     Forall (λ b, length (_elements b) ≤ 1000) (output_bundles r) ∧
     Forall (λ b, pcollection b ∈ _BoundedReadEvaluator._outputs this)
       (output_bundles r)).
Proof.
  split.
  - intros applied input side s0 s1 this0.
    unfold _BoundedReadEvaluator.__init__. py_unfold.
    unfold py_bind, py_assert.
    destruct input as [b|]; simpl; [done|].
    destruct side as [|x side]; simpl; [|done].
    destruct (source (transform applied)) as [src|]; simpl; [|done].
    unfold py_ret. by intros [= <- <-].
  - intros Hsize.
    destruct (size_one_elements _ Hsize) as (pc & Hel & Hin).
    unfold _BoundedReadEvaluator.finish_bundle. py_unfold.
    unfold py_bind, py_assert. rewrite bool_decide_eq_true_2 by done.
    simpl. rewrite Hel.
    destruct (_BoundedReadEvaluator._source this) as [grt read|reader];
      simpl; eexists; (split; [reflexivity|]); simpl;
      (split; [done|]).
    + destruct (read_values_to_bundles_facts pc (read (grt None None)))
        as (Hc & Hb & Hp).
      split; [done|]. split; [done|].
      eapply Forall_impl; [exact Hp|]. by intros b ->.
    + destruct (read_values_to_bundles_facts pc reader) as (Hc & Hb & Hp).
      split; [done|]. split; [done|].
      eapply Forall_impl; [exact Hp|]. by intros b ->.
Qed.

End BoundedReadFacts.

Lemma bounded_read_drains_source_witness :
  ∃ r, _BoundedReadEvaluator.finish_bundle example_read_self ()
       = (Ok r, ()) ∧
    watermark_hold r = None ∧
    bundle_contents (output_bundles r)
    = map windowed_value (source_values example_source).
Proof.
  destruct (proj2 (bounded_read_drains_source example_read_self ()))
    as (r & Hrun & Hhold & Hcontents & _).
  - vm_compute. reflexivity.
  - exists r. split; [exact Hrun|]. split; [exact Hhold|exact Hcontents].
Defined.

(** ** Splittable-DoFn invocation *)

Section SdfFacts.
Context {TS E : Type}.

(** C9.  [invoke_process_element] first runs the user's per-element logic
    and then the tracker's [check_done] on the tracker state that logic
    left: it returns normally only if both did, and when the user's logic
    returned, its outcome is the outcome of [check_done], so a failing
    [check_done] makes the invocation fail. *)
Theorem invoke_process_element_checks_done
    (invoker : @sdf_common.Invoker TS E) (element : E)
    (tracker : @sdf_common.Tracker TS) (ts : TS) :
  (∀ ts', sdf_common.invoke_process_element invoker element tracker ts
          = (Ok (), ts') →
     ∃ ts1, sdf_common.invoke_process invoker element tracker ts
            = (Ok (), ts1) ∧
       sdf_common.check_done tracker ts1 = (Ok (), ts')) ∧
  (sdf_common.invoker_is_DoFnInvoker invoker = true →
   sdf_common.tracker_is_RestrictionTracker tracker = true →
   ∀ ts1, sdf_common.invoke_process invoker element tracker ts
          = (Ok (), ts1) →
     sdf_common.invoke_process_element invoker element tracker ts
     = sdf_common.check_done tracker ts1).
Proof.
  unfold sdf_common.invoke_process_element. py_unfold. split.
  - intros ts' Hrun.
    apply py_bind_Ok in Hrun as (u0 & ts0 & Ha0 & Hrun).
    apply py_assert_Ok in Ha0 as [_ ->].
    apply py_bind_Ok in Hrun as (u1 & ts0' & Ha1 & Hrun).
    apply py_assert_Ok in Ha1 as [_ ->].
    apply py_bind_Ok in Hrun as ([] & ts1 & Huser & Hdone).
    by exists ts1.
  - intros -> -> ts1 Huser. unfold py_assert.
    unfold py_bind at 1 2. simpl.
    by rewrite (py_bind_step _ _ _ _ _ Huser).
Qed.

End SdfFacts.

Lemma invoke_process_element_checks_done_witness :
  sdf_common.invoke_process_element example_invoker 7 example_tracker
    (mkOffsetTrackerState (0, 3) None)
  = (Raise ValueError, mkOffsetTrackerState (0, 3) (Some 0)).
Proof.
  rewrite (proj2 (invoke_process_element_checks_done example_invoker 7
                    example_tracker (mkOffsetTrackerState (0, 3) None))
             eq_refl eq_refl (mkOffsetTrackerState (0, 3) (Some 0)) eq_refl).
  reflexivity.
Defined.

(** ** Worked examples *)

Example split_five_by_two :
  _elements <$> _split_list_into_bundles "out"%string [1; 2; 3; 4; 5]
                  (Some 2%Z) (λ _, 1)
  = [[1; 2]; [3; 4]; [5]].
Proof. reflexivity. Qed.

(** A cap of [0] is falsy and behaves like no cap at all. *)
Example split_cap_zero :
  _elements <$> _split_list_into_bundles "out"%string [1; 2; 3]
                  (Some 0%Z) (λ _, 1)
  = [[1; 2; 3]].
Proof. reflexivity. Qed.

(** A negative cap is truthy and already reached by the size [0] of the
    initial bundle, which therefore stays empty. *)
Example split_cap_negative :
  _elements <$> _split_list_into_bundles "out"%string [1; 2; 3]
                  (Some (-1)%Z) (λ _, 1)
  = [[]; [1]; [2]; [3]].
Proof. reflexivity. Qed.

Example gbk_example_emits :
  emitted example_gbk_results = [(1, [10; 11]); (2, [20])] ∧
  (λ r, length (output_bundles r)) <$> example_gbk_results = [0; 1; 0].
Proof. vm_compute. done. Qed.

(** An element after completion trips the assertion of
    [process_element]. *)
Example gbk_element_after_completion :
  (_GroupByKeyOnlyEvaluator.run id id example_gbk
     [([kv_element 1 10], WATERMARK_POS_INF);
      ([kv_element 1 11], WATERMARK_POS_INF)]
     example_initial_context).1
  = Raise AssertionError.
Proof. vm_compute. done. Qed.

(** The sink's buffer is not emptied by the flush: an empty bundle that
    follows a non-empty flush trips the assertion, after the single shard
    was written. *)
Example native_write_trailing_bundle :
  let run := _NativeWriteEvaluator.run example_write
               [([windowed_value (Scalar 1)], WATERMARK_POS_INF);
                ([], WATERMARK_POS_INF)]
               example_initial_world in
  run.1 = Raise AssertionError ∧
  _NativeWriteEvaluator.written run.2 = [[Scalar 1]].
Proof. vm_compute. done. Qed.

Example for_application_side_input_mismatch :
  (@TransformEvaluatorRegistry.for_application nat unit
     (Some example_unregistered) None ["view"%string] ()).1
  = Raise AssertionError.
Proof. reflexivity. Qed.

Example bounded_read_needs_no_input :
  (@_BoundedReadEvaluator.__init__ nat unit example_read
     (Some (mkBundle "numbers"%string [])) [] ()).1
  = Raise AssertionError.
Proof. reflexivity. Qed.

Example bounded_read_three_bundles :
  (λ b, length (_elements b))
    <$> _BoundedReadEvaluator._read_values_to_bundles "numbers"%string
          (source_values example_source)
  = [1000; 1000; 500].
Proof. vm_compute. done. Qed.

(** * Further properties of the evaluators *)

(** ** Bundle splitting under arbitrary caps and size functions *)

Section SplitListMore.
Context {P A : Type}.
Implicit Types (bundles : list (Bundle P A)) (bundle : Bundle P A).
Implicit Types (f : A → nat) (elts : list A).

Lemma total_size_output f bundle e :
  total_size f (output bundle e) = total_size f bundle + f e.
Proof.
  unfold total_size, output. simpl. rewrite sum_list_with_app. simpl. lia.
Qed.

Lemma cap_reached_inv cap size :
  cap_reached cap size = true →
  ∃ c, cap = Some c ∧ c ≠ 0%Z ∧ (c ≤ Z.of_nat size)%Z.
Proof.
  destruct cap as [c|]; simpl; [|done]. intros Hreached.
  apply andb_true_iff in Hreached as [Hc Hle].
  apply negb_true_iff, Z.eqb_neq in Hc. apply Z.leb_le in Hle.
  by exists c.
Qed.




Lemma split_loop_reaches_cap (pc : P) n f elts bundles bundle size :
  1 ≤ n → size = total_size f bundle →
  Forall (λ b, n ≤ total_size f b) bundles →
  ∃ init last,
    split_loop pc (Some (Z.of_nat n)) f elts bundles bundle size
    = init ++ [last] ∧
    Forall (λ b, n ≤ total_size f b) init.
Proof.
  intros Hn. revert bundles bundle size.
  induction elts as [|e rest IH]; intros bundles bundle size Hsz Hbs.
  - simpl. by exists bundles, bundle.
  - cbn [split_loop].
    destruct (cap_reached (Some (Z.of_nat n)) size) eqn:Hcap.
    + apply cap_reached_inv in Hcap as (n' & [= <-] & _ & Hle).
      apply IH.
      * rewrite total_size_output. unfold total_size. simpl. lia.
      * apply Forall_app. split; [done|]. constructor; [lia|done].
    + apply IH; [by rewrite total_size_output, Hsz|done].
Qed.

Lemma all_but_last_snoc {B} (l : list B) (x : B) :
  all_but_last (l ++ [x]) = l.
Proof.
  unfold all_but_last. rewrite length_app. simpl.
  replace (length l + 1 - 1) with (length l) by lia.
  by rewrite take_app_length.
Qed.

Lemma split_loop_overshoot (pc : P) n f elts bundles bundle size :
  1 ≤ n → size = total_size f bundle →
  sum_list_with f (all_but_last (_elements bundle)) < n →
  Forall (λ b, sum_list_with f (all_but_last (_elements b)) < n) bundles →
  Forall (λ b, sum_list_with f (all_but_last (_elements b)) < n)
    (split_loop pc (Some (Z.of_nat n)) f elts bundles bundle size).
Proof.
  intros Hn. revert bundles bundle size.
  induction elts as [|e rest IH]; intros bundles bundle size Hsz Hb Hbs.
  - simpl. apply Forall_app. split; [done|]. by constructor.
  - cbn [split_loop].
    destruct (cap_reached (Some (Z.of_nat n)) size) eqn:Hcap.
    + apply IH.
      * rewrite total_size_output. unfold total_size. simpl. lia.
      * simpl. unfold all_but_last. simpl. lia.
      * apply Forall_app. split; [done|]. by constructor.
    + apply IH; [by rewrite total_size_output, Hsz| |done].
      simpl. rewrite all_but_last_snoc.
      rewrite cap_reached_of_nat in Hcap.
      apply andb_false_iff in Hcap as [Hz|Hlt].
      * apply negb_false_iff, Nat.eqb_eq in Hz. lia.
      * apply Nat.leb_gt in Hlt. unfold total_size in Hsz. lia.
Qed.

(** X1.  For every cap and every size function the bundles hold exactly
    the input elements, in input order, and every bundle belongs to the
    output collection. *)
Theorem split_keeps_every_element (pc : P) elts cap f :
  bundle_contents (_split_list_into_bundles pc elts cap f) = elts ∧
  Forall (λ b, pcollection b = pc) (_split_list_into_bundles pc elts cap f).
Proof.
  unfold _split_list_into_bundles. split.
  - by rewrite split_loop_contents.
  - by apply split_loop_pcollection.
Qed.


(** X3.  Under a cap [n ≥ 1] and any size function, every bundle but the
    last has a total size of at least [n], and no bundle reaches [n]
    before its last element: the cap is overshot by at most one
    element. *)
Theorem split_cap_is_approximate (pc : P) elts n f :
  1 ≤ n →
  (∃ init last,
     _split_list_into_bundles pc elts (Some (Z.of_nat n)) f
     = init ++ [last] ∧
     Forall (λ b, n ≤ total_size f b) init) ∧
  Forall (λ b, sum_list_with f (all_but_last (_elements b)) < n)
    (_split_list_into_bundles pc elts (Some (Z.of_nat n)) f).
Proof.
  intros Hn. unfold _split_list_into_bundles. split.
  - by apply split_loop_reaches_cap.
  - apply split_loop_overshoot; simpl; try done; unfold all_but_last;
      simpl; lia.
Qed.

End SplitListMore.


Lemma split_cap_is_approximate_witness :
  1 ≤ 4 ∧
  Forall (λ b, sum_list_with id (all_but_last (_elements b)) < 4)
    (_split_list_into_bundles "out"%string [3; 1; 4; 1; 5] (Some 4%Z) id).
Proof.
  split; [lia|].
  exact (proj2 (split_cap_is_approximate "out"%string [3; 1; 4; 1; 5] 4 id
                  ltac:(lia))).
Defined.

(** ** More on [_GroupByKeyOnlyEvaluator] *)

Section GroupByKeyOnlyMore.
Context {EK V : Type} `{Countable EK}.
Variable encode : V → EK.
Variable decode : EK → V.

(** X4.  Once a [finish_bundle] has run with the input watermark at
    [+∞], on either completion branch, the step accepts no element any
    more: every later [process_element] raises [AssertionError] before
    touching the keyed state, whatever the element. *)
Theorem gbk_step_closed_after_final_finish
    (this this' : @_GroupByKeyOnlyEvaluator.self V)
    (ctx : ExecutionContext EK V) (element : PyElement V) :
  input_watermark (watermarks ctx) = WATERMARK_POS_INF →
  ∃ r ctx1,
    _GroupByKeyOnlyEvaluator.finish_bundle decode this ctx = (Ok r, ctx1) ∧
    _GroupByKeyOnlyEvaluator.process_element encode this' element ctx1
    = (Raise AssertionError, ctx1).
Proof.
  intros Hwm.
  assert (_GroupByKeyOnlyEvaluator._is_final_bundle ctx = true) as Hfinal
    by (by apply bool_decide_eq_true).
  destruct (get_state_COMPLETION_TAG (get_keyed_state ctx None)) eqn:Hdone.
  - eexists _, _. split.
    + by apply finish_bundle_final_completed.
    + apply process_element_completed, completed_after_flag.
  - eexists _, _. split.
    + by apply finish_bundle_final_first.
    + apply process_element_completed, completed_after_flag.
Qed.

(** X5.  A grouping evaluator is never constructed with side inputs, nor
    for a transform that does not declare exactly one output collection:
    with side inputs the constructor raises [AssertionError] at its first
    statement, and whenever it returns an evaluator, no side inputs were
    given, the evaluator is the given transform's, and the transform's
    only output collection is the one the evaluator writes to. *)
Theorem gbk_constructor_requirements {S} (applied : AppliedPTransform V)
    input side (s s' : S) :
  (side ≠ [] →
   _GroupByKeyOnlyEvaluator.__init__ applied input side s
   = (Raise AssertionError, s)) ∧
  (∀ this,
     _GroupByKeyOnlyEvaluator.__init__ applied input side s = (Ok this, s') →
     side = [] ∧
     _GroupByKeyOnlyEvaluator._applied_ptransform this = applied ∧
     _expand_outputs applied
     = {[ _GroupByKeyOnlyEvaluator.output_pcollection this ]}).
Proof.
  unfold _GroupByKeyOnlyEvaluator.__init__,
    _GroupByKeyOnlyEvaluator.start_bundle.
  py_unfold. unfold py_bind, py_assert. split.
  - intros Hside. by destruct side.
  - intros this. destruct side as [|x side]; simpl; [|done].
    destruct (decide (size (_expand_outputs applied) = 1)) as [Hsize|Hsize].
    + rewrite bool_decide_eq_true_2 by done. simpl.
      destruct (size_one_elements _ Hsize) as (pc & Hel & Hin).
      rewrite Hel. intros [= <- _]. split; [done|]. split; [done|]. simpl.
      apply set_eq. intros x. rewrite elem_of_singleton.
      rewrite <- elem_of_elements, Hel. apply list_elem_of_singleton.
    + by rewrite bool_decide_eq_false_2.
Qed.

End GroupByKeyOnlyMore.

Lemma gbk_step_closed_after_final_finish_witness :
  ∃ r ctx1,
    _GroupByKeyOnlyEvaluator.finish_bundle id example_gbk_self
      example_completed_context = (Ok r, ctx1) ∧
    _GroupByKeyOnlyEvaluator.process_element id example_gbk_self
      (kv_element 1 10) ctx1 = (Raise AssertionError, ctx1).
Proof.
  apply (gbk_step_closed_after_final_finish id id example_gbk_self
           example_gbk_self example_completed_context (kv_element 1 10)).
  reflexivity.
Defined.

Lemma gbk_constructor_requirements_witness :
  @_GroupByKeyOnlyEvaluator.__init__ nat unit example_gbk None
    ["view"%string] ()
  = (Raise AssertionError, ()) ∧
  _expand_outputs example_gbk
  = {[ _GroupByKeyOnlyEvaluator.output_pcollection example_gbk_self ]}.
Proof.
  split.
  - apply (proj1 (gbk_constructor_requirements example_gbk None
                    ["view"%string] () ())).
    discriminate.
  - apply (proj2 (gbk_constructor_requirements example_gbk None [] () ())
             example_gbk_self).
    vm_compute. reflexivity.
Defined.

(** ** More on [_NativeWriteEvaluator] *)

Section NativeWriteMore.
Context {EK V : Type} `{Countable EK}.
Implicit Types (w : @_NativeWriteEvaluator.World EK V _ _).
Implicit Types (this : @_NativeWriteEvaluator.self V).

(** X6.  Whenever the sink's [finish_bundle] returns, its result carries
    no output bundle, its hold is [+∞] if the input watermark is at [+∞]
    and [−∞] otherwise, and the execution context is as before: the
    buffered elements are never removed, not even by the flush. *)
Theorem native_write_finish_result this w r w' :
  _NativeWriteEvaluator.finish_bundle this w = (Ok r, w') →
  output_bundles r = [] ∧
  watermark_hold r
  = Some (if _NativeWriteEvaluator._is_final_bundle w
          then WATERMARK_POS_INF else WATERMARK_NEG_INF) ∧
  _NativeWriteEvaluator.context w' = _NativeWriteEvaluator.context w.
Proof.
  intros Hfin.
  destruct (_NativeWriteEvaluator._is_final_bundle w) eqn:Hfinal.
  - destruct (_NativeWriteEvaluator._has_already_produced_output w) eqn:Hprod.
    + destruct (decide (buffer w = [])) as [Hempty|Hne].
      * rewrite (nw_finish_after_flush_empty this w Hfinal Hprod Hempty)
          in Hfin. by injection Hfin as <- <-.
      * by rewrite (nw_finish_after_flush_nonempty this w Hfinal Hprod Hne)
          in Hfin.
    + rewrite (nw_finish_flush this w Hfinal Hprod) in Hfin.
      by injection Hfin as <- <-.
  - rewrite (nw_finish_not_final this w Hfinal) in Hfin.
    by injection Hfin as <- <-.
Qed.

(** X7.  [process_element] accepts every element without validation: a
    whole bundle is processed without raising, its elements are appended
    to the buffer in order, nothing is written to the sink and the
    watermarks are not touched. *)
Theorem native_write_process_only_buffers this
    (es : list (WindowedValue (PyValue V))) w :
  ∃ w', py_for es (_NativeWriteEvaluator.process_element this) w
        = (Ok (), w') ∧
    buffer w' = buffer w ++ es ∧
    _NativeWriteEvaluator.written w' = _NativeWriteEvaluator.written w ∧
    watermarks (_NativeWriteEvaluator.context w')
    = watermarks (_NativeWriteEvaluator.context w).
Proof.
  exists (buffered es w). split; [apply nw_process_elements|].
  apply buffered_facts.
Qed.


(** X9.  A [finish_bundle] at [+∞] made while the output watermark is
    below [+∞] appends exactly one shard, holding the values of the
    buffered elements in buffered order, and does not itself record that
    output was produced: the buffer and both watermarks are as before, so
    only the advance of the output watermark keeps a later call from
    writing the buffer again. *)
Theorem native_write_flush_appends_one_shard this w :
  _NativeWriteEvaluator._is_final_bundle w = true →
  _NativeWriteEvaluator._has_already_produced_output w = false →
  ∃ r w',
    _NativeWriteEvaluator.finish_bundle this w = (Ok r, w') ∧
    _NativeWriteEvaluator.written w'
    = _NativeWriteEvaluator.written w ++ [value <$> buffer w] ∧
    buffer w' = buffer w ∧
    _NativeWriteEvaluator._has_already_produced_output w' = false ∧
    ∃ r' w'',
      _NativeWriteEvaluator.finish_bundle this w' = (Ok r', w'') ∧
      _NativeWriteEvaluator.written w''
      = _NativeWriteEvaluator.written w
        ++ [value <$> buffer w; value <$> buffer w].
Proof.
  intros Hfinal Hprod. eexists _, _. split; [by apply nw_finish_flush|].
  split; [done|]. split; [done|]. split; [done|].
  eexists _, _. split; [by apply nw_finish_flush|].
  simpl. by rewrite <- app_assoc.
Qed.

End NativeWriteMore.

Lemma native_write_finish_result_witness :
  ∃ r w',
    _NativeWriteEvaluator.finish_bundle example_write_self example_final_world
    = (Ok r, w') ∧
    output_bundles r = [] ∧
    _NativeWriteEvaluator.context w'
    = _NativeWriteEvaluator.context example_final_world.
Proof.
  pose proof (native_write_finish_result example_write_self
                example_final_world) as Hres.
  destruct (_NativeWriteEvaluator.finish_bundle example_write_self
              example_final_world) as [[r|e] w'] eqn:Hfin;
    [|vm_compute in Hfin; discriminate Hfin].
  exists r, w'. split; [reflexivity|].
  destruct (Hres r w' eq_refl) as (Hout & _ & Hctx).
  split; [exact Hout|exact Hctx].
Defined.


Lemma native_write_flush_appends_one_shard_witness :
  ∃ r w',
    _NativeWriteEvaluator.finish_bundle example_write_self example_final_world
    = (Ok r, w') ∧
    _NativeWriteEvaluator.written w' = [[Scalar 1; Scalar 2]].
Proof.
  destruct (native_write_flush_appends_one_shard example_write_self
              example_final_world eq_refl eq_refl)
    as (r & w' & Hfin & Hwritten & _).
  exists r, w'. split; [exact Hfin|exact Hwritten].
Defined.

(** ** [_FlattenEvaluator], [_expand_outputs] and the registry *)

Section FlattenFacts.
Context {V : Type}.
Implicit Types (this : @_FlattenEvaluator.self V).
Implicit Types (b : Bundle PCollection (PyElement V)).

Lemma flatten_process_all this (es : list (PyElement V)) b :
  py_for es (_FlattenEvaluator.process_element this) b
  = (Ok (), mkBundle (pcollection b) (_elements b ++ es)).
Proof.
  revert b. induction es as [|e es IH]; intros b; simpl.
  - unfold py_ret. rewrite app_nil_r. by destruct b.
  - unfold py_bind, _FlattenEvaluator.process_element at 1, py_modify.
    rewrite IH. simpl. by rewrite <- app_assoc.
Qed.

(** X10.  One lifecycle of the flatten evaluator with its single declared
    output returns exactly one bundle for that output, holding the
    processed elements unchanged and in order, whatever bundle an earlier
    lifecycle left behind, and requests no hold; with any other number of
    declared outputs it raises [AssertionError] before processing
    anything. *)
Theorem flatten_passes_elements_through this (es : list (PyElement V)) b :
  (size (_FlattenEvaluator._outputs this) = 1 →
   ∃ pc, _FlattenEvaluator._outputs this = {[ pc ]} ∧
     flatten_evaluate this es b
     = (Ok (mkTransformResult (_FlattenEvaluator._applied_ptransform this)
              [mkBundle pc es] None None None),
        mkBundle pc es)) ∧
  (size (_FlattenEvaluator._outputs this) ≠ 1 →
   flatten_evaluate this es b = (Raise AssertionError, b)).
Proof.
  unfold flatten_evaluate, _FlattenEvaluator.start_bundle. py_unfold. split.
  - intros Hsize. destruct (size_one_elements _ Hsize) as (pc & Hel & Hin).
    exists pc. split.
    { apply set_eq. intros x. rewrite elem_of_singleton.
      rewrite <- elem_of_elements, Hel. apply list_elem_of_singleton. }
    unfold py_bind at 1 2. unfold py_assert.
    rewrite bool_decide_eq_true_2 by done. simpl. rewrite Hel.
    unfold py_modify at 1. unfold py_bind at 1.
    rewrite flatten_process_all. simpl.
    unfold _FlattenEvaluator.finish_bundle. py_unfold. done.
  - intros Hsize. unfold py_bind, py_assert.
    by rewrite bool_decide_eq_false_2.
Qed.

End FlattenFacts.

Lemma flatten_passes_elements_through_witness :
  flatten_evaluate example_flatten_self [kv_element 1 10; kv_element 2 20]
    (mkBundle "stale"%string [kv_element 9 9])
  = (Ok (mkTransformResult example_flatten
           [mkBundle "merged"%string [kv_element 1 10; kv_element 2 20]]
           None None None),
     mkBundle "merged"%string [kv_element 1 10; kv_element 2 20]).
Proof.
  destruct (proj1 (flatten_passes_elements_through example_flatten_self
                     [kv_element 1 10; kv_element 2 20]
                     (mkBundle "stale"%string [kv_element 9 9])))
    as (pc & Hout & Hrun); [vm_compute; reflexivity|].
  assert (pc = "merged"%string) as ->.
  { assert (pc ∈ _FlattenEvaluator._outputs example_flatten_self) as Hin
      by (rewrite Hout; apply elem_of_singleton; reflexivity).
    apply elem_of_elements in Hin. vm_compute in Hin.
    apply list_elem_of_singleton in Hin. exact Hin. }
  exact Hrun.
Defined.

(** X11.  A collection is among an evaluator's outputs exactly when it is
    the value of one of the transform's output tags or a member of a
    tuple stored under one. *)
Theorem expand_outputs_membership {V} (applied : AppliedPTransform V)
    (pc : PCollection) :
  pc ∈ _expand_outputs applied ↔
  ∃ tag pval, (tag, pval) ∈ outputs applied ∧
    match pval with
    | PCollectionValue v => v = pc
    | DoOutputsTuple pvals => pc ∈ pvals
    end.
Proof.
  unfold _expand_outputs. rewrite elem_of_list_to_set, list_elem_of_In.
  rewrite in_flat_map. split.
  - intros (pval & Hin & Hpc). apply in_map_iff in Hin
      as ([tag pval'] & Heq & Hin). simpl in Heq. subst pval'.
    exists tag, pval. split; [by apply list_elem_of_In|].
    destruct pval as [v|pvals]; simpl in Hpc.
    + by destruct Hpc.
    + by apply list_elem_of_In.
  - intros (tag & pval & Hin & Hpc). exists pval. split.
    + apply in_map_iff. exists (tag, pval). split; [done|].
      by apply list_elem_of_In.
    + destruct pval as [v|pvals]; simpl.
      * by left.
      * by apply list_elem_of_In.
Qed.

Lemma expand_outputs_membership_witness :
  "side"%string ∈ _expand_outputs example_multi_output.
Proof.
  apply (proj2 (expand_outputs_membership example_multi_output
                  "side"%string)).
  exists (Some "tagged"%string), (DoOutputsTuple ["main"; "side"]%string).
  split.
  - right. left.
  - right. left.
Defined.

Section RegistryMore.
Context {V S : Type}.
Implicit Types (applied : AppliedPTransform V) (classes : list PyClass).

Lemma mro_walk_some evs classes
    (init : option (@TransformEvaluatorRegistry.EvaluatorClass V S)) :
  (∃ c, c ∈ classes ∧ is_Some (TransformEvaluatorRegistry.dict_get evs c)) →
  ∃ cls evaluator, cls ∈ classes ∧
    TransformEvaluatorRegistry.dict_get evs cls = Some evaluator ∧
    TransformEvaluatorRegistry.mro_walk evs classes init = Some evaluator.
Proof.
  revert init. induction classes as [|c classes IH]; intros init.
  - intros (c & Hc & _). by apply elem_of_nil in Hc.
  - intros (c' & Hc' & Hreg). simpl.
    destruct (TransformEvaluatorRegistry.dict_get evs c) as [ev|] eqn:Hc.
    + exists c, ev. split; [left|done].
    + destruct (IH None) as (cls & ev & Hin & Hget & Hwalk).
      * apply elem_of_cons in Hc' as [->|Hc'].
        -- rewrite Hc in Hreg. by destruct Hreg.
        -- eauto.
      * exists cls, ev. split; [by right|done].
Qed.

(** X12.  [for_application] checks its arguments before it looks at the
    transform's class: without an applied transform, or when exactly one
    of the transform's side inputs and the given side inputs is empty, it
    raises [AssertionError] and constructs nothing, for registered and
    unregistered kinds alike. *)
Theorem for_application_entry_assertions input side (s : S) :
  @TransformEvaluatorRegistry.for_application V S None input side s
  = (Raise AssertionError, s) ∧
  ∀ applied,
    py_not_list (side_inputs applied) ≠ py_not_list side →
    @TransformEvaluatorRegistry.for_application V S (Some applied) input
      side s
    = (Raise AssertionError, s).
Proof.
  split; [reflexivity|].
  intros applied Hside. rewrite for_application_unfold.
  destruct (py_not_list (side_inputs applied)), (py_not_list side);
    simpl; done.
Qed.

(** X13.  Every transform that must execute serially has an evaluator
    class: its method resolution order holds a class of the table, and
    when the entry assertions pass, [for_application] on it returns or
    raises exactly what the constructor of an evaluator class registered
    for one of those classes returns or raises for it. *)
Theorem serial_transform_has_evaluator applied input side (s : S) :
  TransformEvaluatorRegistry.should_execute_serially applied = true →
  py_not_list (side_inputs applied) = py_not_list side →
  ∃ cls evaluator,
    cls ∈ mro (transform applied) ∧
    TransformEvaluatorRegistry.dict_get
      (@TransformEvaluatorRegistry._evaluators V S) cls = Some evaluator ∧
    TransformEvaluatorRegistry.for_application (Some applied) input side s
    = evaluator applied input side s.
Proof.
  intros Hserial Hside.
  assert (∃ c, c ∈ mro (transform applied) ∧
            is_Some (TransformEvaluatorRegistry.dict_get
                       (@TransformEvaluatorRegistry._evaluators V S) c))
    as Hreg.
  { unfold TransformEvaluatorRegistry.should_execute_serially, isinstance
      in Hserial. cbn [existsb] in Hserial.
    rewrite orb_false_r in Hserial.
    apply orb_true_iff in Hserial as [Hin|Hin];
      apply bool_decide_eq_true in Hin.
    - exists core__GroupByKeyOnly. split; [done|]. by eexists.
    - exists _NativeWrite. split; [done|]. by eexists. }
  destruct (mro_walk_some _ _ None Hreg) as (cls & ev & Hin & Hget & Hwalk).
  exists cls, ev. split; [done|]. split; [done|].
  rewrite for_application_unfold, Hside, eqb_reflx. by rewrite Hwalk.
Qed.

End RegistryMore.

Lemma for_application_entry_assertions_witness :
  @TransformEvaluatorRegistry.for_application nat unit (Some example_gbk)
    None ["view"%string] ()
  = (Raise AssertionError, ()).
Proof.
  apply (proj2 (for_application_entry_assertions None ["view"%string] ())).
  discriminate.
Defined.

Lemma serial_transform_has_evaluator_witness :
  ∃ cls evaluator,
    cls ∈ mro (transform example_subclassed_gbk) ∧
    TransformEvaluatorRegistry.dict_get
      (@TransformEvaluatorRegistry._evaluators nat unit) cls
    = Some evaluator ∧
    TransformEvaluatorRegistry.for_application (Some example_subclassed_gbk)
      None [] ()
    = evaluator example_subclassed_gbk None [] ().
Proof.
  apply (serial_transform_has_evaluator example_subclassed_gbk None [] ());
    reflexivity.
Defined.

(** ** More on [_BoundedReadEvaluator] and the splittable-DoFn invoker *)

(** X14.  With its single declared output, [finish_bundle] of the read
    evaluator returns [max 1 (ceil (n / 1000))] bundles for a source of
    [n] values, one empty bundle for an empty source; with any other
    number of declared outputs it raises [AssertionError] and reads
    nothing. *)
Theorem bounded_read_bundle_count {V S}
    (this : @_BoundedReadEvaluator.self V) (s : S) :
  (size (_BoundedReadEvaluator._outputs this) = 1 →
   ∃ r, _BoundedReadEvaluator.finish_bundle this s = (Ok r, s) ∧
     length (output_bundles r)
     = Nat.max 1
         ((length (source_values (_BoundedReadEvaluator._source this))
           + 1000 - 1) / 1000)) ∧
  (size (_BoundedReadEvaluator._outputs this) ≠ 1 →
   _BoundedReadEvaluator.finish_bundle this s = (Raise AssertionError, s)).
Proof.
  unfold _BoundedReadEvaluator.finish_bundle. py_unfold.
  unfold py_bind, py_assert. split.
  - intros Hsize. destruct (size_one_elements _ Hsize) as (pc & Hel & _).
    rewrite bool_decide_eq_true_2 by done. simpl. rewrite Hel.
    eexists. split; [reflexivity|]. simpl.
    assert (∀ reader : list V,
              length (_BoundedReadEvaluator._read_values_to_bundles pc reader)
              = Nat.max 1 ((length reader + 1000 - 1) / 1000)) as Hcount.
    { intros reader.
      unfold _BoundedReadEvaluator._read_values_to_bundles,
        _BoundedReadEvaluator.MAX_ELEMENT_PER_BUNDLE,
        _split_list_into_bundles.
      rewrite (split_loop_unit_length pc 1000 _ [] (create_bundle pc) 0)
        by (simpl; lia).
      cbn [length]. rewrite Nat.sub_0_r, length_map.
      apply ceil_from_first. lia. }
    destruct (_BoundedReadEvaluator._source this) as [grt read|reader];
      apply Hcount.
  - intros Hsize. by rewrite bool_decide_eq_false_2.
Qed.

Lemma bounded_read_bundle_count_witness :
  ∃ r, _BoundedReadEvaluator.finish_bundle example_read_self () = (Ok r, ()) ∧
    length (output_bundles r)
    = Nat.max 1 ((length (source_values example_source) + 1000 - 1) / 1000).
Proof.
  apply (proj1 (bounded_read_bundle_count example_read_self ())).
  vm_compute. reflexivity.
Defined.

(** X15.  [invoke_process_element] raises [AssertionError] without
    running the user's logic when the invoker or the tracker is not of the
    expected class; when the user's logic raises, that exception
    propagates and [check_done] is not consulted; and with a tracker that
    inherits the base class's [check_done] it raises
    [NotImplementedError] as soon as the user's logic has returned. *)
Theorem invoke_process_element_failures {TS E}
    (invoker : @sdf_common.Invoker TS E) (element : E)
    (tracker : @sdf_common.Tracker TS) (ts : TS) :
  (sdf_common.invoker_is_DoFnInvoker invoker = false
   ∨ sdf_common.tracker_is_RestrictionTracker tracker = false →
   sdf_common.invoke_process_element invoker element tracker ts
   = (Raise AssertionError, ts)) ∧
  (sdf_common.invoker_is_DoFnInvoker invoker = true →
   sdf_common.tracker_is_RestrictionTracker tracker = true →
   (∀ e ts1,
      sdf_common.invoke_process invoker element tracker ts = (Raise e, ts1) →
      sdf_common.invoke_process_element invoker element tracker ts
      = (Raise e, ts1)) ∧
   (∀ ts1,
      sdf_common.check_done tracker
      = sdf_common.RestrictionTracker_check_done →
      sdf_common.invoke_process invoker element tracker ts = (Ok (), ts1) →
      sdf_common.invoke_process_element invoker element tracker ts
      = (Raise NotImplementedError, ts1))).
Proof.
  unfold sdf_common.invoke_process_element. py_unfold. split.
  - unfold py_bind, py_assert. intros [->| ->]; simpl; [done|].
    by destruct (sdf_common.invoker_is_DoFnInvoker invoker).
  - intros -> ->. unfold py_assert. split.
    + intros e ts1 Huser. unfold py_bind at 1 2. simpl.
      by rewrite (py_bind_raise _ _ _ _ _ Huser).
    + intros ts1 Hbase Huser. unfold py_bind at 1 2. simpl.
      rewrite (py_bind_step _ _ _ _ _ Huser). by rewrite Hbase.
Qed.

Lemma invoke_process_element_failures_witness :
  sdf_common.invoke_process_element example_invoker 7
    (sdf_common.mkTracker false offset_check_done)
    (mkOffsetTrackerState (0, 3) None)
  = (Raise AssertionError, mkOffsetTrackerState (0, 3) None) ∧
  sdf_common.invoke_process_element example_invoker 7
    (sdf_common.mkTracker true sdf_common.RestrictionTracker_check_done)
    (mkOffsetTrackerState (0, 3) None)
  = (Raise NotImplementedError, mkOffsetTrackerState (0, 3) (Some 0)).
Proof.
  split.
  - apply (proj1 (invoke_process_element_failures example_invoker 7
                    (sdf_common.mkTracker false offset_check_done)
                    (mkOffsetTrackerState (0, 3) None))).
    right. reflexivity.
  - apply (proj2 (proj2 (invoke_process_element_failures example_invoker 7
                           (sdf_common.mkTracker true
                              sdf_common.RestrictionTracker_check_done)
                           (mkOffsetTrackerState (0, 3) None))
                    eq_refl eq_refl)
             (mkOffsetTrackerState (0, 3) (Some 0)) eq_refl eq_refl).
Defined.

(** ** [_TaggedReceivers] *)

Section TaggedReceiversFacts.
Context {A : Type}.
Implicit Types (s : @_TaggedReceivers.self A) (tag : option string).
Implicit Types (outs : list (option string * A)).

Lemma output_to_without_cache s tag (x : A) :
  _TaggedReceivers.has_cache s = false →
  _TaggedReceivers.items s !! tag = None →
  ∃ s', _TaggedReceivers.output_to (tag, x) s = (Ok (), s') ∧
    _TaggedReceivers.has_cache s' = false ∧
    _TaggedReceivers.items s' = _TaggedReceivers.items s ∧
    _TaggedReceivers._undeclared_in_memory_tag_values s'
    = _TaggedReceivers._undeclared_in_memory_tag_values s ∧
    _TaggedReceivers.dicts s' = _TaggedReceivers.dicts s.
Proof.
  intros Hcache Hitem.
  unfold _TaggedReceivers.output_to, _TaggedReceivers.__getitem__,
    _TaggedReceivers.__missing__.
  py_unfold. unfold py_bind, py_get. simpl. rewrite Hitem, Hcache.
  destruct (bool_decide (is_Some (_TaggedReceivers._null_receiver s)));
    simpl; by eexists.
Qed.

Lemma visible_values_not_truthy s :
  _TaggedReceivers.values_truthy s = false → visible_values s = ∅.
Proof.
  unfold _TaggedReceivers.values_truthy, visible_values.
  destruct (_TaggedReceivers.current_values s) as [d|]; simpl; [|done].
  intros Hsize. apply negb_false_iff, Nat.eqb_eq in Hsize.
  by apply map_size_empty_iff.
Qed.

Lemma output_to_with_cache s tag (x : A) :
  _TaggedReceivers.has_cache s = true →
  valid_reference s →
  _TaggedReceivers.items s !! tag = None →
  ∃ s', _TaggedReceivers.output_to (tag, x) s = (Ok (), s') ∧
    _TaggedReceivers.has_cache s' = true ∧
    valid_reference s' ∧
    _TaggedReceivers.items s' = _TaggedReceivers.items s ∧
    is_Some (_TaggedReceivers.current_values s') ∧
    visible_values s'
    = <[tag := default [] (visible_values s !! tag) ++ [x]]>
        (visible_values s).
Proof.
  intros Hcache Hvalid Hitem.
  unfold _TaggedReceivers.output_to, _TaggedReceivers.__getitem__,
    _TaggedReceivers.__missing__.
  py_unfold. unfold py_bind, py_get. cbn [fst snd]. rewrite Hitem, Hcache.
  destruct (_TaggedReceivers.values_truthy s) eqn:Htruthy; simpl.
  - unfold _TaggedReceivers.values_truthy in Htruthy.
    unfold visible_values.
    destruct (_TaggedReceivers.current_values s) as [d|] eqn:Hcur; [|done].
    unfold _TaggedReceivers.current_values in Hcur.
    destruct (_TaggedReceivers._undeclared_in_memory_tag_values s)
      as [r|] eqn:Hr; [|done].
    simpl in Hcur. eexists. split; [reflexivity|].
    unfold valid_reference, _TaggedReceivers.current_values. simpl.
    rewrite Hr. simpl. rewrite length_alter, list_lookup_alter_eq, Hcur.
    simpl. unfold valid_reference in Hvalid. rewrite Hr in Hvalid.
    split; [done|]. split; [done|].
    split; [done|]. split; [by eexists|done].
  - rewrite (visible_values_not_truthy s Htruthy).
    eexists. split; [reflexivity|].
    unfold valid_reference, visible_values,
      _TaggedReceivers.current_values. simpl.
    rewrite length_alter, length_app, list_lookup_alter_eq.
    rewrite lookup_app_r by lia. rewrite Nat.sub_diag. simpl.
    split; [done|]. split; [lia|]. split; [done|]. split; [by eexists|done].
Qed.

Lemma outputs_for_cons tag o outs :
  outputs_for tag (o :: outs)
  = (if decide (o.1 = tag) then [o.2] else []) ++ outputs_for tag outs.
Proof. unfold outputs_for. csimpl. by case_decide. Qed.

(** X16.  Without a cache, outputs to undeclared tags are dropped: they
    are accepted without error and leave the declared bundles, the
    undeclared values and every allocated dictionary as they were. *)
Theorem undeclared_outputs_dropped_without_cache outs s :
  _TaggedReceivers.has_cache s = false →
  Forall (λ o, _TaggedReceivers.items s !! o.1 = None) outs →
  ∃ s', py_for outs _TaggedReceivers.output_to s = (Ok (), s') ∧
    _TaggedReceivers.items s' = _TaggedReceivers.items s ∧
    _TaggedReceivers.current_values s' = _TaggedReceivers.current_values s ∧
    _TaggedReceivers.dicts s' = _TaggedReceivers.dicts s.
Proof.
  intros Hcache Hall. revert s Hcache Hall.
  induction outs as [|[tag x] outs IH]; intros s Hcache Hall.
  - by exists s.
  - apply Forall_cons in Hall as [Hitem Hall]. simpl in Hitem.
    destruct (output_to_without_cache s tag x Hcache Hitem)
      as (s1 & Hstep & Hc1 & Hi1 & Hu1 & Hd1).
    destruct (IH s1 Hc1) as (s' & Hrest & Hi' & Hu' & Hd').
    { eapply Forall_impl; [exact Hall|]. intros o Ho. by rewrite Hi1. }
    exists s'. split.
    + simpl. by rewrite (py_bind_step _ _ _ _ _ Hstep).
    + split; [congruence|]. split; [|congruence].
      rewrite Hu'. unfold _TaggedReceivers.current_values.
      by rewrite Hu1, Hd1.
Qed.

(** X17.  With a cache, outputs to undeclared tags that are each handed
    over right after the lookup accumulate: afterwards the undeclared
    values hold, under every tag, what they held before followed by the
    elements output to that tag, in output order, and the property
    [undeclared_in_memory_tag_values] returns them without raising. *)
Theorem undeclared_outputs_accumulate_with_cache outs s :
  _TaggedReceivers.has_cache s = true →
  valid_reference s →
  Forall (λ o, _TaggedReceivers.items s !! o.1 = None) outs →
  ∃ s', py_for outs _TaggedReceivers.output_to s = (Ok (), s') ∧
    _TaggedReceivers.items s' = _TaggedReceivers.items s ∧
    (∀ tag, default [] (visible_values s' !! tag)
            = default [] (visible_values s !! tag) ++ outputs_for tag outs) ∧
    _TaggedReceivers.undeclared_in_memory_tag_values s'
    = (Ok (_TaggedReceivers.current_values s'), s').
Proof.
  intros Hcache Hvalid Hall. revert s Hcache Hvalid Hall.
  induction outs as [|[tag x] outs IH]; intros s Hcache Hvalid Hall.
  - exists s. split; [done|]. split; [done|]. split.
    + intros tag. by rewrite app_nil_r.
    + unfold _TaggedReceivers.undeclared_in_memory_tag_values.
      py_unfold. unfold py_bind, py_get, py_assert.
      by rewrite Hcache, orb_true_r.
  - apply Forall_cons in Hall as [Hitem Hall]. simpl in Hitem.
    destruct (output_to_with_cache s tag x Hcache Hvalid Hitem)
      as (s1 & Hstep & Hc1 & Hv1 & Hi1 & _ & Hvis1).
    destruct (IH s1 Hc1 Hv1) as (s' & Hrest & Hi' & Hvis' & Hprop).
    { eapply Forall_impl; [exact Hall|]. intros o Ho. by rewrite Hi1. }
    exists s'. split; [|split; [congruence|split; [|done]]].
    + simpl. by rewrite (py_bind_step _ _ _ _ _ Hstep).
    + intros tag'. rewrite Hvis', Hvis1, outputs_for_cons. simpl.
      destruct (decide (tag = tag')) as [->|Hne].
      * rewrite lookup_insert_eq. simpl. by rewrite <- app_assoc.
      * by rewrite lookup_insert_ne.
Qed.

(** A lookup of an undeclared tag while no undeclared value is buffered
    allocates a fresh dictionary and hands out a receiver for it. *)
Lemma getitem_allocates s tag :
  _TaggedReceivers.has_cache s = true →
  _TaggedReceivers.values_truthy s = false →
  _TaggedReceivers.items s !! tag = None →
  _TaggedReceivers.__getitem__ tag s
  = (Ok (_TaggedReceivers._InMemoryReceiver
           (length (_TaggedReceivers.dicts s)) tag),
     with_fresh_dict s).
Proof.
  intros Hcache Htruthy Hitem.
  unfold _TaggedReceivers.__getitem__, _TaggedReceivers.__missing__.
  py_unfold. unfold py_bind, py_get. simpl.
  by rewrite Hitem, Hcache, Htruthy.
Qed.

Lemma with_fresh_dict_not_truthy s :
  _TaggedReceivers.values_truthy (with_fresh_dict s) = false.
Proof.
  unfold _TaggedReceivers.values_truthy, _TaggedReceivers.current_values,
    with_fresh_dict. simpl.
  rewrite lookup_app_r by lia. by rewrite Nat.sub_diag.
Qed.

(** X18.  With a cache and no undeclared value buffered yet, a receiver
    looked up before a second lookup buffers into a dictionary the
    receivers object no longer refers to: the second lookup replaces the
    still empty dictionary, so an element then handed to the first
    receiver does not show among the undeclared values. *)
Theorem stale_receiver_output_is_not_visible s (a b : option string)
    (x : A) :
  _TaggedReceivers.has_cache s = true →
  _TaggedReceivers.values_truthy s = false →
  _TaggedReceivers.items s !! a = None →
  _TaggedReceivers.items s !! b = None →
  ∃ r1 s1 r2 s2 s3,
    _TaggedReceivers.__getitem__ a s = (Ok r1, s1) ∧
    _TaggedReceivers.__getitem__ b s1 = (Ok r2, s2) ∧
    _TaggedReceivers.receiver_output r1 x s2 = (Ok (), s3) ∧
    _TaggedReceivers.undeclared_in_memory_tag_values s3
    = (Ok (Some ∅), s3).
Proof.
  intros Hcache Htruthy Ha Hb.
  eexists _, _, _, _, _.
  split; [by apply getitem_allocates|].
  split; [by apply getitem_allocates; [|apply with_fresh_dict_not_truthy|]|].
  split; [reflexivity|].
  unfold _TaggedReceivers.undeclared_in_memory_tag_values.
  py_unfold. unfold py_bind, py_get, py_assert.
  cbn [_TaggedReceivers.has_cache with_fresh_dict]. rewrite Hcache, orb_true_r.
  simpl. do 2 f_equal.
  unfold _TaggedReceivers.current_values. simpl.
  rewrite length_app. simpl.
  rewrite list_lookup_alter_ne by lia.
  rewrite lookup_app_r by (rewrite length_app; simpl; lia).
  rewrite length_app. simpl.
  by replace (length (_TaggedReceivers.dicts s) + 1
              - (length (_TaggedReceivers.dicts s) + 1)) with 0 by lia.
Qed.

End TaggedReceiversFacts.

Lemma undeclared_outputs_dropped_without_cache_witness :
  ∃ s', py_for [(Some "a"%string, 1); (Some "b"%string, 2)]
          _TaggedReceivers.output_to (_TaggedReceivers.__init__ false)
        = (Ok (), s') ∧
    _TaggedReceivers.current_values s' = None.
Proof.
  destruct (undeclared_outputs_dropped_without_cache
              [(Some "a"%string, 1); (Some "b"%string, 2)]
              (_TaggedReceivers.__init__ false) eq_refl)
    as (s' & Hrun & _ & Hvalues & _).
  - repeat constructor.
  - exists s'. split; [exact Hrun|exact Hvalues].
Defined.

Lemma undeclared_outputs_accumulate_with_cache_witness :
  ∃ s', py_for [(Some "a"%string, 1); (Some "b"%string, 2);
                (Some "a"%string, 3)]
          _TaggedReceivers.output_to (_TaggedReceivers.__init__ true)
        = (Ok (), s') ∧
    default [] (visible_values s' !! Some "a"%string) = [1; 3].
Proof.
  destruct (undeclared_outputs_accumulate_with_cache
              [(Some "a"%string, 1); (Some "b"%string, 2);
               (Some "a"%string, 3)]
              (_TaggedReceivers.__init__ true) eq_refl I)
    as (s' & Hrun & _ & Hvisible & _).
  - repeat constructor.
  - exists s'. split; [exact Hrun|]. exact (Hvisible (Some "a"%string)).
Defined.

Lemma stale_receiver_output_is_not_visible_witness :
  ∃ r1 s1 r2 s2 s3,
    _TaggedReceivers.__getitem__ (Some "a"%string)
      (_TaggedReceivers.__init__ true) = (Ok r1, s1) ∧
    _TaggedReceivers.__getitem__ (Some "b"%string) s1 = (Ok r2, s2) ∧
    _TaggedReceivers.receiver_output r1 7 s2 = (Ok (), s3) ∧
    _TaggedReceivers.undeclared_in_memory_tag_values s3 = (Ok (Some ∅), s3).
Proof.
  apply (stale_receiver_output_is_not_visible
           (_TaggedReceivers.__init__ true) (Some "a"%string)
           (Some "b"%string) 7); reflexivity.
Defined.

(** ** [_PipelineContextMap] *)

(** Unfolds the monadic notation of the map's methods. *)
Ltac m_unfold :=
  unfold mbind, mret, _PipelineContextMap.m_mbind,
    _PipelineContextMap.m_mret in *.

Section PipelineContextMapFacts.
Context {O Pr : Type} `{Countable O}.
Variable to_runner_api : O → @_PipelineContextMap.M O Pr _ _ Pr.
Variable from_runner_api : Pr → @_PipelineContextMap.M O Pr _ _ O.

Abbreviation pcm_self := (@_PipelineContextMap.self O Pr _ _).
Abbreviation pcm_get_id := (_PipelineContextMap.get_id to_runner_api).
Abbreviation pcm_get_by_id := (_PipelineContextMap.get_by_id from_runner_api).
Abbreviation o2i := (@_PipelineContextMap._obj_to_id O Pr _ _).
Abbreviation i2o := (@_PipelineContextMap._id_to_obj O Pr _ _).
Abbreviation i2p := (@_PipelineContextMap._id_to_proto O Pr _ _).
Abbreviation kind := (@_PipelineContextMap._id_to_proto_kind O Pr _ _).

Implicit Types (s : pcm_self) (obj : O) (id : string).

Lemma string_app_inj_r (p a b : string) : p +:+ a = p +:+ b → a = b.
Proof.
  induction p as [|c p IH]; simpl; [done|]. intros [= Heq]. by apply IH.
Qed.

Lemma ref_name_inj name k k' :
  _PipelineContextMap.ref_name name k = _PipelineContextMap.ref_name name k' →
  k = k'.
Proof.
  unfold _PipelineContextMap.ref_name. intros Heq.
  do 3 apply string_app_inj_r in Heq. by apply (inj pretty) in Heq.
Qed.

Lemma get_id_registered s obj id :
  o2i s !! obj = Some id → pcm_get_id obj s = (_PipelineContextMap.Return id, s).
Proof.
  intros Hreg. unfold _PipelineContextMap.get_id. m_unfold.
  unfold _PipelineContextMap.m_bind, _PipelineContextMap.m_get.
  rewrite bool_decide_eq_true_2 by (by eexists).
  unfold _PipelineContextMap.m_ret. by rewrite Hreg.
Qed.

(** [get_id] on an object that is not registered yet: the object is
    registered under the next id, then encoded, and the representation is
    assigned, which only a dict accepts. *)
Lemma get_id_fresh s obj :
  o2i s !! obj = None →
  pcm_get_id obj s
  = match to_runner_api obj (just_registered obj s) with
    | (_PipelineContextMap.Return proto, s_cb) =>
        match kind s_cb with
        | _PipelineContextMap.PyDict =>
            let s1 := _PipelineContextMap.set_id_to_proto (next_ref s) proto
                        s_cb in
            match o2i s1 !! obj with
            | Some id => (_PipelineContextMap.Return id, s1)
            | None =>
                (_PipelineContextMap.Throw _PipelineContextMap.KeyError, s1)
            end
        | _PipelineContextMap.MessageMap _ =>
            (_PipelineContextMap.Throw
               (_PipelineContextMap.Raised ValueError), s_cb)
        end
    | (_PipelineContextMap.Throw e, s_cb) => (_PipelineContextMap.Throw e, s_cb)
    end.
Proof.
  intros Hfresh. unfold _PipelineContextMap.get_id,
    _PipelineContextMap._unique_ref, _PipelineContextMap.id_to_proto_setitem.
  m_unfold.
  unfold _PipelineContextMap.m_bind, _PipelineContextMap.m_get,
    _PipelineContextMap.m_modify.
  rewrite bool_decide_eq_false_2 by (rewrite Hfresh; by intros [? ?]).
  cbn [fst snd _PipelineContextMap._obj_type_name
       _PipelineContextMap._counter _PipelineContextMap.m_ret].
  unfold _PipelineContextMap.set_obj_to_id, _PipelineContextMap.set_id_to_obj.
  cbn [_PipelineContextMap._obj_type_name _PipelineContextMap._counter
       _PipelineContextMap._obj_to_id _PipelineContextMap._id_to_obj
       _PipelineContextMap._id_to_proto
       _PipelineContextMap._id_to_proto_kind].
  fold (just_registered obj s). fold (next_ref s).
  destruct (to_runner_api obj (just_registered obj s)) as [[proto|e] s_cb];
    [|done].
  destruct (kind s_cb); [|done].
  cbv zeta.
  destruct (o2i (_PipelineContextMap.set_id_to_proto _ proto s_cb) !! obj);
    reflexivity.
Qed.

Lemma get_by_id_cached s id obj :
  i2o s !! id = Some obj →
  pcm_get_by_id id s = (_PipelineContextMap.Return obj, s).
Proof.
  intros Hcached. unfold _PipelineContextMap.get_by_id. m_unfold.
  unfold _PipelineContextMap.m_bind, _PipelineContextMap.m_get.
  rewrite bool_decide_eq_true_2 by (by eexists).
  unfold _PipelineContextMap.m_ret. by rewrite Hcached.
Qed.

(** [get_by_id] on an id without a cached object, once the subscript
    [self._id_to_proto[id]] has returned [proto] in state [s0]: the
    representation is decoded and the object cached. *)
Lemma get_by_id_decodes s id proto s0 :
  i2o s !! id = None →
  _PipelineContextMap.id_to_proto_getitem id s
  = (_PipelineContextMap.Return proto, s0) →
  pcm_get_by_id id s
  = match from_runner_api proto s0 with
    | (_PipelineContextMap.Return obj, s_cb) =>
        (_PipelineContextMap.Return obj,
         _PipelineContextMap.set_id_to_obj id obj s_cb)
    | (_PipelineContextMap.Throw e, s_cb) =>
        (_PipelineContextMap.Throw e, s_cb)
    end.
Proof.
  intros Hnone Hitem. unfold _PipelineContextMap.get_by_id. m_unfold.
  unfold _PipelineContextMap.m_bind, _PipelineContextMap.m_get,
    _PipelineContextMap.m_modify.
  rewrite bool_decide_eq_false_2 by (rewrite Hnone; by intros [? ?]).
  rewrite Hitem.
  destruct (from_runner_api proto s0) as [[obj|e] s_cb]; [|reflexivity].
  unfold _PipelineContextMap.set_id_to_obj at 1.
  cbn [_PipelineContextMap._id_to_obj]. by rewrite lookup_insert_eq.
Qed.

Lemma getitem_present s id proto :
  i2p s !! id = Some proto →
  _PipelineContextMap.id_to_proto_getitem id s
  = (_PipelineContextMap.Return proto, s).
Proof.
  intros Hp. unfold _PipelineContextMap.id_to_proto_getitem. m_unfold.
  unfold _PipelineContextMap.m_bind, _PipelineContextMap.m_get.
  by rewrite Hp.
Qed.

Lemma getitem_missing_dict s id :
  i2p s !! id = None → kind s = _PipelineContextMap.PyDict →
  _PipelineContextMap.id_to_proto_getitem id s
  = (_PipelineContextMap.Throw _PipelineContextMap.KeyError, s).
Proof.
  intros Hp Hk. unfold _PipelineContextMap.id_to_proto_getitem. m_unfold.
  unfold _PipelineContextMap.m_bind, _PipelineContextMap.m_get.
  by rewrite Hp, Hk.
Qed.

Lemma getitem_missing_message_map s id empty :
  i2p s !! id = None → kind s = _PipelineContextMap.MessageMap empty →
  _PipelineContextMap.id_to_proto_getitem id s
  = (_PipelineContextMap.Return empty,
     _PipelineContextMap.set_id_to_proto id empty s).
Proof.
  intros Hp Hk. unfold _PipelineContextMap.id_to_proto_getitem. m_unfold.
  unfold _PipelineContextMap.m_bind, _PipelineContextMap.m_get.
  by rewrite Hp, Hk.
Qed.

Lemma get_by_id_unknown_dict s id :
  i2o s !! id = None → i2p s !! id = None →
  kind s = _PipelineContextMap.PyDict →
  pcm_get_by_id id s
  = (_PipelineContextMap.Throw _PipelineContextMap.KeyError, s).
Proof.
  intros Hnone Hp Hk. unfold _PipelineContextMap.get_by_id. m_unfold.
  unfold _PipelineContextMap.m_bind, _PipelineContextMap.m_get.
  rewrite bool_decide_eq_false_2 by (rewrite Hnone; by intros [? ?]).
  by rewrite getitem_missing_dict.
Qed.

(** The subscript either returns, having at most added an entry to
    [_id_to_proto], or raises and leaves the map as it was. *)
Lemma getitem_cases s id :
  (∃ proto s0, _PipelineContextMap.id_to_proto_getitem id s
               = (_PipelineContextMap.Return proto, s0) ∧
     o2i s0 = o2i s ∧ i2o s0 = i2o s ∧
     _PipelineContextMap._counter s0 = _PipelineContextMap._counter s ∧
     _PipelineContextMap._obj_type_name s0
     = _PipelineContextMap._obj_type_name s) ∨
  _PipelineContextMap.id_to_proto_getitem id s
  = (_PipelineContextMap.Throw _PipelineContextMap.KeyError, s).
Proof.
  destruct (i2p s !! id) as [proto|] eqn:Hp.
  - left. exists proto, s. by rewrite (getitem_present s id proto Hp).
  - destruct (kind s) as [|empty] eqn:Hk.
    + right. by apply getitem_missing_dict.
    + left. eexists _, _.
      by rewrite (getitem_missing_message_map s id empty Hp Hk).
Qed.

(** X19.  [get_id] is idempotent, whatever the encoder does: once it has
    returned an id for an object, asking again returns the same id without
    encoding the object again and without changing the map. *)
Theorem get_id_is_idempotent s obj id s1 :
  _PipelineContextMap.get_id to_runner_api obj s
  = (_PipelineContextMap.Return id, s1) →
  _PipelineContextMap.get_id to_runner_api obj s1
  = (_PipelineContextMap.Return id, s1).
Proof.
  intros Hget. apply get_id_registered.
  destruct (o2i s !! obj) as [id0|] eqn:Hreg.
  - rewrite (get_id_registered s obj id0 Hreg) in Hget.
    by injection Hget as <- <-.
  - rewrite (get_id_fresh s obj Hreg) in Hget.
    destruct (to_runner_api obj (just_registered obj s))
      as [[proto|e] s_cb]; [|done].
    destruct (kind s_cb); [|done].
    cbv zeta in Hget.
    destruct (o2i (_PipelineContextMap.set_id_to_proto _ proto s_cb) !! obj)
      as [id'|] eqn:Hlook; [|done].
    by injection Hget as <- <-.
Qed.

(** X20.  [get_by_id] returns a cached object without decoding.  For an
    id that has neither an object nor a representation, a map whose
    [_id_to_proto] is a dict raises [KeyError] and stays as it was,
    whereas a map that kept the caller's protobuf map does not raise
    [KeyError]: the subscript creates an empty representation under the
    id, and when the decoder returns an object for it, that object is
    returned and cached.  An object that [get_by_id] returned is cached,
    so the same call made again returns it without decoding. *)
Theorem get_by_id_lookup s id :
  (∀ obj, i2o s !! id = Some obj →
     _PipelineContextMap.get_by_id from_runner_api id s
     = (_PipelineContextMap.Return obj, s)) ∧
  (i2o s !! id = None → i2p s !! id = None →
   kind s = _PipelineContextMap.PyDict →
   _PipelineContextMap.get_by_id from_runner_api id s
   = (_PipelineContextMap.Throw _PipelineContextMap.KeyError, s)) ∧
  (∀ empty obj,
     i2o s !! id = None → i2p s !! id = None →
     kind s = _PipelineContextMap.MessageMap empty →
     (∀ s', from_runner_api empty s' = (_PipelineContextMap.Return obj, s')) →
     _PipelineContextMap.get_by_id from_runner_api id s
     = (_PipelineContextMap.Return obj,
        _PipelineContextMap.set_id_to_obj id obj
          (_PipelineContextMap.set_id_to_proto id empty s))) ∧
  (∀ obj s1,
     _PipelineContextMap.get_by_id from_runner_api id s
     = (_PipelineContextMap.Return obj, s1) →
     _PipelineContextMap.get_by_id from_runner_api id s1
     = (_PipelineContextMap.Return obj, s1)).
Proof.
  split; [|split; [|split]].
  - intros obj. apply get_by_id_cached.
  - apply get_by_id_unknown_dict.
  - intros empty obj Hobj Hproto Hkind Hdecodes.
    rewrite (get_by_id_decodes s id empty _ Hobj
               (getitem_missing_message_map s id empty Hproto Hkind)).
    by rewrite Hdecodes.
  - intros obj s1 Hget. apply get_by_id_cached.
    destruct (i2o s !! id) as [obj0|] eqn:Hcached.
    + rewrite (get_by_id_cached s id obj0 Hcached) in Hget.
      by injection Hget as <- <-.
    + destruct (getitem_cases s id) as [(proto & s0 & Hitem & _)|Hitem].
      * rewrite (get_by_id_decodes s id proto s0 Hcached Hitem) in Hget.
        destruct (from_runner_api proto s0) as [[obj'|e] s_cb]; [|done].
        injection Hget as <- <-. simpl. apply lookup_insert_eq.
      * exfalso. revert Hget. unfold _PipelineContextMap.get_by_id. m_unfold.
        unfold _PipelineContextMap.m_bind, _PipelineContextMap.m_get.
        rewrite bool_decide_eq_false_2 by (rewrite Hcached; by intros [? ?]).
        by rewrite Hitem.
Qed.

(** Under a quiet encoder and decoder the registrations stay consistent. *)
Lemma get_id_consistent s obj :
  quiet to_runner_api →
  registered_consistently s →
  registered_consistently (pcm_get_id obj s).2.
Proof.
  intros Hquiet Hinv. destruct (o2i s !! obj) as [id0|] eqn:Hreg.
  - by rewrite (get_id_registered s obj id0 Hreg).
  - rewrite (get_id_fresh s obj Hreg).
    pose proof (Hquiet obj (just_registered obj s)) as Hcb.
    assert (registered_consistently (just_registered obj s)) as Hinv1.
    { intros obj' id' Hlook. simpl in Hlook. simpl.
      destruct (decide (obj = obj')) as [<-|Hne].
      - rewrite lookup_insert_eq in Hlook. injection Hlook as <-.
        rewrite lookup_insert_eq. split; [done|].
        exists (_PipelineContextMap._counter s + 1). split; [lia|done].
      - rewrite lookup_insert_ne in Hlook by done.
        destruct (Hinv obj' id' Hlook) as (Hback & k & Hk & ->).
        split.
        + rewrite lookup_insert_ne; [done|].
          intros Heq. apply ref_name_inj in Heq. lia.
        + exists k. split; [lia|done]. }
    destruct (to_runner_api obj (just_registered obj s))
      as [[proto|e] s_cb]; simpl in Hcb; subst s_cb; [|done].
    destruct (kind (just_registered obj s)); [|done].
    cbv zeta.
    destruct (o2i (_PipelineContextMap.set_id_to_proto _ proto _) !! obj);
      exact Hinv1.
Qed.

Lemma get_by_id_consistent s id :
  quiet from_runner_api →
  registered_consistently s →
  registered_consistently (pcm_get_by_id id s).2.
Proof.
  intros Hquiet Hinv. destruct (i2o s !! id) as [obj0|] eqn:Hcached.
  - by rewrite (get_by_id_cached s id obj0 Hcached).
  - destruct (getitem_cases s id)
      as [(proto & s0 & Hitem & Ho2i & Hi2o & Hcnt & Hname)|Hitem].
    + rewrite (get_by_id_decodes s id proto s0 Hcached Hitem).
      pose proof (Hquiet proto s0) as Hcb.
      assert (registered_consistently s0) as Hinv0.
      { intros obj' id' Hlook. rewrite Ho2i in Hlook.
        rewrite Hi2o, Hcnt, Hname. by apply Hinv. }
      destruct (from_runner_api proto s0) as [[obj|e] s_cb];
        simpl in Hcb; subst s_cb; [|done].
      intros obj' id' Hlook. simpl in Hlook. simpl.
      destruct (Hinv0 obj' id' Hlook) as (Hback & Hk). split; [|done].
      rewrite lookup_insert_ne; [done|]. intros <-.
      rewrite Hi2o in Hback. congruence.
    + replace (pcm_get_by_id id s)
        with (@_PipelineContextMap.Throw O _PipelineContextMap.KeyError, s);
        [done|].
      unfold _PipelineContextMap.get_by_id. m_unfold.
      unfold _PipelineContextMap.m_bind, _PipelineContextMap.m_get.
      rewrite bool_decide_eq_false_2 by (rewrite Hcached; by intros [? ?]).
      by rewrite Hitem.
Qed.

Lemma reachable_consistent s :
  quiet to_runner_api → quiet from_runner_api →
  reachable to_runner_api from_runner_api s →
  registered_consistently s.
Proof.
  intros Hto Hfrom. induction 1 as [name pm|s obj _ IH|s id _ IH].
  - intros obj id Hlook.
    assert (o2i (_PipelineContextMap.__init__ name pm) = ∅) as Hempty.
    { unfold _PipelineContextMap.__init__.
      destruct pm as [[k entries]|]; [|done].
      by destruct (bool_decide (size entries = 0)). }
    rewrite Hempty in Hlook. by rewrite lookup_empty in Hlook.
  - by apply get_id_consistent.
  - by apply get_by_id_consistent.
Qed.

Lemma get_id_returns_registration s obj id s1 :
  pcm_get_id obj s = (_PipelineContextMap.Return id, s1) →
  o2i s1 !! obj = Some id.
Proof.
  intros Hget. destruct (o2i s !! obj) as [id0|] eqn:Hreg.
  - rewrite (get_id_registered s obj id0 Hreg) in Hget.
    by injection Hget as <- <-.
  - rewrite (get_id_fresh s obj Hreg) in Hget.
    destruct (to_runner_api obj (just_registered obj s))
      as [[proto|e] s_cb]; [|done].
    destruct (kind s_cb); [|done].
    cbv zeta in Hget.
    destruct (o2i (_PipelineContextMap.set_id_to_proto _ proto s_cb) !! obj)
      as [id'|] eqn:Hlook; [|done].
    by injection Hget as <- <-.
Qed.

Lemma get_id_keeps_registrations s obj obj' id' :
  quiet to_runner_api →
  o2i s !! obj' = Some id' →
  o2i (pcm_get_id obj s).2 !! obj' = Some id'.
Proof.
  intros Hquiet Hreg'. destruct (o2i s !! obj) as [id0|] eqn:Hreg.
  - by rewrite (get_id_registered s obj id0 Hreg).
  - rewrite (get_id_fresh s obj Hreg).
    pose proof (Hquiet obj (just_registered obj s)) as Hcb.
    assert (o2i (just_registered obj s) !! obj' = Some id') as Hkept.
    { simpl. rewrite lookup_insert_ne; [done|]. intros <-. congruence. }
    destruct (to_runner_api obj (just_registered obj s))
      as [[proto|e] s_cb]; simpl in Hcb; subst s_cb; [|done].
    destruct (kind (just_registered obj s)); [|done].
    cbv zeta.
    destruct (o2i (_PipelineContextMap.set_id_to_proto _ proto _) !! obj);
      exact Hkept.
Qed.

(** X21.  Round trip: with an encoder and a decoder that leave the map
    alone, the id [get_id] returned for an object leads [get_by_id] back to
    that very object, and no decoding changes the map. *)
Theorem get_by_id_inverts_get_id s obj id s1 :
  quiet to_runner_api → quiet from_runner_api →
  reachable to_runner_api from_runner_api s →
  _PipelineContextMap.get_id to_runner_api obj s
  = (_PipelineContextMap.Return id, s1) →
  _PipelineContextMap.get_by_id from_runner_api id s1
  = (_PipelineContextMap.Return obj, s1).
Proof.
  intros Hto Hfrom Hreach Hget. apply get_by_id_cached.
  assert (registered_consistently s1) as Hinv.
  { replace s1 with (pcm_get_id obj s).2 by (by rewrite Hget).
    apply get_id_consistent; [done|]. by apply reachable_consistent. }
  by destruct (Hinv obj id (get_id_returns_registration _ _ _ _ Hget)).
Qed.

(** X22.  Ids are not shared: with an encoder and a decoder that leave the
    map alone, two calls of [get_id] that return the same id were made for
    the same object. *)
Theorem get_id_is_injective s a b id s1 s2 :
  quiet to_runner_api → quiet from_runner_api →
  reachable to_runner_api from_runner_api s →
  _PipelineContextMap.get_id to_runner_api a s
  = (_PipelineContextMap.Return id, s1) →
  _PipelineContextMap.get_id to_runner_api b s1
  = (_PipelineContextMap.Return id, s2) →
  a = b.
Proof.
  intros Hto Hfrom Hreach Ha Hb.
  assert (s1 = (pcm_get_id a s).2) as Hs1 by (by rewrite Ha).
  assert (s2 = (pcm_get_id b s1).2) as Hs2 by (by rewrite Hb).
  assert (registered_consistently s2) as Hinv.
  { rewrite Hs2, Hs1. apply get_id_consistent; [done|].
    apply get_id_consistent; [done|]. by apply reachable_consistent. }
  pose proof (get_id_returns_registration _ _ _ _ Ha) as Hrega.
  pose proof (get_id_returns_registration _ _ _ _ Hb) as Hregb.
  assert (o2i s2 !! a = Some id) as Hrega2.
  { rewrite Hs2. by apply get_id_keeps_registrations. }
  destruct (Hinv a id Hrega2) as [Hbacka _].
  destruct (Hinv b id Hregb) as [Hbackb _].
  congruence.
Qed.

(** X23.  A failed encoding is not undone: when the encoder of an
    unregistered object raises, [get_id] raises the same error, but the
    object stays registered under the id made for it, with no
    representation stored; asking again returns that id without encoding
    the object. *)
Theorem failed_encoding_leaves_object_registered s obj e :
  o2i s !! obj = None →
  (∀ s', to_runner_api obj s' = (_PipelineContextMap.Throw e, s')) →
  ∃ s1, _PipelineContextMap.get_id to_runner_api obj s
  = (_PipelineContextMap.Throw e, s1) ∧
    _PipelineContextMap.get_id to_runner_api obj s1
    = (_PipelineContextMap.Return (next_ref s), s1) ∧
    i2o s1 !! next_ref s = Some obj ∧
    i2p s1 = i2p s.
Proof.
  intros Hfresh Hraises. exists (just_registered obj s).
  rewrite (get_id_fresh s obj Hfresh), Hraises. split; [done|].
  split; [|split; [|done]].
  - apply get_id_registered. simpl. apply lookup_insert_eq.
  - simpl. apply lookup_insert_eq.
Qed.

Lemma populate_fold (l : list (string * Pr)) (pm : gmap string Pr) id :
  NoDup l.*1 →
  foldr (λ item acc, <[item.1 := item.2]> acc) pm l !! id
  = match list_to_map (M := gmap string Pr) l !! id with
    | Some proto => Some proto
    | None => pm !! id
    end.
Proof.
  induction l as [|[k v] l IH]; intros Hnodup; simpl.
  - by rewrite lookup_empty.
  - apply NoDup_cons in Hnodup as [_ Hnodup].
    destruct (decide (k = id)) as [->|Hne].
    + by rewrite !lookup_insert_eq.
    + rewrite !lookup_insert_ne by done. by apply IH.
Qed.

Lemma populate_map_get s (proto_map : gmap string Pr) id :
  _PipelineContextMap.populate_map s proto_map !! id
  = match i2p s !! id with
    | Some proto => Some proto
    | None => proto_map !! id
    end.
Proof.
  unfold _PipelineContextMap.populate_map.
  rewrite populate_fold by apply NoDup_fst_map_to_list.
  by rewrite list_to_map_to_list.
Qed.

(** X24.  [populate_map] copies every representation the map holds into
    the given map under its id, replacing what the given map had there, and
    leaves the entries under other ids as they were. *)
Theorem populate_map_lookup s (proto_map : gmap string Pr) id :
  _PipelineContextMap.populate_map s proto_map !! id
  = match i2p s !! id with
    | Some proto => Some proto
    | None => proto_map !! id
    end.
Proof. apply populate_map_get. Qed.

(** X25.  For an unregistered object whose encoding succeeds, a map
    whose [_id_to_proto] is a dict returns the id made from the next
    counter value, and the object's representation is what [populate_map]
    exports under that id afterwards, whatever the target held there.  A
    map that kept the caller's protobuf map cannot store the
    representation: the assignment raises [ValueError] after the object
    was registered and encoded, so that the object is left registered
    under that id, with the stored representations as they were. *)
Theorem fresh_object_is_encoded_and_exported s obj proto proto_map :
  o2i s !! obj = None →
  (∀ s', to_runner_api obj s' = (_PipelineContextMap.Return proto, s')) →
  (kind s = _PipelineContextMap.PyDict →
   ∃ s1, _PipelineContextMap.get_id to_runner_api obj s
         = (_PipelineContextMap.Return (next_ref s), s1) ∧
     _PipelineContextMap._counter s1 = _PipelineContextMap._counter s + 1 ∧
     _PipelineContextMap.populate_map s1 proto_map !! next_ref s
     = Some proto) ∧
  (∀ empty, kind s = _PipelineContextMap.MessageMap empty →
   ∃ s1, _PipelineContextMap.get_id to_runner_api obj s
         = (_PipelineContextMap.Throw
              (_PipelineContextMap.Raised ValueError), s1) ∧
     _PipelineContextMap.get_id to_runner_api obj s1
     = (_PipelineContextMap.Return (next_ref s), s1) ∧
     i2p s1 = i2p s).
Proof.
  intros Hfresh Hencodes. split.
  - intros Hkind.
    exists (_PipelineContextMap.set_id_to_proto (next_ref s) proto
              (just_registered obj s)).
    rewrite (get_id_fresh s obj Hfresh), Hencodes.
    replace (kind (just_registered obj s)) with (kind s) by done.
    rewrite Hkind. cbv zeta. split; [|split; [done|]].
    + simpl. by rewrite lookup_insert_eq.
    + rewrite populate_map_get. simpl. by rewrite lookup_insert_eq.
  - intros empty Hkind. exists (just_registered obj s).
    rewrite (get_id_fresh s obj Hfresh), Hencodes.
    replace (kind (just_registered obj s)) with (kind s) by done.
    rewrite Hkind. split; [done|]. split; [|done].
    apply get_id_registered. simpl. apply lookup_insert_eq.
Qed.

End PipelineContextMapFacts.

Lemma get_id_is_idempotent_witness :
  let s1 := (_PipelineContextMap.get_id example_encoder 7
               example_context_map).2 in
  _PipelineContextMap.get_id example_encoder 7 s1
  = (_PipelineContextMap.Return "ref_Coder_1"%string, s1).
Proof.
  apply (get_id_is_idempotent example_encoder example_context_map 7).
  reflexivity.
Defined.

Lemma get_by_id_lookup_witness :
  _PipelineContextMap.get_by_id example_decoder "ref_Coder_1"
    example_context_map
  = (_PipelineContextMap.Throw _PipelineContextMap.KeyError,
     example_context_map) ∧
  _PipelineContextMap.get_by_id example_decoder "ref_Coder_1"
    example_decoded_map
  = (_PipelineContextMap.Return 0,
     _PipelineContextMap.set_id_to_obj "ref_Coder_1" 0
       (_PipelineContextMap.set_id_to_proto "ref_Coder_1" 0
          example_decoded_map)).
Proof.
  split.
  - apply (get_by_id_lookup example_decoder example_context_map
             "ref_Coder_1"); reflexivity.
  - apply (proj1 (proj2 (proj2 (get_by_id_lookup example_decoder
                                  example_decoded_map "ref_Coder_1")))
             0 0); reflexivity.
Defined.

Lemma get_by_id_inverts_get_id_witness :
  let s1 := (_PipelineContextMap.get_id example_encoder 7
               example_context_map).2 in
  _PipelineContextMap.get_by_id example_decoder "ref_Coder_1" s1
  = (_PipelineContextMap.Return 7, s1).
Proof.
  apply (get_by_id_inverts_get_id example_encoder example_decoder
           example_context_map 7).
  - intros b s. reflexivity.
  - intros b s. reflexivity.
  - apply reachable_init.
  - reflexivity.
Defined.

Lemma get_id_is_injective_witness :
  let s1 := (_PipelineContextMap.get_id example_encoder 7
               example_context_map).2 in
  7 = 7 ∧
  _PipelineContextMap.get_id example_encoder 7 s1
  = (_PipelineContextMap.Return "ref_Coder_1"%string, s1).
Proof.
  intros s1.
  assert (_PipelineContextMap.get_id example_encoder 7 s1
          = (_PipelineContextMap.Return "ref_Coder_1"%string, s1)) as Hagain
    by reflexivity.
  split; [|exact Hagain].
  apply (get_id_is_injective example_encoder example_decoder
           example_context_map 7 7 "ref_Coder_1" s1 s1).
  - intros b s. reflexivity.
  - intros b s. reflexivity.
  - apply reachable_init.
  - reflexivity.
  - exact Hagain.
Defined.

Lemma failed_encoding_leaves_object_registered_witness :
  ∃ s1,
    _PipelineContextMap.get_id example_failing_encoder 7 example_context_map
    = (_PipelineContextMap.Throw (_PipelineContextMap.Raised ValueError), s1) ∧
    _PipelineContextMap.get_id example_failing_encoder 7 s1
    = (_PipelineContextMap.Return "ref_Coder_1"%string, s1) ∧
    _PipelineContextMap._id_to_obj s1 !! "ref_Coder_1"%string = Some 7 ∧
    _PipelineContextMap._id_to_proto s1 = ∅.
Proof.
  apply (failed_encoding_leaves_object_registered example_failing_encoder
           example_context_map 7 (_PipelineContextMap.Raised ValueError)).
  - reflexivity.
  - intros s'. reflexivity.
Defined.

Lemma fresh_object_is_encoded_and_exported_witness :
  (∃ s1,
     _PipelineContextMap.get_id example_encoder 7 example_context_map
     = (_PipelineContextMap.Return "ref_Coder_1"%string, s1) ∧
     _PipelineContextMap._counter s1 = 1 ∧
     _PipelineContextMap.populate_map s1 {[ "ref_Coder_1"%string := 0 ]}
       !! "ref_Coder_1"%string = Some 7) ∧
  (∃ s1,
     _PipelineContextMap.get_id example_encoder 7 example_decoded_map
     = (_PipelineContextMap.Throw (_PipelineContextMap.Raised ValueError),
        s1) ∧
     _PipelineContextMap.get_id example_encoder 7 s1
     = (_PipelineContextMap.Return "ref_Coder_1"%string, s1) ∧
     _PipelineContextMap._id_to_proto s1 = {[ "c1"%string := 5 ]}).
Proof.
  split.
  - apply (proj1 (fresh_object_is_encoded_and_exported example_encoder
                    example_context_map 7 7 {[ "ref_Coder_1"%string := 0 ]}
                    eq_refl (λ s', eq_refl))).
    reflexivity.
  - apply (proj2 (fresh_object_is_encoded_and_exported example_encoder
                    example_decoded_map 7 7 ∅ eq_refl (λ s', eq_refl)) 0).
    reflexivity.
Defined.
